(** * calypsetup: the directory builder of [builder.py], embedded and verified

    The development follows [src/builder.py]:
    - Python [str] values are [string]s whose characters are code points
      below 256; [int] is [Z]; [float] is IEEE binary64, given by
      [spec_float] at precision 53 and maximal exponent 1024;
    - exceptions are a [result] type, file-system effects a state and
      error monad over an explicit store of files and directories;
    - the two regular expressions of [find_potcar] are run by a
      backtracking matcher with Python's greedy, leftmost semantics. *)

From Stdlib Require Import ZArith List String Ascii Bool Lia.
From Stdlib Require Import Decimal DecimalString DecimalPos DecimalZ.
From Stdlib Require Import Floats.SpecFloat.
From stdpp Require Import base option list gmap strings.

Import ListNotations.
Local Open Scope string_scope.
Local Open Scope Z_scope.

(** ** Exceptions and results *)

Inductive exn : Type :=
| ValueError (msg : string)
| FileNotFoundError (msg : string)
| OverflowError (msg : string)
| IndexError (msg : string)
| KeyError (msg : string)
| FileExistsError (msg : string)
| IsADirectoryError (msg : string)
| NotADirectoryError (msg : string)
| PermissionError (msg : string).

Inductive result (A : Type) : Type :=
| Ok (a : A)
| Raise (e : exn).
Arguments Ok {A} a.
Arguments Raise {A} e.

Definition rbind {A B} (r : result A) (f : A -> result B) : result B :=
  match r with
  | Ok a => f a
  | Raise e => Raise e
  end.

Fixpoint rmap {A B} (f : A -> result B) (l : list A) : result (list B) :=
  match l with
  | [] => Ok []
  | x :: l' =>
      rbind (f x) (fun y => rbind (rmap f l') (fun ys => Ok (y :: ys)))
  end.

(** ** Python strings *)

Module Str.

Definition LF : ascii := "010"%char.
Definition CR : ascii := "013"%char.
Definition nl : string := String LF EmptyString.

(** [str.isspace] on one character, for code points below 256. *)
Definition isspace (c : ascii) : bool :=
  let n := nat_of_ascii c in
  ((9 <=? n) && (n <=? 13) || (28 <=? n) && (n <=? 32) || (n =? 133) || (n =? 160))%nat.

(** The line boundaries of [str.splitlines], for code points below 256. *)
Definition islinebreak (c : ascii) : bool :=
  let n := nat_of_ascii c in
  ((10 <=? n) && (n <=? 13) || (28 <=? n) && (n <=? 30) || (n =? 133))%nat.

Definition isdigit (c : ascii) : bool :=
  let n := nat_of_ascii c in ((48 <=? n) && (n <=? 57))%nat.

Fixpoint startswith (s p : string) : bool :=
  match p, s with
  | EmptyString, _ => true
  | String a p', String b s' => Ascii.eqb a b && startswith s' p'
  | String _ _, EmptyString => false
  end.

(** [s.splitlines(True)]: the lines with their terminators kept; a
    carriage return followed by a line feed is one terminator. *)
Fixpoint splitlines (s : string) : list string :=
  match s with
  | EmptyString => []
  | String c rest =>
      if islinebreak c then
        match rest with
        | String c' rest' =>
            if Ascii.eqb c CR && Ascii.eqb c' LF
            then String c (String c' EmptyString) :: splitlines rest'
            else String c EmptyString :: splitlines rest
        | EmptyString => [String c EmptyString]
        end
      else
        match splitlines rest with
        | [] => [String c EmptyString]
        | l :: ls => String c l :: ls
        end
  end.

(** [sep.join(parts)] and the plain concatenation [str().join(parts)]. *)
Fixpoint join (sep : string) (parts : list string) : string :=
  match parts with
  | [] => EmptyString
  | [p] => p
  | p :: ps => p ++ sep ++ join sep ps
  end.

Definition cat (parts : list string) : string :=
  fold_right String.append EmptyString parts.

Fixpoint lstrip (s : string) : string :=
  match s with
  | EmptyString => EmptyString
  | String c s' => if isspace c then lstrip s' else s
  end.

Fixpoint rstrip (s : string) : string :=
  match s with
  | EmptyString => EmptyString
  | String c s' =>
      match rstrip s' with
      | EmptyString => if isspace c then EmptyString else String c EmptyString
      | r => String c r
      end
  end.

Definition strip (s : string) : string := rstrip (lstrip s).

(** [s.split()]: the maximal runs of characters that are not white space. *)
Fixpoint split (s : string) : list string :=
  match s with
  | EmptyString => []
  | String c s' =>
      if isspace c then split s'
      else
        match s' with
        | EmptyString => [String c EmptyString]
        | String c' _ =>
            if isspace c' then String c EmptyString :: split s'
            else
              match split s' with
              | [] => [String c EmptyString]
              | t :: ts => String c t :: ts
              end
        end
  end.

(** [s.split(sep, 1)] for a separator of one character. *)
Fixpoint split1 (sep : ascii) (s : string) : list string :=
  match s with
  | EmptyString => [EmptyString]
  | String c s' =>
      if Ascii.eqb c sep then [EmptyString; s']
      else
        match split1 sep s' with
        | h :: t => String c h :: t
        | [] => []
        end
  end.

(** Subscripting a list: [l[i]], an [IndexError] out of range. *)
Definition index {A} (l : list A) (i : nat) : result A :=
  match nth_error l i with
  | Some x => Ok x
  | None => Raise (IndexError "list index out of range")
  end.

End Str.

(** ** Python integers and their decimal text *)

Module PyInt.

(** [str(n)]. *)
Definition str (n : Z) : string := NilZero.string_of_int (Z.to_int n).

(** The digits of an [int] literal: decimal digits, with single
    underscores allowed between two digits. *)
Fixpoint digits (s : string) : option uint :=
  match s with
  | EmptyString => Some Nil
  | String c s' =>
      if Ascii.eqb c "_" then
        match s' with
        | String c' _ => if Str.isdigit c' then digits s' else None
        | EmptyString => None
        end
      else uint_of_char c (digits s')
  end.

Definition unsigned (s : string) : option Z :=
  match s with
  | String c _ =>
      if Str.isdigit c then option_map Z.of_uint (digits s) else None
  | EmptyString => None
  end.

(** [int(s)] in base ten, after the surrounding white space is removed. *)
Definition parse (s : string) : option Z :=
  match Str.strip s with
  | String c s' =>
      if Ascii.eqb c "-" then option_map Z.opp (unsigned s')
      else if Ascii.eqb c "+" then unsigned s'
      else unsigned (String c s')
  | EmptyString => None
  end.

Definition int (s : string) : result Z :=
  match parse s with
  | Some n => Ok n
  | None => Raise (ValueError ("invalid literal for int() with base 10: " ++ s))
  end.

End PyInt.

(** ** The in-place scaler [adjust_input_dat], on the text of the file *)

Definition adjust_line (multiplier : Z) (line : string) : result string :=
  if Str.startswith line "SystemName = " then
    rbind (Str.index (Str.split1 "=" line) 1) (fun v =>
    let system_name := Str.strip v in
    Ok ("SystemName = " ++ system_name ++ PyInt.str multiplier ++ Str.nl))
  else if Str.startswith line "NumberOfAtoms = " then
    rbind (Str.index (Str.split1 "=" line) 1) (fun v =>
    let atoms := Str.split (Str.strip v) in
    rbind (rmap (fun atom => rbind (PyInt.int atom) (fun n =>
                               Ok (PyInt.str (n * multiplier)))) atoms)
          (fun scaled =>
    Ok ("NumberOfAtoms = " ++ Str.join " " scaled ++ Str.nl)))
  else Ok line.

Definition adjust_text (multiplier : Z) (text : string) : result string :=
  rbind (rmap (adjust_line multiplier) (Str.splitlines text)) (fun new_content =>
  Ok (Str.cat new_content)).

(** ** Python floats: IEEE binary64 *)

Module F64.

Definition prec : Z := 53.
Definition emax : Z := 1024.
Definition float : Type := spec_float.

Definition add : float -> float -> float := SFadd prec emax.
Definition sub : float -> float -> float := SFsub prec emax.
Definition mul : float -> float -> float := SFmul prec emax.
Definition div : float -> float -> float := SFdiv prec emax.
Definition ltb : float -> float -> bool := SFltb.
Definition abs : float -> float := SFabs.
Definition valid (x : float) : bool := valid_binary prec emax x.

Definition is_finite (x : float) : bool :=
  match x with
  | S754_zero _ | S754_finite _ _ _ => true
  | S754_infinity _ | S754_nan => false
  end.

Definition is_nan (x : float) : bool :=
  match x with
  | S754_nan => true
  | _ => false
  end.

(** The float nearest to an integer, and [float(n)], which refuses an
    integer beyond the largest float. *)
Definition of_Z (n : Z) : float := binary_normalize prec emax n 0 false.

Definition of_int (n : Z) : result float :=
  match of_Z n with
  | S754_infinity _ => Raise (OverflowError "int too large to convert to float")
  | x => Ok x
  end.

(** The float nearest to a quotient of integers: the value of a decimal
    literal [num / den], correctly rounded (ties to even). *)
Definition of_ratio (s : bool) (num : N) (den : positive) : float :=
  match num with
  | N0 => S754_zero s
  | Npos n => div (S754_finite s n 0) (S754_finite false den 0)
  end.

(** The constants of the source. *)
Definition zero : float := S754_zero false.
Definition c10_0 : float := of_ratio false 10 1.
Definition c0_6 : float := of_ratio false 6 10.
Definition c0_1 : float := of_ratio false 1 10.
Definition c1e_9 : float := of_ratio false 1 (10 ^ 9).
(** [math.pi] is the double 0x400921FB54442D18. *)
Definition pi : float := S754_finite false 7074237752028440 (-51).

(** [round(x)] with one argument: the nearest integer, ties to even. *)
Definition round_half_even (num : Z) (den : positive) : Z :=
  let q := num / Zpos den in
  let r := num mod Zpos den in
  match 2 * r ?= Zpos den with
  | Lt => q
  | Gt => q + 1
  | Eq => if Z.even q then q else q + 1
  end.

(** A finite non-zero magnitude [m * 2^e] as an exact fraction. *)
Definition to_ratio (m : positive) (e : Z) : positive * positive :=
  match e with
  | Zneg k => (m, Pos.pow 2 k)
  | Z0 => (m, 1%positive)
  | Zpos k => ((m * Pos.pow 2 k)%positive, 1%positive)
  end.

Definition round (x : float) : result Z :=
  match x with
  | S754_zero _ => Ok 0
  | S754_nan => Raise (ValueError "cannot convert float NaN to integer")
  | S754_infinity _ => Raise (OverflowError "cannot convert float infinity to integer")
  | S754_finite s m e =>
      let '(n, d) := to_ratio m e in
      Ok (cond_Zopp s (round_half_even (Zpos n) d))
  end.

(** [min(a, b)] and [min(values)]: the first of the smallest items. *)
Definition min2 (a b : float) : float := if ltb b a then b else a.

Definition min_list (first : float) (others : list float) : float :=
  fold_left min2 others first.

End F64.

(** ** Reading a float from decimal text *)

Module PyFloat.

Fixpoint digit_run (s : string) : string * string :=
  match s with
  | String c s' =>
      if Str.isdigit c then
        let '(ds, rest) := digit_run s' in (String c ds, rest)
      else (EmptyString, s)
  | EmptyString => (EmptyString, EmptyString)
  end.

Definition pow10 (k : nat) : positive := Nat.iter k (Pos.mul 10) 1%positive.

Definition digits_value (ds : string) : N :=
  match NilEmpty.uint_of_string ds with
  | Some u => N.of_uint u
  | None => 0%N
  end.

(** [float(s)] on the decimal literals that the radius pattern can
    capture: an optional sign, digits, and an optional point followed
    by digits; the value is rounded correctly.  Exponents, [inf],
    [nan] and underscores cannot reach this function from
    [find_potcar]; the model refuses them. *)
Definition parse (s : string) : result F64.float :=
  let body := Str.strip s in
  let '(sign, body) :=
    match body with
    | String c s' =>
        if Ascii.eqb c "-" then (true, s')
        else if Ascii.eqb c "+" then (false, s')
        else (false, body)
    | EmptyString => (false, body)
    end in
  let '(ip, rest) := digit_run body in
  let '(fp, rest) :=
    match rest with
    | String c r => if Ascii.eqb c "." then digit_run r else (EmptyString, rest)
    | EmptyString => (EmptyString, rest)
    end in
  match rest, ip ++ fp with
  | EmptyString, String _ _ =>
      Ok (F64.of_ratio sign (digits_value (ip ++ fp)) (pow10 (String.length fp)))
  | _, _ => Raise (ValueError ("could not convert string to float: " ++ s))
  end.

End PyFloat.

(** ** Decimal text of floats: the formats [.6f] and [.6g] *)

Module Fmt.

Definition dec (n : Z) : string := NilZero.string_of_uint (N.to_uint (Z.to_N n)).

Fixpoint zeros (k : nat) : string :=
  match k with
  | O => EmptyString
  | S k' => String "0" (zeros k')
  end.

(** Right-justified in [width] columns, filled with zeros. *)
Definition zfill (width : nat) (s : string) : string :=
  zeros (width - String.length s) ++ s.

(** Without the zeros at the end. *)
Fixpoint rstrip0 (s : string) : string :=
  match s with
  | EmptyString => EmptyString
  | String c s' =>
      match rstrip0 s' with
      | EmptyString => if Ascii.eqb c "0" then EmptyString else String c EmptyString
      | r => String c r
      end
  end.

Definition sign_text (s : bool) : string := if s then "-" else EmptyString.

Definition special (x : F64.float) : option string :=
  match x with
  | S754_nan => Some "nan"
  | S754_infinity s => Some (sign_text s ++ "inf")
  | _ => None
  end.

(** [format(x, '.6f')]: six digits after the point, correctly rounded. *)
Definition fixed6 (x : F64.float) : string :=
  match x with
  | S754_nan => "nan"
  | S754_infinity s => sign_text s ++ "inf"
  | S754_zero s => sign_text s ++ "0.000000"
  | S754_finite s m e =>
      let '(n, d) := F64.to_ratio m e in
      let q := F64.round_half_even (Zpos n * 10 ^ 6) d in
      sign_text s ++ dec (q / 10 ^ 6) ++ "." ++ zfill 6 (dec (q mod 10 ^ 6))
  end.

(** Scaling of a fraction [n / d] into the range of the integers of
    [p] digits: [exp10] counts the powers of ten taken out. *)
Fixpoint scale_down (fuel : nat) (hi : positive) (n d : positive) (exp10 : Z)
    : positive * positive * Z :=
  match fuel with
  | O => (n, d, exp10)
  | S fuel' =>
      if (hi * d <=? n)%positive
      then scale_down fuel' hi n (10 * d) (exp10 + 1)
      else (n, d, exp10)
  end.

Fixpoint scale_up (fuel : nat) (lo : positive) (n d : positive) (exp10 : Z)
    : positive * positive * Z :=
  match fuel with
  | O => (n, d, exp10)
  | S fuel' =>
      if (n <? lo * d)%positive
      then scale_up fuel' lo (10 * n) d (exp10 - 1)
      else (n, d, exp10)
  end.

(** [p] significant digits, [p >= 1]: the integer [q] with
    [10^(p-1) <= q < 10^p] and the decimal exponent [X] such that
    [q * 10^(X-p+1)] is the decimal of [p] digits nearest to [n / d]
    (ties to even). *)
Definition round_sig (p : nat) (n d : positive) : Z * Z :=
  let lo := PyFloat.pow10 (p - 1) in
  let hi := PyFloat.pow10 p in
  let '(n1, d1, x1) := scale_down (Pos.size_nat n) hi n d (Z.of_nat p - 1) in
  let '(n2, d2, x2) := scale_up (Pos.size_nat d1 + 4 * p) lo n1 d1 x1 in
  let q := F64.round_half_even (Zpos n2) d2 in
  if q =? Zpos hi then (Zpos lo, x2 + 1) else (q, x2).

Definition substring_from (k : nat) (s : string) : string :=
  String.substring k (String.length s - k) s.

Definition exponent_text (x : Z) : string :=
  (if x <? 0 then "-" else "+") ++ zfill 2 (dec (Z.abs x)).

(** The text of the six digits [ds] at decimal exponent [x], in the
    style of [g]: positional when [-4 <= x < 6], otherwise with an
    exponent; zeros at the end of the fraction are dropped. *)
Definition general_text (ds : string) (x : Z) : string :=
  if (-4 <=? x) && (x <? 6) then
    if 0 <=? x then
      let k := S (Z.to_nat x) in
      let frac := rstrip0 (substring_from k ds) in
      String.substring 0 k ds ++
      match frac with
      | EmptyString => EmptyString
      | _ => "." ++ frac
      end
    else "0." ++ zeros (Z.to_nat (- x - 1)) ++ rstrip0 ds
  else
    let frac := rstrip0 (substring_from 1 ds) in
    String.substring 0 1 ds ++
    match frac with
    | EmptyString => EmptyString
    | _ => "." ++ frac
    end ++ "e" ++ exponent_text x.

(** [format(x, '.6g')]. *)
Definition general6 (x : F64.float) : string :=
  match x with
  | S754_nan => "nan"
  | S754_infinity s => sign_text s ++ "inf"
  | S754_zero s => sign_text s ++ "0"
  | S754_finite s m e =>
      let '(n, d) := F64.to_ratio m e in
      let '(q, x10) := round_sig 6 n d in
      sign_text s ++ general_text (dec q) x10
  end.

(** Whether the decimal [q * 10^k] reads back as the float of sign
    [s], mantissa [m] and exponent [e]. *)
Definition reads_back (s : bool) (m : positive) (e : Z) (q k : Z) : bool :=
  let y :=
    match k with
    | Zneg j => F64.of_ratio s (Z.to_N q) (Pos.pow 10 j)
    | _ => F64.of_ratio s (Z.to_N (q * 10 ^ k)) 1
    end in
  match y with
  | S754_finite s' m' e' => Bool.eqb s s' && Pos.eqb m m' && Z.eqb e e'
  | _ => false
  end.

Fixpoint shortest (fuel p : nat) (s : bool) (m : positive) (e : Z) : Z * Z * nat :=
  let '(n, d) := F64.to_ratio m e in
  let '(q, x) := round_sig p n d in
  match fuel with
  | O => (q, x, p)
  | S fuel' =>
      if reads_back s m e q (x - Z.of_nat p + 1) then (q, x, p)
      else shortest fuel' (S p) s m e
  end.

Definition repr_text (ds : string) (p : nat) (x : Z) : string :=
  if (-4 <=? x) && (x <? 16) then
    if 0 <=? x then
      let k := S (Z.to_nat x) in
      if (p <=? k)%nat then ds ++ zeros (k - p) ++ ".0"
      else String.substring 0 k ds ++ "." ++ substring_from k ds
    else "0." ++ zeros (Z.to_nat (- x - 1)) ++ ds
  else
    String.substring 0 1 ds ++
    match substring_from 1 ds with
    | EmptyString => EmptyString
    | frac => "." ++ frac
    end ++ "e" ++ exponent_text x.

(** A reference for [repr(x)]: the nearest decimal of the fewest
    significant digits, at most seventeen, that reads back as [x]. *)
Definition repr (x : F64.float) : string :=
  match x with
  | S754_nan => "nan"
  | S754_infinity s => sign_text s ++ "inf"
  | S754_zero s => sign_text s ++ "0.0"
  | S754_finite s m e =>
      let '(q, x10, p) := shortest 16 1 s m e in
      sign_text s ++ repr_text (dec q) p x10
  end.

(** The number of significant digits of a decimal text: its digits
    before any exponent, the zeros in front not counted. *)
Fixpoint mantissa_digits (s : string) : list ascii :=
  match s with
  | EmptyString => []
  | String c s' =>
      if Ascii.eqb c "e" then []
      else if Str.isdigit c then c :: mantissa_digits s'
      else mantissa_digits s'
  end.

Fixpoint drop_zeros (l : list ascii) : list ascii :=
  match l with
  | c :: l' => if Ascii.eqb c "0" then drop_zeros l' else l
  | [] => []
  end.

Definition significant_digits (s : string) : nat :=
  length (drop_zeros (mantissa_digits s)).

End Fmt.

(** ** The pressure field of the two INCAR files *)

Definition _format_pstress_kbar (pressure_gpa : F64.float) : result string :=
  let pstress_kbar := F64.mul pressure_gpa F64.c10_0 in
  if F64.ltb pstress_kbar F64.zero then
    Raise (ValueError "Pressure must be non-negative.")
  else
    rbind (F64.round pstress_kbar) (fun r =>
    rbind (F64.of_int r) (fun rf =>
    if F64.ltb (F64.abs (F64.sub pstress_kbar rf)) F64.c1e_9 then
      rbind (F64.round pstress_kbar) (fun r' => Ok (PyInt.str r'))
    else Ok (Fmt.general6 pstress_kbar))).

(** ** Regular expressions, as far as [find_potcar] uses them *)

Module Re.

(** Character classes.  Under [re.IGNORECASE] a literal letter matches
    both of its cases. *)
Inductive cls : Type :=
| Space                 (* \s *)
| Digit                 (* \d *)
| Chr (c : ascii)       (* a literal character *)
| Sign.                 (* [-+] *)

Definition lower (c : ascii) : ascii :=
  let n := nat_of_ascii c in
  if ((65 <=? n) && (n <=? 90))%nat then ascii_of_nat (n + 32) else c.

Definition cls_match (k : cls) (a : ascii) : bool :=
  match k with
  | Space => Str.isspace a
  | Digit => Str.isdigit a
  | Chr c => Ascii.eqb (lower a) (lower c)
  | Sign => Ascii.eqb a "-" || Ascii.eqb a "+"
  end.

Inductive re : Type :=
| One (k : cls)          (* one character of the class *)
| Star (k : cls)         (* k*, greedy *)
| Opt (k : cls)          (* k?, greedy *)
| Seq (r1 r2 : re)
| Group (r : re).        (* a capturing group *)

(** The text consumed between the input [s] and what is left of it. *)
Definition consumed (s rest : string) : string :=
  String.substring 0 (String.length s - String.length rest) s.

Section Matcher.
Context {A : Type}.

(** Greedy repetition: the longest run first, shorter ones on
    backtracking. *)
Fixpoint star (p : ascii -> bool) (s : string) (k : string -> option A) : option A :=
  match s with
  | String c s' =>
      if p c then
        match star p s' k with
        | Some r => Some r
        | None => k s
        end
      else k s
  | EmptyString => k s
  end.

(** The backtracking matcher: [k] receives what is left of the input
    and the groups captured so far. *)
Fixpoint run (r : re) (s : string) (caps : list string)
    (k : string -> list string -> option A) : option A :=
  match r with
  | One c =>
      match s with
      | String a s' => if cls_match c a then k s' caps else None
      | EmptyString => None
      end
  | Star c => star (cls_match c) s (fun s' => k s' caps)
  | Opt c =>
      match s with
      | String a s' =>
          if cls_match c a then
            match k s' caps with
            | Some x => Some x
            | None => k s caps
            end
          else k s caps
      | EmptyString => k s caps
      end
  | Seq r1 r2 => run r1 s caps (fun s' caps' => run r2 s' caps' k)
  | Group r1 => run r1 s caps (fun s' caps' => k s' (caps' ++ [consumed s s'])%list)
  end.
End Matcher.

(** A match at the start of [s]: its groups and the rest of the input. *)
Definition match_here (r : re) (s : string) : option (list string * string) :=
  run r s [] (fun rest caps => Some (caps, rest)).

(** [pattern.search(s)]: the groups of the leftmost match. *)
Fixpoint search (r : re) (s : string) : option (list string) :=
  match match_here r s with
  | Some (caps, _) => Some caps
  | None =>
      match s with
      | String _ s' => search r s'
      | EmptyString => None
      end
  end.

(** [pattern.findall(s)] for a pattern with one group: the group of
    every match, the matches found from left to right without overlap.
    [skip] counts the characters still covered by the last match. *)
Fixpoint findall_from (r : re) (skip : nat) (s : string) : list string :=
  match skip with
  | S skip' =>
      match s with
      | String _ s' => findall_from r skip' s'
      | EmptyString => []
      end
  | O =>
      match match_here r s with
      | Some (caps, rest) =>
          let g := match caps with g :: _ => g | [] => consumed s rest end in
          match s with
          | String _ s' =>
              g :: findall_from r (String.length s - String.length rest - 1) s'
          | EmptyString => [g]
          end
      | None =>
          match s with
          | String _ s' => findall_from r O s'
          | EmptyString => []
          end
      end
  end.

Definition findall (r : re) (s : string) : list string := findall_from r O s.

Fixpoint word (w : string) : re -> re :=
  match w with
  | EmptyString => fun r => r
  | String c w' => fun r => Seq (One (Chr c)) (word w' r)
  end.

(** The number [[-+]?\d*\.?\d+], captured as a group. *)
Definition number : re :=
  Group (Seq (Opt Sign) (Seq (Star Digit) (Seq (Opt (Chr ".")) (Seq (One Digit) (Star Digit))))).

(** [RWIGS\s*=\s*([-+]?\d*\.?\d+)] *)
Definition single_re : re :=
  word "RWIGS" (Seq (Star Space) (Seq (One (Chr "=")) (Seq (Star Space) number))).

(** [RWIGS\s*=\s*([-+]?\d*\.?\d+)\s*;\s*RWIGS\s*=\s*([-+]?\d*\.?\d+)] *)
Definition pair_re : re :=
  Seq single_re (Seq (Star Space) (Seq (One (Chr ";")) (Seq (Star Space) single_re))).

End Re.

(** ** Dictionaries with string keys, in insertion order *)

Module Dict.

Abbreviation t V := (list (string * V)) (only parsing).

Definition keys {V} (d : t V) : list string := map fst d.

Fixpoint get {V} (d : t V) (k : string) : option V :=
  match d with
  | [] => None
  | (k', v) :: d' => if String.eqb k k' then Some v else get d' k
  end.

(** [d[k]]. *)
Definition item {V} (d : t V) (k : string) : result V :=
  match get d k with
  | Some v => Ok v
  | None => Raise (KeyError k)
  end.

(** [d[k] = v]: a key already present keeps its place. *)
Fixpoint set {V} (d : t V) (k : string) (v : V) : t V :=
  match d with
  | [] => [(k, v)]
  | (k', v') :: d' =>
      if String.eqb k k' then (k, v) :: d' else (k', v') :: set d' k v
  end.

End Dict.

(** ** The file system and the console *)

Abbreviation path := (list string).

Module Path.

(** [str(p)] of an absolute path. *)
Definition str (p : path) : string :=
  match p with
  | [] => "/"
  | _ => Str.cat (map (fun c => "/" ++ c) p)
  end.

Definition parent (p : path) : path := removelast p.
Definition name (p : path) : string := List.last p EmptyString.

(** All the directories on the way to [p], [p] included. *)
Fixpoint parents (p : path) : list path :=
  match p with
  | [] => [[]]
  | c :: p' => [] :: map (cons c) (parents p')
  end.

Fixpoint child_of (root p : path) : option string :=
  match root, p with
  | [], [c] => Some c
  | a :: root', b :: p' => if String.eqb a b then child_of root' p' else None
  | _, _ => None
  end.

End Path.

Record world : Type := World {
  files : gmap path string;      (* the regular files and their content *)
  dirs : gset path;              (* the directories *)
  undeletable : gset path;       (* files that may not be removed *)
  stdout : list string           (* what was printed, oldest first *)
}.

Definition io (A : Type) : Type := world -> result A * world.

#[export] Instance io_ret : MRet io := fun A a w => (Ok a, w).
#[export] Instance io_bind : MBind io := fun A B f m w =>
  match m w with
  | (Ok a, w') => f a w'
  | (Raise e, w') => (Raise e, w')
  end.

Definition raise {A} (e : exn) : io A := fun w => (Raise e, w).
Definition lift {A} (r : result A) : io A := fun w => (r, w).

(** [try: m  except Exception as exc: handler(exc)]. *)
Definition try_except {A} (m : io A) (handler : exn -> io A) : io A := fun w =>
  match m w with
  | (Ok a, w') => (Ok a, w')
  | (Raise e, w') => handler e w'
  end.

Fixpoint for_each {A S} (body : S -> A -> io S) (l : list A) (s : S) : io S :=
  match l with
  | [] => mret s
  | x :: l' => s' ← body s x; for_each body l' s'
  end.

(** [str(exc)]: the message of an exception that the program
    raises.  Of an error of the operating system the argument is the
    name of the file; the text that the system gives to such an error
    is not modelled, and the theorems leave it open. *)
Definition exn_text (e : exn) : string :=
  match e with
  | ValueError m | FileNotFoundError m | OverflowError m | IndexError m
  | KeyError m | FileExistsError m | IsADirectoryError m
  | NotADirectoryError m | PermissionError m => m
  end.

Module Fs.

Definition is_file (w : world) (p : path) : bool := bool_decide (is_Some (files w !! p)).
Definition is_dir (w : world) (p : path) : bool := bool_decide (p ∈ dirs w).

Definition print (line : string) : io unit := fun w =>
  (Ok tt, World (files w) (dirs w) (undeletable w) (stdout w ++ [line])%list).

(** [p.mkdir(parents=True, exist_ok=True)]. *)
Definition mkdir_p (p : path) : io unit := fun w =>
  if is_file w p then (Raise (FileExistsError (Path.str p)), w)
  else
    match List.find (is_file w) (Path.parents p) with
    | Some q => (Raise (NotADirectoryError (Path.str p)), w)
    | None =>
        (Ok tt, World (files w) (dirs w ∪ list_to_set (Path.parents p))
                      (undeletable w) (stdout w))
    end.

(** Opening [p] for writing and storing [data]. *)
Definition write (p : path) (data : string) : io unit := fun w =>
  if is_dir w p then (Raise (IsADirectoryError (Path.str p)), w)
  else if is_dir w (Path.parent p) then
    (Ok tt, World (<[p := data]> (files w)) (dirs w) (undeletable w) (stdout w))
  else if is_file w (Path.parent p) then (Raise (NotADirectoryError (Path.str p)), w)
  else (Raise (FileNotFoundError (Path.str p)), w).

(** Text files are read with universal newlines: a carriage return,
    alone or before a line feed, is read as a line feed. *)
Fixpoint universal_newlines (s : string) : string :=
  match s with
  | EmptyString => EmptyString
  | String c rest =>
      if Ascii.eqb c Str.CR then
        String Str.LF
          match rest with
          | String c' rest' =>
              if Ascii.eqb c' Str.LF then universal_newlines rest'
              else universal_newlines rest
          | EmptyString => EmptyString
          end
      else String c (universal_newlines rest)
  end.

(** [p.read_text()].  The content of a file is taken for its text,
    which it is for a file of ASCII characters; the theorems that turn
    on the characters of a text that is read assume such a file. *)
Definition read_text (p : path) : io string := fun w =>
  match files w !! p with
  | Some data => (Ok (universal_newlines data), w)
  | None =>
      if is_dir w p then (Raise (IsADirectoryError (Path.str p)), w)
      else (Raise (FileNotFoundError (Path.str p)), w)
  end.

(** [p.write_text(data)]; the line separator of the platform is the
    line feed. *)
Definition write_text (p : path) (data : string) : io unit := write p data.

(** [{entry.name for entry in root.iterdir() if entry.is_dir()}]. *)
Definition subdir_names (root : path) : io (gset string) := fun w =>
  if is_dir w root then
    (Ok (list_to_set (omap (Path.child_of root) (elements (dirs w)))), w)
  else if is_file w root then (Raise (NotADirectoryError (Path.str root)), w)
  else (Raise (FileNotFoundError (Path.str root)), w).

(** [shutil.copy(src, dst)]: the bytes of [src], under the name of
    [src] when [dst] is a directory. *)
Definition copy (src dst : path) : io unit := fun w =>
  match files w !! src with
  | Some data =>
      write (if is_dir w dst then dst ++ [Path.name src] else dst)%list data w
  | None =>
      if is_dir w src then (Raise (IsADirectoryError (Path.str src)), w)
      else (Raise (FileNotFoundError (Path.str src)), w)
  end.

(** [p.unlink()]. *)
Definition unlink (p : path) : io unit := fun w =>
  match files w !! p with
  | Some _ =>
      if bool_decide (p ∈ undeletable w) then (Raise (PermissionError (Path.str p)), w)
      else (Ok tt, World (delete p (files w)) (dirs w) (undeletable w) (stdout w))
  | None =>
      if is_dir w p then (Raise (IsADirectoryError (Path.str p)), w)
      else (Raise (FileNotFoundError (Path.str p)), w)
  end.

End Fs.

(** ** The fixed texts of the generated files *)

Module Template.

(** The double quote, and the non-breaking hyphen U+2011 of the job
    script, which appears in the literals below in the bytes of its
    UTF-8 encoding, as [write_text] stores it. *)
Definition dq : string := String "034"%char EmptyString.

Definition incar_1_content (pstress_kbar_str : string) : string :=
  "SYSTEM = opt
PREC = Accurate
ENCUT = 300
KSPACING = 0.5
EDIFF = 1e-4
EDIFFG = -0.1
IBRION = 2
ISIF = 3
NSW = 60
ISTART = 0
ICHARG = 2
ISMEAR = 1
SIGMA = 0.05
LREAL = Auto
LCHARG = .F.
LWAVE = .F.
POTIM = 0.02
PSTRESS = " ++
  pstress_kbar_str.

Definition incar_2_content (pstress_kbar_str : string) : string :=
  "SYSTEM = opt
PREC = Accurate
ENCUT = 400
KSPACING = 0.25
EDIFF = 5e-5
EDIFFG = -0.03
IBRION = 2
ISIF = 3
NSW = 60
ISTART = 0
ICHARG = 2
ISMEAR = 1
SIGMA = 0.05
LREAL = Auto
LCHARG = .F.
LWAVE = .F.
POTIM = 0.02
PSTRESS = " ++
  pstress_kbar_str.

Definition calypso_fullnode_content (calypso_exec : string) : string :=
  "#!/bin/bash
#SBATCH --job-name=caly48
#SBATCH --exclude=node[1-8],gpu[1-2]
#SBATCH --partition=chem352
#SBATCH --nodes=1
#SBATCH --ntasks-per-node=48          # whole node (48 cores)
#SBATCH --cpus-per-task=1             # 1 CPU per MPI rank
#SBATCH --exclusive                   # no other *jobs* on this node
#SBATCH --output=%x_%j.out
#SBATCH --error=%x_%j.err

# ‑‑‑ safety limits -----------------------------------------------------------
ulimit -s unlimited
ulimit -c unlimited
ulimit -d unlimited

# (optional) record which host(s) we received
scontrol show hostname " ++
  dq ++
  "$SLURM_NODELIST" ++
  dq ++
  " > machinefile

# ‑‑‑ launch CALYPSO driver (single rank, I/O‑bound) --------------------------
" ++
  calypso_exec ++
  "   > caly.log 2>&1".

Definition calypso_content (calypso_exec : string) : string :=
  "#!/bin/bash
#SBATCH --job-name=calypso
#SBATCH --exclude=node[1-8],gpu[1-2]
#SBATCH --partition=week-long
#SBATCH -N 1
#SBATCH -n 24
#SBATCH --mail-type=end
#SBATCH --output=%j.out
#SBATCH --error=%j.err

ulimit -s unlimited
#ulimit -m unlimited
ulimit -c unlimited
ulimit -d unlimited

#sleep 60
##for CALYPSO6.0
" ++
  calypso_exec.

Definition submit_sh_content (vasp_exec : string) : string :=
  "#!/bin/bash
export OMP_NUM_THREADS=1
export I_MPI_PMI_LIBRARY=/usr/lib64/libpmi2.so   # drop if you switch to PMIx

srun --exact --mpi=pmi2 --ntasks=16 --cpus-per-task=1 --mem=80G --cpu-bind=cores \
        " ++
  vasp_exec ++
  " > vasp.out  2> vasp.err".

Definition two_d_parameters_text (num_layers adjusted_area delta_z layer_type_str latom_line : string) : string :=
  "
######### The Parameters For 2D Structure Prediction #############
# If True, a 2D structure prediction is performed.
2D = True
# The number of layers
MultiLayer = " ++
  num_layers ++
  "
# The Area of 2D system
Area = " ++
  adjusted_area ++
  "
# The distortion value along the C axis
DeltaZ = " ++
  delta_z ++
  "
# The gap between two layers
LayerGap=5
# The vacuum gap between the top surface of the slab and the top lattice, and between the bottom surface of the slab and the bottom lattice.
VacuumGap=20
# The number atoms for each layer
@LayerType
" ++
  layer_type_str ++
  "
@End
# Minimal distance between atoms of each chemical species. Unit is in angstrom.
" ++
  latom_line ++
  "
########################END 2D Parameters #########################
".

Definition input_content (system_name number_of_species name_of_atoms number_of_atoms distance_of_ion_str two_d_parameters : string) : string :=
  "################################ The Basic Parameters of CALYPSO ################################
# A string of one or several words contain a descriptCALYPSOive name of the system (max. 40 characters).
SystemName = " ++
  system_name ++
  "
# Number of different atomic species in the simulation.
NumberOfSpecies = " ++
  number_of_species ++
  "
# Element symbols of the different chemical species.
NameOfAtoms = " ++
  name_of_atoms ++
  "
# Number of atoms for each chemical species in one formula unit.
NumberOfAtoms = " ++
  number_of_atoms ++
  "
# The range of formula unit per cell in your simulation.
NumberOfFormula = 1 1
# The volume per formula unit. Unit is in angstrom^3.
Volume= 0
# Minimal distance between atoms of each chemical species. Unit is in angstrom.
@DistanceOfIon
" ++
  distance_of_ion_str ++
  "
@End
# It determines which algorithm should be adopted in the simulation.
Ialgo = 2
# Ialgo = 1 for Global PSO
# Ialgo = 2 for Local PSO (default value)
# The proportion of the structures generated by PSO.
PsoRatio = 0.6
# The popu2ation size. Normally, it has a larger number for larger systems.
PopSize = 40
# It determines which local optimization method should be interfaced in the simulation.
ICode = 1
# ICode= 1 interfaced with VASP
# ICode= 2 interfaced with SIESTA
# ICode= 3 interfaced with GULP
# The number of lbest for local PSO
NumberOfLbest = 4
# The Number of local optimization for each structure.
NumberOfLocalOptim = 2
# The command to perform local optimiztion calculation (e.g., VASP, SIESTA) on your computer.
Command = sh submit.sh
# The Max step for iteration
MaxStep = 50
# If True, a previous calculation will be continued.
PickUp = F
# At which step will the previous calculation be picked up.
PickStep =
MaxTime = 3600
# If True, the local optimizations performed by parallel
Parallel = T
# The number node for parallel
NumberOfParallel= 3
" ++
  two_d_parameters ++
  "
".

End Template.

(** ** The builder *)

(** Two operations of the Python runtime lie outside the source of the
    builder: [repr] of a float, the shortest decimal text that reads
    back as the same float, and the float power [x ** n] of the C
    library, which raises [OverflowError] when a finite result leaves
    the range. *)
Class Runtime : Type := {
  float_repr : F64.float -> string;
  float_pow : F64.float -> Z -> result F64.float
}.

(** A reference runtime, for running the builder on examples: the
    power by repeated multiplication, each product rounded correctly. *)
Definition reference_pow (x : F64.float) (n : Z) : result F64.float :=
  match n with
  | Zpos k =>
      let y := Pos.iter (F64.mul x) (F64.of_Z 1) k in
      if F64.is_finite x && negb (F64.is_finite y) && negb (F64.is_nan y)
      then Raise (OverflowError "(34, 'Numerical result out of range')")
      else Ok y
  | Z0 => Ok (F64.of_Z 1)
  | Zneg _ => Raise (ValueError "negative powers are not part of the reference runtime")
  end.

Definition reference_runtime : Runtime :=
  {| float_repr := Fmt.repr; float_pow := reference_pow |}.

Record SetupConfig : Type := {
  elements : list string;
  atom_counts : list Z;
  formula_multipliers : list Z;
  pressure_gpa : F64.float;
  destination : path;
  potcar_root : path;
  calypso_executable : string;
  vasp_executable : string;
  is_2d : bool;
  num_layers : Z;
  relax_z : bool;
  layer_type_matrix : option (list (list Z))
}.

Definition suffixes : list string := ["_pv"; "_sv"; EmptyString; "_s"].

(** The directory of the pseudopotential of [element]: the first
    variant, in the order of [suffixes], that is in [available_dirs]. *)
Definition select_variant (available_dirs : gset string) (element : string) : option string :=
  List.find (fun suffix => bool_decide (element ++ suffix ∈ available_dirs)) suffixes.

(** The radius chosen in the text of one POTCAR file. *)
Definition choose_rwigs (text : string) (potcar_path : path) : result F64.float :=
  match Re.search Re.pair_re text with
  | Some (g1 :: g2 :: _) =>
      rbind (PyFloat.parse g1) (fun a =>
      rbind (PyFloat.parse g2) (fun b => Ok (F64.min2 a b)))
  | Some _ => Raise (IndexError "no such group")
  | None =>
      rbind (rmap PyFloat.parse (Re.findall Re.single_re text)) (fun vals =>
      match vals with
      | [] => Raise (ValueError ("No RWIGS entry found in " ++ Path.str potcar_path))
      | v :: vs => Ok (F64.min_list v vs)
      end)
  end.

Definition find_potcar_step (root : path) (available_dirs : gset string)
    (acc : list string * Dict.t F64.float * list F64.float) (element : string)
    : io (list string * Dict.t F64.float * list F64.float) :=
  let '(potcar_content, rwigs_values, picked_rwigs) := acc in
  match select_variant available_dirs element with
  | None =>
      raise (FileNotFoundError
               ("No suitable POTCAR found for " ++ element ++ " in " ++ Path.str root))
  | Some suffix =>
      let potcar_path := (root ++ [(element ++ suffix)%string; "POTCAR"])%list in
      text ← Fs.read_text potcar_path;
      chosen ← lift (choose_rwigs text potcar_path);
      Fs.print (element ++ ": POTCAR read from " ++ Path.str potcar_path);;
      mret ((potcar_content ++ [text])%list,
            Dict.set rwigs_values element chosen,
            (picked_rwigs ++ [chosen])%list)
  end.

Definition find_potcar (elements : list string) (destination root : path)
    : io (Dict.t F64.float * option F64.float) :=
  Fs.mkdir_p destination;;
  available_dirs ← Fs.subdir_names root;
  acc ← for_each (find_potcar_step root available_dirs) elements ([], [], []);
  let '(potcar_content, rwigs_values, picked_rwigs) := acc in
  Fs.write_text (destination ++ ["POTCAR"])%list (Str.cat potcar_content);;
  mret (rwigs_values,
        match picked_rwigs with
        | [] => None
        | v :: vs => Some (F64.min_list v vs)
        end).

Definition create_incar (content : string) (directory : path) (filename : string) : io unit :=
  Fs.write_text (directory ++ [filename])%list content.

Definition create_simple_file (filename content : string) (directory : path) : io unit :=
  Fs.write_text (directory ++ [filename])%list content.

Definition calculate_distance_of_ion (rwigs_values : Dict.t F64.float)
    : result (list (list F64.float)) :=
  let elements := Dict.keys rwigs_values in
  rmap (fun element_i =>
    rmap (fun element_j =>
      rbind (Dict.item rwigs_values element_i) (fun ri =>
      rbind (Dict.item rwigs_values element_j) (fun rj =>
      Ok (F64.mul (F64.add ri rj) F64.c0_6)))) elements) elements.

Section Builder.
Context `{Runtime}.

(** The fields of [input.dat] that [create_input_dat] computes from
    its arguments. *)
Definition system_name_of (elements : list string) (atom_counts : list Z) : string :=
  Str.cat (zip_with (fun el count => el ++ PyInt.str count) elements atom_counts).

Definition name_of_atoms_of (elements : list string) : string := Str.join " " elements.

Definition number_of_atoms_of (atom_counts : list Z) : string :=
  Str.join " " (map PyInt.str atom_counts).

Definition distance_of_ion_str_of (matrix : list (list F64.float)) : string :=
  Str.join Str.nl (map (fun row => Str.join " " (map Fmt.fixed6 row)) matrix).

Definition layer_type_str_of (layer_type_matrix : option (list (list Z))) : string :=
  match layer_type_matrix with
  | Some (layer :: layers) =>
      Str.join Str.nl (map (fun l => Str.join " " (map PyInt.str l)) (layer :: layers))
  | _ => EmptyString
  end.

(** The block of the 2D parameters: empty unless [is_2d]; a
    [ValueError] when [is_2d] is set and no area is given. *)
Definition two_d_parameters_of (is_2d : bool) (num_layers : Z) (relax_z : bool)
    (base_area : option F64.float) (min_latom_dis : option F64.float)
    (layer_type_str : string) (formula_value : Z) : result string :=
  if is_2d then
    match base_area with
    | None => Raise (ValueError "base_area must be provided for 2D calculations")
    | Some area =>
        rbind (F64.of_int formula_value) (fun fv =>
        let adjusted_area := F64.mul area fv in
        let delta_z := if relax_z then F64.c0_1 else F64.zero in
        let latom_line :=
          match min_latom_dis with
          | Some r => "LAtom_Dis = " ++ float_repr r
          | None => EmptyString
          end in
        Ok (Template.two_d_parameters_text (PyInt.str num_layers)
              (float_repr adjusted_area) (float_repr delta_z)
              layer_type_str latom_line))
    end
  else Ok EmptyString.

Definition create_input_dat (directory : path) (elements : list string)
    (atom_counts : list Z) (distance_of_ion_matrix : list (list F64.float))
    (min_latom_dis : option F64.float) (is_2d : bool) (num_layers : Z)
    (relax_z : bool) (base_area : option F64.float)
    (layer_type_matrix : option (list (list Z))) (formula_value : Z) : io unit :=
  Fs.mkdir_p directory;;
  let system_name := system_name_of elements atom_counts in
  let name_of_atoms := name_of_atoms_of elements in
  let number_of_atoms := number_of_atoms_of atom_counts in
  let distance_of_ion_str := distance_of_ion_str_of distance_of_ion_matrix in
  let layer_type_str := layer_type_str_of layer_type_matrix in
  two_d_parameters ← lift (two_d_parameters_of is_2d num_layers relax_z base_area
                             min_latom_dis layer_type_str formula_value);
  let input_content :=
    Template.input_content system_name (PyInt.str (Z.of_nat (length elements)))
      name_of_atoms number_of_atoms distance_of_ion_str two_d_parameters in
  Fs.write_text (directory ++ ["input.dat"])%list input_content.

Definition adjust_input_dat (file_path : path) (multiplier : Z) : io unit :=
  text ← Fs.read_text file_path;
  new_content ← lift (adjust_text multiplier text);
  Fs.write_text file_path new_content.

(** [max(d, key=d.get)]: the first key whose value no later value
    exceeds. *)
Definition max_key (d : Dict.t F64.float) : result string :=
  match d with
  | [] => Raise (ValueError "max() arg is an empty sequence")
  | (k, v) :: d' =>
      Ok (fst (fold_left (fun best kv =>
                 if F64.ltb (snd best) (snd kv) then kv else best) d' (k, v)))
  end.

(** [l.index(x)]. *)
Fixpoint list_index (l : list string) (x : string) : result nat :=
  match l with
  | [] => Raise (ValueError (x ++ " is not in list"))
  | y :: l' => if String.eqb y x then Ok O else rbind (list_index l' x) (fun i => Ok (S i))
  end.

Definition base_area_of (config : SetupConfig) (rwigs_values : Dict.t F64.float)
    : result (option F64.float) :=
  if is_2d config then
    rbind (max_key rwigs_values) (fun element_with_largest_rwigs =>
    rbind (Dict.item rwigs_values element_with_largest_rwigs) (fun largest_rwigs_value =>
    rbind (list_index (elements config) element_with_largest_rwigs) (fun i =>
    rbind (Str.index (atom_counts config) i) (fun count_of_element =>
    rbind (F64.of_int count_of_element) (fun c =>
    rbind (float_pow largest_rwigs_value 2) (fun sq =>
    Ok (Some (F64.mul (F64.mul c F64.pi) sq))))))))
  else Ok None.

Definition calypso_fullnode_script : string := "calypso_fullnode.sh".
Definition calypso_script : string := "calypso.sh".

Definition files_to_copy : list string :=
  ["INCAR_1"; "INCAR_2"; "POTCAR"; calypso_fullnode_script; calypso_script; "submit.sh"].

Definition scale_counts (formula_value : Z) (counts : list Z) : list Z :=
  map (fun count => count * formula_value) counts.

Definition adjusted_layer_type_matrix_of (config : SetupConfig) (formula_value : Z)
    : option (list (list Z)) :=
  match is_2d config, layer_type_matrix config with
  | true, Some (layer :: layers) =>
      Some (map (scale_counts formula_value) (layer :: layers))
  | _, _ => None
  end.

(** One turn of the loop over the formula multipliers. *)
Definition setup_directory (config : SetupConfig) (destination : path)
    (distance_of_ion_matrix : list (list F64.float))
    (min_latom_dis base_area : option F64.float)
    (created_directories : list path) (formula_value : Z) : io (list path) :=
  let new_dir_path := (destination ++ [PyInt.str formula_value])%list in
  Fs.mkdir_p new_dir_path;;
  let adjusted_atom_counts := scale_counts formula_value (atom_counts config) in
  let adjusted_layer_type_matrix := adjusted_layer_type_matrix_of config formula_value in
  create_input_dat new_dir_path (elements config) adjusted_atom_counts
    distance_of_ion_matrix min_latom_dis (is_2d config) (num_layers config)
    (relax_z config) base_area adjusted_layer_type_matrix formula_value;;
  for_each (fun _ file_name =>
              Fs.copy (destination ++ [file_name])%list (new_dir_path ++ [file_name])%list)
           files_to_copy tt;;
  Fs.print ("Set up directory " ++ Path.str new_dir_path);;
  mret (created_directories ++ [new_dir_path])%list.

Definition remove_shared (destination : path) (_ : unit) (file_name : string) : io unit :=
  try_except (Fs.unlink (destination ++ [file_name])%list)
    (fun exc => Fs.print ("Error occurred while deleting " ++
                          Path.str (destination ++ [file_name])%list ++ ": " ++ exn_text exc)).

Definition setup_calypso (config : SetupConfig) : io (list path) :=
  let destination := destination config in
  Fs.mkdir_p destination;;
  '(rwigs_values, min_latom_dis) ← find_potcar (elements config) destination (potcar_root config);
  pstress_kbar_str ← lift (_format_pstress_kbar (pressure_gpa config));
  create_incar (Template.incar_1_content pstress_kbar_str) destination "INCAR_1";;
  create_incar (Template.incar_2_content pstress_kbar_str) destination "INCAR_2";;
  let calypso_exec := calypso_executable config in
  let vasp_exec := vasp_executable config in
  create_simple_file calypso_fullnode_script
    (Template.calypso_fullnode_content calypso_exec) destination;;
  create_simple_file calypso_script (Template.calypso_content calypso_exec) destination;;
  create_simple_file "submit.sh" (Template.submit_sh_content vasp_exec) destination;;
  distance_of_ion_matrix ← lift (calculate_distance_of_ion rwigs_values);
  base_area ← lift (base_area_of config rwigs_values);
  created_directories ←
    for_each (setup_directory config destination distance_of_ion_matrix
                min_latom_dis base_area)
             (formula_multipliers config) [];
  for_each (remove_shared destination) files_to_copy tt;;
  mret created_directories.

End Builder.

(** * The prompts of [cli.py] *)

(** The lines of the input and the texts that are written are strings
    of code points below 256, and [int] is [PyInt.int]: the integers
    of Python, without the limit that the interpreter can set on the
    digits of a conversion. *)

(** ** The console *)

Record console : Type := Console {
  pending : list string;     (* the lines that [input] is still to read *)
  shown : list string        (* what was written, oldest first *)
}.

(** How a prompt ends when it does not return: the input is at its
    end, an exception that nothing catches, or [SystemExit]. *)
Inductive stop : Type :=
| EOFError
| Uncaught (e : exn)
| SystemExit (msg : string).

Inductive outcome (A : Type) : Type :=
| Returned (a : A)
| Stopped (s : stop).

Arguments Returned {A} a.
Arguments Stopped {A} s.

Definition cli (A : Type) : Type := console -> outcome A * console.

#[export] Instance cli_ret : MRet cli := fun A a c => (Returned a, c).
#[export] Instance cli_bind : MBind cli := fun A B f m c =>
  match m c with
  | (Returned a, c') => f a c'
  | (Stopped s, c') => (Stopped s, c')
  end.

Module Cli.

(** [input(prompt)]: the prompt is written, then one line is read,
    without its line feed; [EOFError] when no line is left. *)
Definition input (prompt : string) : cli string := fun c =>
  match pending c with
  | line :: rest => (Returned line, Console rest (shown c ++ [prompt]))
  | [] => (Stopped EOFError, Console [] (shown c ++ [prompt]))
  end.

(** [print(text)]: the text and a line feed. *)
Definition print (text : string) : cli unit := fun c =>
  (Returned tt, Console (pending c) (shown c ++ [text ++ Str.nl])).

(** A result whose exception nothing catches. *)
Definition uncaught {A} (r : result A) : cli A := fun c =>
  match r with
  | Ok a => (Returned a, c)
  | Raise e => (Stopped (Uncaught e), c)
  end.

(** [raise SystemExit(msg)]. *)
Definition exit {A} (msg : string) : cli A := fun c => (Stopped (SystemExit msg), c).

Fixpoint for_each {A S} (body : S -> A -> cli S) (l : list A) (s : S) : cli S :=
  match l with
  | [] => mret s
  | x :: l' => s' ← body s x; for_each body l' s'
  end.

(** [range(start, stop)]. *)
Definition range (start stop : Z) : list Z :=
  map (fun i => start + Z.of_nat i) (seq 0 (Z.to_nat (stop - start))).

(** [str.lower] on one character and on a text, for code points
    below 256: the capital letters of ASCII and of Latin-1. *)
Definition lower_char (c : ascii) : ascii :=
  let n := nat_of_ascii c in
  if ((65 <=? n) && (n <=? 90) || (192 <=? n) && (n <=? 222) && negb (n =? 215))%nat
  then ascii_of_nat (n + 32)
  else c.

Fixpoint lower (s : string) : string :=
  match s with
  | EmptyString => EmptyString
  | String c s' => String (lower_char c) (lower s')
  end.

(** [x in {a, b}]. *)
Definition member (x : string) (l : list string) : bool := existsb (String.eqb x) l.

(** One turn of the loop of [_prompt_int_list] on the line that it
    read: the values that it returns, or what it prints before it
    asks again. *)
Definition int_list_reply (expected_len : option nat) (line : string)
    : string + list Z :=
  let raw := Str.split (Str.strip line) in
  match rmap PyInt.int raw with
  | Raise _ => inl "Please enter integers separated by spaces."
  | Ok values =>
      match expected_len with
      | Some n =>
          if negb (length values =? n)%nat
          then inl ("Please provide exactly " ++ PyInt.str (Z.of_nat n) ++ " values.")
          else match values with
               | [] => inl "Please enter at least one value."
               | _ => inr values
               end
      | None =>
          match values with
          | [] => inl "Please enter at least one value."
          | _ => inr values
          end
      end
  end.

(** The loop [while True] of [_prompt_int_list].  Every turn reads
    one line, so the loop is a recursion on the lines that are left. *)
Fixpoint prompt_int_list_loop (prompt : string) (expected_len : option nat)
    (lines : list string) (written : list string) : outcome (list Z) * console :=
  match lines with
  | [] => (Stopped EOFError, Console [] (written ++ [prompt]))
  | line :: rest =>
      match int_list_reply expected_len line with
      | inl complaint =>
          prompt_int_list_loop prompt expected_len rest
            (written ++ [prompt; complaint ++ Str.nl])
      | inr values => (Returned values, Console rest (written ++ [prompt]))
      end
  end.

Definition _prompt_int_list (prompt : string) (expected_len : option nat) : cli (list Z) :=
  fun c => prompt_int_list_loop prompt expected_len (pending c) (shown c).

Definition layer_prompt (layer_idx : Z) (elements : list string) : string :=
  "Layer " ++ PyInt.str layer_idx ++ " composition (" ++ Str.join ", " elements ++ "): ".

Definition _prompt_layer_matrix (num_layers : Z) (elements : list string)
    : cli (list (list Z)) :=
  for_each (fun layer_matrix layer_idx =>
              row ← _prompt_int_list (layer_prompt layer_idx elements)
                      (Some (length elements));
              mret (layer_matrix ++ [row])%list)
           (range 1 (num_layers + 1)) [].

(** What [prompt_config] reads of the parsed command line. *)
Record Namespace : Type := {
  arg_elements : list string;
  arg_destination : string
}.

(** [Path(text).resolve()] belongs to the system that the program
    runs on. *)
Class System : Type := {
  resolve : string -> path
}.

Section Prompt.
Context `{System}.

Definition prompt_config (args : Namespace) (potcar_root : path)
    (calypso_executable vasp_executable : string) : cli SetupConfig :=
  atom_counts ←
    _prompt_int_list ("How many atoms of each species (" ++
                      Str.join ", " (arg_elements args) ++ ")? ")
                     (Some (length (arg_elements args)));
  answer ← input "Is this a 2D structure search? (Y/N): ";
  let is_2d_resp := lower (Str.strip answer) in
  let is_2d := member is_2d_resp ["y"; "yes"] in
  '(num_layers, relax_z, layer_matrix) ←
    (if is_2d then
       layers ← input "How many layers? ";
       num_layers ← uncaught (PyInt.int (Str.strip layers));
       relax ← input "Should the Z direction relax? (Y/N): ";
       let relax_z := member (lower (Str.strip relax)) ["y"; "yes"] in
       layer_matrix ← _prompt_layer_matrix num_layers (arg_elements args);
       mret (num_layers, relax_z, Some layer_matrix)
     else if negb (member is_2d_resp ["n"; "no"]) then
       exit "Invalid response. Please answer Y or N."
     else mret (1, false, None));
  formula_multipliers ←
    _prompt_int_list "How many formula values for the system? (space-separated integers): "
                     None;
  mret {| elements := arg_elements args;
          atom_counts := atom_counts;
          formula_multipliers := formula_multipliers;
          pressure_gpa := F64.zero;
          destination := resolve (arg_destination args);
          potcar_root := potcar_root;
          calypso_executable := calypso_executable;
          vasp_executable := vasp_executable;
          is_2d := is_2d;
          num_layers := num_layers;
          relax_z := relax_z;
          layer_type_matrix := layer_matrix |}.

End Prompt.

End Cli.

(** * Vocabulary of the properties *)

Fixpoint all_chars (p : ascii -> bool) (s : string) : bool :=
  match s with
  | EmptyString => true
  | String c s' => p c && all_chars p s'
  end.

Definition nonspace (c : ascii) : bool := negb (Str.isspace c).
Definition inline (c : ascii) : bool := negb (Str.islinebreak c).


Definition token (t : string) : Prop := t <> EmptyString /\ all_chars nonspace t = true.


(** What the scaler is to do with one line, in the words of its
    description: a line of the system name gets the multiplier appended
    to the name, a line of the atom counts gets every count multiplied,
    any other line stays as it is. *)
Inductive scaled_line (multiplier : Z) : string -> string -> Prop :=
| scaled_system_name v :
    scaled_line multiplier ("SystemName = " ++ v)
      ("SystemName = " ++ Str.strip v ++ PyInt.str multiplier ++ Str.nl)
| scaled_number_of_atoms v counts :
    map PyInt.parse (Str.split (Str.strip v)) = map Some counts ->
    scaled_line multiplier ("NumberOfAtoms = " ++ v)
      ("NumberOfAtoms = " ++
       Str.join " " (map PyInt.str (map (fun n => n * multiplier) counts)) ++ Str.nl)
| scaled_other line :
    Str.startswith line "SystemName = " = false ->
    Str.startswith line "NumberOfAtoms = " = false ->
    scaled_line multiplier line line.


Definition no_cr (c : ascii) : bool := negb (Ascii.eqb c Str.CR).

(** A character of ASCII.  The bytes of a file of ASCII characters are
    its text in every encoding that extends ASCII. *)
Definition is_ascii (c : ascii) : bool := (nat_of_ascii c <? 128)%nat.

(** The interpreter can limit the digits of a conversion between
    [int] and text, by default to 4300.  A text is within the limit
    for a factor when the factor is, and no word of the text is longer
    than the limit or is an integer whose product with the factor has
    more digits. *)
Definition int_max_str_digits : Z := 4300.

Definition convertible (n : Z) : bool := Z.abs n <? 10 ^ int_max_str_digits.

Definition word_within (factor : Z) (word : string) : bool :=
  (Z.of_nat (String.length word) <=? int_max_str_digits) &&
  match PyInt.parse word with
  | Some n => convertible (n * factor)
  | None => true
  end.

Definition within_int_limit (factor : Z) (text : string) : bool :=
  convertible factor && forallb (word_within factor) (Str.split text).


(** The float literal [1.2]. *)
Definition c1_2 : F64.float := F64.of_ratio false 12 10.

(** The radius that a dictionary holds for a key, and the entry of the
    distance matrix for two keys. *)
Definition radius (d : Dict.t F64.float) (k : string) : F64.float :=
  match Dict.get d k with
  | Some v => v
  | None => S754_nan
  end.

Definition entry (d : Dict.t F64.float) (ki kj : string) : F64.float :=
  F64.mul (F64.add (radius d ki) (radius d kj)) F64.c0_6.

(** The entry in row [i] and column [j] of a matrix. *)
Definition at_ {A} (matrix : list (list A)) (i j : nat) : option A :=
  match matrix !! i with
  | Some row => row !! j
  | None => None
  end.

(** The lines of a text that begin with [key]. *)
Definition field_lines (key text : string) : list string :=
  filter (fun line => Str.startswith line key = true) (Str.splitlines text).

(** The content of a file, the empty text when there is none. *)
Definition content (w : world) (p : path) : string :=
  match files w !! p with
  | Some data => data
  | None => EmptyString
  end.

(** The keys of a dictionary filled with the items of [l] in turn: the
    distinct items of [l], each at its first occurrence. *)
Definition record_key (keys : list string) (k : string) : list string :=
  if bool_decide (k ∈ keys) then keys else (keys ++ [k])%list.

Definition first_occurrences (l : list string) : list string := fold_left record_key l [].

(** The variant of [element] among the directories [ds]: the first
    suffix, in the order of priority, whose directory is under [root]. *)
Definition variant_of (ds : gset path) (root : path) (element : string) : option string :=
  List.find (fun suffix => bool_decide ((root ++ [(element ++ suffix)%string])%list ∈ ds)) suffixes.

Definition potcar_path_of (root : path) (element suffix : string) : path :=
  (root ++ [(element ++ suffix)%string; "POTCAR"])%list.



(** The text of each shared file, by its name. *)
Definition shared_text (config : SetupConfig) (pstress_kbar_str potcar file_name : string)
    : string :=
  if String.eqb file_name "INCAR_1" then Template.incar_1_content pstress_kbar_str
  else if String.eqb file_name "INCAR_2" then Template.incar_2_content pstress_kbar_str
  else if String.eqb file_name "POTCAR" then potcar
  else if String.eqb file_name calypso_fullnode_script
       then Template.calypso_fullnode_content (calypso_executable config)
  else if String.eqb file_name calypso_script
       then Template.calypso_content (calypso_executable config)
  else Template.submit_sh_content (vasp_executable config).

(** The directory of a formula multiplier. *)
Definition subdir (dest : path) (formula_value : Z) : path :=
  (dest ++ [PyInt.str formula_value])%list.

(** The text of [input.dat] for a formula multiplier, given what the
    run computed once: the distance matrix, the least radius and the
    base area. *)
Definition render_input_dat `{Runtime} (config : SetupConfig)
    (distance_of_ion_matrix : list (list F64.float))
    (min_latom_dis base_area : option F64.float) (formula_value : Z) : result string :=
  rbind (two_d_parameters_of (is_2d config) (num_layers config) (relax_z config) base_area
           min_latom_dis
           (layer_type_str_of (adjusted_layer_type_matrix_of config formula_value))
           formula_value) (fun two_d_parameters =>
  Ok (Template.input_content
        (system_name_of (elements config) (scale_counts formula_value (atom_counts config)))
        (PyInt.str (Z.of_nat (length (elements config))))
        (name_of_atoms_of (elements config))
        (number_of_atoms_of (scale_counts formula_value (atom_counts config)))
        (distance_of_ion_str_of distance_of_ion_matrix)
        two_d_parameters)).

Definition deletion_message (p : path) (e : exn) : string :=
  "Error occurred while deleting " ++ Path.str p ++ ": " ++ exn_text e.

(** The world [w] with [u] for the files that may not be deleted. *)
Definition with_undeletable (u : gset path) (w : world) : world :=
  World (files w) (dirs w) u (stdout w).

(** A computation that does not look at which files may be deleted:
    run with another set of them, it has the same outcome and leaves
    the same world, but for that set. *)
Definition deletion_blind {A} (m : io A) : Prop :=
  forall u w, m (with_undeletable u w) = (fst (m w), with_undeletable u (snd (m w))).

(** The line of the least radius in the block of the 2D parameters. *)
Definition latom_line_of `{Runtime} (min_latom_dis : option F64.float) : string :=
  match min_latom_dis with
  | Some r => "LAtom_Dis = " ++ float_repr r
  | None => EmptyString
  end.

(** The distortion along the C axis: [0.1 if relax_z else 0.0]. *)
Definition delta_z_of (relax_z : bool) : F64.float := if relax_z then F64.c0_1 else F64.zero.

(** The element [element] is read in the world [w], among the
    directories [ds]: [text] is the text of the POTCAR file of its
    variant, and [chosen] the radius of that text. *)
Definition read_as (ds : gset path) (w : world) (root : path) (element text : string)
    (chosen : F64.float) : Prop :=
  exists suffix data,
    variant_of ds root element = Some suffix /\
    files w !! potcar_path_of root element suffix = Some data /\
    text = Fs.universal_newlines data /\
    choose_rwigs text (potcar_path_of root element suffix) = Ok chosen.

(** What a pattern matches: [matches r text groups] when [r] matches
    the whole of [text] and captures [groups] on the way. *)
Inductive matches : Re.re -> string -> list string -> Prop :=
| matches_one k a :
    Re.cls_match k a = true -> matches (Re.One k) (String a EmptyString) []
| matches_star k text :
    all_chars (Re.cls_match k) text = true -> matches (Re.Star k) text []
| matches_opt_none k : matches (Re.Opt k) EmptyString []
| matches_opt_some k a :
    Re.cls_match k a = true -> matches (Re.Opt k) (String a EmptyString) []
| matches_seq r1 r2 text1 text2 groups1 groups2 :
    matches r1 text1 groups1 -> matches r2 text2 groups2 ->
    matches (Re.Seq r1 r2) (text1 ++ text2) (groups1 ++ groups2)%list
| matches_group r text groups :
    matches r text groups -> matches (Re.Group r) text (groups ++ [text])%list.

(** The pattern [r] matches somewhere in [text]. *)
Definition occurs (r : Re.re) (text : string) : Prop :=
  exists before mid after groups, text = before ++ mid ++ after /\ matches r mid groups.

(** The texts of a number of the radius pattern: a sign or none,
    digits, a point or none, and one digit or more. *)
Definition number_text (g : string) : Prop :=
  exists sign whole point frac,
    g = sign ++ whole ++ point ++ frac /\
    (sign = EmptyString \/ sign = "-" \/ sign = "+") /\
    all_chars Str.isdigit whole = true /\
    (point = EmptyString \/ point = ".") /\
    frac <> EmptyString /\ all_chars Str.isdigit frac = true.

(** * Vocabulary of the further properties *)

(** A computation that spares the files [safe]: whatever its outcome,
    it leaves the content of every one of them as it was. *)
Definition spares {A} (safe : path -> Prop) (m : io A) : Prop :=
  forall w p, safe p -> files (snd (m w)) !! p = files w !! p.

(** A computation that, when it raises, has written nothing to the
    files [safe]. *)
Definition fails_sparing {A} (safe : path -> Prop) (m : io A) : Prop :=
  forall w e w' p, m w = (Raise e, w') -> safe p -> files w' !! p = files w !! p.

(** The paths that are not the destination nor below it. *)
Definition outside (dest : path) (p : path) : Prop := forall k, p <> (dest ++ k)%list.

(** What two runs of the scaler make of a line, the first with the
    multiplier [m1] and the second with [m2]: the name gets both
    multipliers appended, every count is multiplied by both. *)
Inductive scaled_twice (m1 m2 : Z) : string -> string -> Prop :=
| twice_system_name v :
    scaled_twice m1 m2 ("SystemName = " ++ v)
      ("SystemName = " ++ Str.strip v ++ PyInt.str m1 ++ PyInt.str m2 ++ Str.nl)
| twice_number_of_atoms v counts :
    map PyInt.parse (Str.split (Str.strip v)) = map Some counts ->
    scaled_twice m1 m2 ("NumberOfAtoms = " ++ v)
      ("NumberOfAtoms = " ++
       Str.join " " (map PyInt.str (map (fun n => n * m1 * m2) counts)) ++ Str.nl)
| twice_other line :
    Str.startswith line "SystemName = " = false ->
    Str.startswith line "NumberOfAtoms = " = false ->
    scaled_twice m1 m2 line line.

(** A line with its terminator, and a last line without one; no
    carriage return in either. *)
Definition terminated (line : string) : Prop :=
  exists body t,
    line = body ++ String t EmptyString /\ all_chars inline body = true /\
    Str.islinebreak t = true /\ t <> Str.CR.

Definition unterminated (line : string) : Prop :=
  line <> EmptyString /\ all_chars inline line = true.

(** The lines of a text without carriage returns. *)
Inductive well_lined : list string -> Prop :=
| well_lined_nil : well_lined []
| well_lined_last line : unterminated line -> well_lined [line]
| well_lined_cons line lines : terminated line -> well_lined lines -> well_lined (line :: lines).

(** ** The prompts *)

(** A line that the prompt for a list of integers accepts, with the
    values that it reads there: every word of the line is an integer,
    there is one at least, and as many as are expected. *)
Definition accepts (expected_len : option nat) (line : string) (values : list Z) : Prop :=
  map PyInt.parse (Str.split (Str.strip line)) = map Some values /\
  values <> [] /\
  forall n, expected_len = Some n -> length values = n.

(** What the prompt prints for a line that it does not accept. *)
Inductive complains (expected_len : option nat) (line : string) : string -> Prop :=
| complains_not_integers token :
    token ∈ Str.split (Str.strip line) -> PyInt.parse token = None ->
    complains expected_len line "Please enter integers separated by spaces."
| complains_wrong_count values n :
    map PyInt.parse (Str.split (Str.strip line)) = map Some values ->
    expected_len = Some n -> length values <> n ->
    complains expected_len line
      ("Please provide exactly " ++ PyInt.str (Z.of_nat n) ++ " values.")
| complains_nothing :
    Str.split (Str.strip line) = [] ->
    (forall n, expected_len = Some n -> n = 0%nat) ->
    complains expected_len line "Please enter at least one value.".

(** What is written while the lines with these complaints are read,
    and the next line is asked for. *)
Definition asked (prompt : string) (complaints : list string) : list string :=
  (flat_map (fun complaint => [prompt; (complaint ++ Str.nl)%string]) complaints
   ++ [prompt])%list.

(** The text of the first prompt of a configuration. *)
Definition counts_prompt (elements : list string) : string :=
  "How many atoms of each species (" ++ Str.join ", " elements ++ ")? ".

(** The files that a run can write or delete: the six shared files of
    its destination and, in the directory of every multiplier, the
    descriptor and the copy of each shared file, which goes below a
    directory of its name if there is one. *)
Definition touched (config : SetupConfig) (p : path) : Prop :=
  (exists f, f ∈ files_to_copy /\ p = (destination config ++ [f])%list) \/
  (exists m, m ∈ formula_multipliers config /\
     (p = (subdir (destination config) m ++ ["input.dat"])%list \/
      exists f, f ∈ files_to_copy /\
        (p = (subdir (destination config) m ++ [f])%list \/
         p = (subdir (destination config) m ++ [f; f])%list))).

(** A computation that removes no directory and makes none but those
    of [made]. *)
Definition makes {A} (made : path -> Prop) (m : io A) : Prop :=
  forall w d,
    (d ∈ dirs w -> d ∈ dirs (snd (m w))) /\
    (d ∈ dirs (snd (m w)) -> d ∈ dirs w \/ made d).

(** The directories that a run can make: its destination with the
    directories above it, and the directories of its multipliers. *)
Definition made_by (config : SetupConfig) (d : path) : Prop :=
  d ∈ Path.parents (destination config) \/
  exists m, m ∈ formula_multipliers config /\ d = subdir (destination config) m.

(** * Worlds and inputs of the examples *)


Definition scaler_text : string :=
  "SystemName = Fe1O1
NumberOfAtoms = 1 1
Other = keep
".

Definition scaler_world : world :=
  {| files := {[ ["run"; "input.dat"] := scaler_text ]};
     dirs := {[ []; ["run"] ]}; undeletable := ∅; stdout := [] |}.


Definition fe_o_radii : Dict.t F64.float :=
  [("Fe", F64.of_ratio false 1 1); ("O", F64.of_ratio false 2 1)].

Definition huge_radius : Dict.t F64.float := [("Fe", F64.of_ratio false (10 ^ 308) 1)].

Definition run_world : world :=
  {| files := ∅; dirs := {[ []; ["run"] ]}; undeletable := ∅; stdout := [] |}.

(** The two ways to the descriptor of the multiplier 3 for Fe and O
    with one atom each: rendered from the counts scaled beforehand,
    and rendered from the base counts and then scaled in place. *)
Definition direct_render : world :=
  snd (@create_input_dat reference_runtime ["run"] ["Fe"; "O"] (scale_counts 3 [1; 1])
         [] None false 1 false None None 3 run_world).

Definition render_then_scale : world :=
  snd ((@create_input_dat reference_runtime ["run"] ["Fe"; "O"] [1; 1]
          [] None false 1 false None None 1;;
        adjust_input_dat ["run"; "input.dat"] 3) run_world).

(** A root of pseudopotentials with two variants for Fe and one for
    O, and a configuration of a run for Fe and O in two dimensions. *)
Definition potcar_world : world :=
  {| files := {[ ["pot"; "Fe_pv"; "POTCAR"] :=
                   "PAW_PBE Fe_pv" ++ Str.nl ++
                   "   RWIGS  =    2.500; RWIGS  =    1.323    wigner-seitz radius" ++ Str.nl;
                 ["pot"; "Fe"; "POTCAR"] := "RWIGS = 1.302" ++ Str.nl;
                 ["pot"; "O"; "POTCAR"] := "rwigs = 1.55" ++ Str.nl ++ "RWIGS = .82" ++ Str.nl ]};
     dirs := {[ []; ["pot"]; ["pot"; "Fe_pv"]; ["pot"; "Fe"]; ["pot"; "O"] ]};
     undeletable := ∅; stdout := [] |}.

Definition fe_o_config : SetupConfig :=
  {| elements := ["Fe"; "O"]; atom_counts := [1; 1]; formula_multipliers := [1; 2];
     pressure_gpa := F64.of_Z 25; destination := ["run"]; potcar_root := ["pot"];
     calypso_executable := "calypso.x"; vasp_executable := "vasp_std";
     is_2d := true; num_layers := 1; relax_z := false; layer_type_matrix := Some [[1; 1]] |}.

(** The same root, in a world where the shared file [INCAR_1] of the
    destination may not be deleted. *)
Definition locked_world : world := with_undeletable {[ ["run"; "INCAR_1"] ]} potcar_world.


(** The pressure 1.234 GPa. *)
Definition pressure_1_234 : F64.float := F64.of_ratio false 1234 1000.

(** * Inputs of the further examples *)

(** The run for Fe and O at the pressure -0.5 GPa. *)
Definition negative_pressure_config : SetupConfig :=
  {| elements := ["Fe"; "O"]; atom_counts := [1; 1]; formula_multipliers := [1; 2];
     pressure_gpa := F64.of_ratio true 1 2; destination := ["run"]; potcar_root := ["pot"];
     calypso_executable := "calypso.x"; vasp_executable := "vasp_std";
     is_2d := false; num_layers := 1; relax_z := false; layer_type_matrix := None |}.

(** A descriptor with a count that is no integer. *)
Definition bad_count_world : world :=
  {| files := {[ ["run"; "input.dat"] :=
                   "SystemName = Fe1O1" ++ Str.nl ++ "NumberOfAtoms = 1 x" ++ Str.nl ]};
     dirs := {[ []; ["run"] ]}; undeletable := ∅; stdout := [] |}.

(** The command line for Fe and O, on a system whose working
    directory is the root. *)
Definition fe_o_args : Cli.Namespace :=
  {| Cli.arg_elements := ["Fe"; "O"]; Cli.arg_destination := "run" |}.

Definition root_system : Cli.System := {| Cli.resolve := fun text => [text] |}.

(** Answers for the rows of two layers, the first in two tries. *)
Definition layers_console : console :=
  {| pending := ["1 x"; "1 1"; "2 0"; "left"]; shown := [] |}.

(** Answers for a search in three dimensions, for one in two
    dimensions with two layers, and an answer that is none. *)
Definition three_d_console : console :=
  {| pending := ["1 1"; " No "; "1 2"]; shown := [] |}.

Definition two_d_console : console :=
  {| pending := ["1 1"; "YES"; " 2"; "maybe"; "1 0"; "0 1"; "1 2 4"]; shown := [] |}.

Definition undecided_console : console :=
  {| pending := ["1 1"; "maybe"; "1 2"]; shown := [] |}.

(** * Properties *)

(** ** Strings *)

#[local] Arguments String.append !s1 s2 : simpl nomatch.

Section StringFacts.

Lemma append_nil_r (s : string) : s ++ EmptyString = s.
Proof. induction s as [|c s IH]; simpl; [reflexivity | now rewrite IH]. Qed.

Lemma append_assoc (a b c : string) : (a ++ b) ++ c = a ++ (b ++ c).
Proof. induction a as [|x a IH]; simpl; [reflexivity | now rewrite IH]. Qed.

Lemma cat_app (l1 l2 : list string) :
  Str.cat (l1 ++ l2)%list = Str.cat l1 ++ Str.cat l2.
Proof.
  induction l1 as [|x l1 IH]; simpl; [reflexivity|].
  unfold Str.cat in *; simpl. now rewrite IH, append_assoc.
Qed.

(** Induction on strings two characters at a time. *)
Lemma string_ind2 (P : string -> Prop) :
  P EmptyString ->
  (forall c, P (String c EmptyString)) ->
  (forall c c' s, P s -> P (String c' s) -> P (String c (String c' s))) ->
  forall s, P s.
Proof.
  intros H0 H1 H2 s.
  assert (P s /\ forall c, P (String c s)) as [Hs _]; [|exact Hs].
  induction s as [|a s [IHs IHc]]; split; auto.
Qed.


Lemma splitlines_nonempty (s : string) :
  Forall (fun l => l <> EmptyString) (Str.splitlines s).
Proof.
  induction s as [|c|c c' s IH1 IH2] using string_ind2.
  - constructor.
  - simpl. destruct (Str.islinebreak c); repeat constructor; discriminate.
  - change (Str.splitlines (String c (String c' s))) with
      (if Str.islinebreak c then
         if Ascii.eqb c Str.CR && Ascii.eqb c' Str.LF
         then String c (String c' EmptyString) :: Str.splitlines s
         else String c EmptyString :: Str.splitlines (String c' s)
       else match Str.splitlines (String c' s) with
            | [] => [String c EmptyString]
            | l :: ls => String c l :: ls
            end).
    destruct (Str.islinebreak c).
    + destruct (Ascii.eqb c Str.CR && Ascii.eqb c' Str.LF);
        (constructor; [discriminate | auto]).
    + destruct (Str.splitlines (String c' s)) as [|l ls] eqn:E.
      * repeat constructor. discriminate.
      * inversion IH2; subst. constructor; [discriminate | auto].
Qed.

End StringFacts.

(** ** Integers and their text *)

Section IntFacts.

Lemma all_chars_app p a b : all_chars p (a ++ b) = all_chars p a && all_chars p b.
Proof. induction a as [|c a IH]; simpl; [reflexivity|]. now rewrite IH, andb_assoc. Qed.

Lemma all_chars_impl (p q : ascii -> bool) s :
  (forall c, p c = true -> q c = true) -> all_chars p s = true -> all_chars q s = true.
Proof.
  intros Hpq. induction s as [|c s IH]; simpl; [reflexivity|].
  intros [Hc Hs]%andb_prop. rewrite (Hpq _ Hc). simpl. auto.
Qed.

Lemma digit_nonspace c : Str.isdigit c = true -> nonspace c = true.
Proof.
  destruct c as [[] [] [] [] [] [] [] []]; vm_compute; congruence.
Qed.

Lemma rstrip_nonspace s : all_chars nonspace s = true -> Str.rstrip s = s.
Proof.
  induction s as [|c s IH]; simpl; [reflexivity|].
  intros [Hc Hs]%andb_prop. rewrite (IH Hs).
  destruct s; [|reflexivity].
  unfold nonspace in Hc. now destruct (Str.isspace c).
Qed.

Lemma lstrip_nonspace s : all_chars nonspace s = true -> Str.lstrip s = s.
Proof.
  destruct s as [|c s]; simpl; [reflexivity|].
  intros [Hc Hs]%andb_prop. unfold nonspace in Hc. now destruct (Str.isspace c).
Qed.

Lemma strip_nonspace s : all_chars nonspace s = true -> Str.strip s = s.
Proof.
  intros Hs. unfold Str.strip. rewrite lstrip_nonspace by exact Hs.
  now apply rstrip_nonspace.
Qed.

Lemma uint_digits d : all_chars Str.isdigit (NilEmpty.string_of_uint d) = true.
Proof. induction d; simpl; auto. Qed.

Lemma digits_of_uint d : PyInt.digits (NilEmpty.string_of_uint d) = Some d.
Proof. induction d; simpl; [reflexivity | rewrite IHd; reflexivity ..]. Qed.

Lemma unsigned_of_pos p :
  PyInt.unsigned (NilEmpty.string_of_uint (Pos.to_uint p)) = Some (Zpos p).
Proof.
  pose proof (Unsigned.to_uint_nonnil p) as Hnil.
  pose proof (Unsigned.of_to p) as Hof.
  pose proof (digits_of_uint (Pos.to_uint p)) as Hd.
  pose proof (uint_digits (Pos.to_uint p)) as Hall.
  destruct (Pos.to_uint p) as [|u|u|u|u|u|u|u|u|u|u] eqn:E; [congruence|..];
    unfold PyInt.unsigned;
    cbn [NilEmpty.string_of_uint] in *;
    (rewrite Hd; cbn [Str.isdigit]; simpl; unfold Z.of_uint; rewrite Hof; reflexivity).
Qed.

(** The text of an integer has no white space and reads back as the
    integer. *)
Lemma str_nonspace n : all_chars nonspace (PyInt.str n) = true.
Proof.
  unfold PyInt.str.
  assert (forall d, all_chars nonspace (NilZero.string_of_uint d) = true) as Hu.
  { intros d. destruct d; try reflexivity;
      apply (all_chars_impl Str.isdigit); auto using digit_nonspace;
      apply (uint_digits (_ d)) || apply uint_digits. }
  destruct n; simpl; [reflexivity | apply Hu |].
  rewrite Hu. reflexivity.
Qed.

Lemma str_nonempty n : PyInt.str n <> EmptyString.
Proof.
  unfold PyInt.str. destruct n as [|p|p]; simpl; try discriminate.
  pose proof (Unsigned.to_uint_nonnil p).
  destruct (Pos.to_uint p); simpl; congruence.
Qed.

Lemma parse_str n : PyInt.parse (PyInt.str n) = Some n.
Proof.
  unfold PyInt.parse. rewrite strip_nonspace by apply str_nonspace.
  unfold PyInt.str. destruct n as [|p|p]; [reflexivity | |].
  - simpl. pose proof (unsigned_of_pos p) as Hp.
    pose proof (Unsigned.to_uint_nonnil p) as Hnil.
    pose proof (uint_digits (Pos.to_uint p)) as Hall.
    unfold NilZero.string_of_uint.
    destruct (Pos.to_uint p) as [|u|u|u|u|u|u|u|u|u|u] eqn:E; [congruence|..];
      cbn [NilEmpty.string_of_uint] in *; exact Hp.
  - simpl. pose proof (unsigned_of_pos p) as Hp.
    pose proof (Unsigned.to_uint_nonnil p) as Hnil.
    unfold NilZero.string_of_uint.
    destruct (Pos.to_uint p) as [|u|u|u|u|u|u|u|u|u|u] eqn:E; [congruence|..];
      cbn [NilEmpty.string_of_uint] in *; rewrite Hp; reflexivity.
Qed.

Lemma int_str n : PyInt.int (PyInt.str n) = Ok n.
Proof. unfold PyInt.int. now rewrite parse_str. Qed.

End IntFacts.

(** ** Stripping, splitting and joining *)

Section SplitFacts.

Lemma rstrip_app a b : Str.rstrip b <> EmptyString -> Str.rstrip (a ++ b) = a ++ Str.rstrip b.
Proof.
  intros Hb. induction a as [|c a IH]; simpl; [reflexivity|].
  rewrite IH. destruct (a ++ Str.rstrip b) eqn:E; [|reflexivity].
  destruct a; simpl in E; congruence.
Qed.

Lemma rstrip_spaces b : all_chars Str.isspace b = true -> Str.rstrip b = EmptyString.
Proof.
  induction b as [|c b IH]; simpl; [reflexivity|].
  intros [Hc Hb]%andb_prop. now rewrite (IH Hb), Hc.
Qed.

Lemma lstrip_spaces b : all_chars Str.isspace b = true -> Str.lstrip b = EmptyString.
Proof.
  induction b as [|c b IH]; simpl; [reflexivity|].
  intros [Hc Hb]%andb_prop. now rewrite Hc, (IH Hb).
Qed.

Lemma rstrip_app_spaces a b :
  all_chars Str.isspace b = true -> Str.rstrip (a ++ b) = Str.rstrip a.
Proof.
  intros Hb. induction a as [|c a IH]; simpl; [now apply rstrip_spaces|].
  now rewrite IH.
Qed.

(** White space around a value does not count: the value of the line
    [key = value], cut after the sign and stripped, is the value
    stripped. *)
Lemma strip_padded a b :
  all_chars Str.isspace b = true -> Str.strip (a ++ b) = Str.strip a.
Proof.
  intros Hb. unfold Str.strip. induction a as [|c a IH]; simpl.
  - now rewrite (lstrip_spaces b Hb).
  - destruct (Str.isspace c); [exact IH|].
    change (String c (a ++ b)) with (String c a ++ b).
    now apply rstrip_app_spaces.
Qed.

Lemma split_cons2 c c' s :
  Str.split (String c (String c' s)) =
  if Str.isspace c then Str.split (String c' s)
  else if Str.isspace c' then String c EmptyString :: Str.split (String c' s)
  else match Str.split (String c' s) with
       | [] => [String c EmptyString]
       | t0 :: ts => String c t0 :: ts
       end.
Proof. reflexivity. Qed.

Lemma split_token_space t r :
  token t -> Str.split (t ++ String " " r) = t :: Str.split r.
Proof.
  intros [Hne Hall]. induction t as [|c t IH]; [congruence|].
  simpl in Hall. apply andb_prop in Hall as [Hc Ht].
  unfold nonspace in Hc. apply negb_true_iff in Hc.
  destruct t as [|c' t].
  - simpl. now rewrite Hc.
  - change (String c (String c' t) ++ String " " r)
      with (String c (String c' (t ++ String " " r))).
    rewrite split_cons2.
    change (String c' (t ++ String " " r)) with (String c' t ++ String " " r).
    rewrite Hc. simpl in Ht. apply andb_prop in Ht as [Hc' Ht'].
    pose proof Hc' as Hc''. unfold nonspace in Hc''. apply negb_true_iff in Hc''.
    rewrite Hc''. rewrite IH; [reflexivity | discriminate |].
    simpl. now rewrite Hc', Ht'.
Qed.

Lemma split_token t : token t -> Str.split t = [t].
Proof.
  intros [Hne Hall]. induction t as [|c t IH]; [congruence|].
  simpl in Hall. apply andb_prop in Hall as [Hc Ht].
  unfold nonspace in Hc. apply negb_true_iff in Hc.
  destruct t as [|c' t].
  - simpl. now rewrite Hc.
  - rewrite split_cons2, Hc. simpl in Ht. pose proof Ht as Ht0. apply andb_prop in Ht as [Hc' Ht'].
    pose proof Hc' as Hc''. unfold nonspace in Hc''. apply negb_true_iff in Hc''.
    rewrite Hc''. rewrite IH; [reflexivity | discriminate | exact Ht0].
Qed.

Lemma split_join ts : Forall token ts -> Str.split (Str.join " " ts) = ts.
Proof.
  induction 1 as [|t ts Ht Hts IH]; [reflexivity|].
  destruct ts as [|t' ts].
  - simpl. now apply split_token.
  - change (Str.join " " (t :: t' :: ts)) with (t ++ String " " (Str.join " " (t' :: ts))).
    rewrite split_token_space by exact Ht. now rewrite IH.
Qed.

Lemma join_cons_nonempty sep t ts : t <> EmptyString -> Str.join sep (t :: ts) <> EmptyString.
Proof.
  intros Ht. destruct t; [congruence|]. destruct ts; simpl; discriminate.
Qed.

Lemma rstrip_cons c s :
  Str.rstrip (String c s) =
  match Str.rstrip s with
  | EmptyString => if Str.isspace c then EmptyString else String c EmptyString
  | r => String c r
  end.
Proof. reflexivity. Qed.

Lemma join_nonspace_ends ts :
  Forall token ts ->
  Str.lstrip (Str.join " " ts) = Str.join " " ts /\
  Str.rstrip (Str.join " " ts) = Str.join " " ts.
Proof.
  induction 1 as [|t ts Ht Hts [IHl IHr]]; [split; reflexivity|].
  destruct Ht as [Hne Hall].
  destruct ts as [|t' ts].
  - simpl. split; [now apply lstrip_nonspace | now apply rstrip_nonspace].
  - change (Str.join " " (t :: t' :: ts)) with (t ++ String " " (Str.join " " (t' :: ts))).
    split.
    + destruct t as [|c t]; [congruence|]. simpl in *.
      apply andb_prop in Hall as [Hc _]. unfold nonspace in Hc.
      now destruct (Str.isspace c).
    + rewrite rstrip_app.
      * f_equal. change (String " " (Str.join " " (t' :: ts)))
          with (String " " EmptyString ++ Str.join " " (t' :: ts)).
        inversion Hts as [|? ? [Hne' _] _]; subst.
        rewrite rstrip_app; [now rewrite IHr|].
        rewrite IHr. now apply join_cons_nonempty.
      * inversion Hts as [|? ? [Hne' _] _]; subst.
        pose proof (join_cons_nonempty " " t' ts Hne') as HJ.
        rewrite rstrip_cons, IHr.
        destruct (Str.join " " (t' :: ts)); [congruence | discriminate].
Qed.

Lemma strip_value v :
  Str.lstrip v = v -> Str.rstrip v = v ->
  Str.strip (String " " (v ++ Str.nl)) = v.
Proof.
  intros Hl Hr. change (String " " (v ++ Str.nl)) with (String " " v ++ Str.nl).
  rewrite strip_padded by reflexivity.
  unfold Str.strip. simpl. now rewrite Hl.
Qed.

Lemma str_token n : token (PyInt.str n).
Proof. split; [apply str_nonempty | apply str_nonspace]. Qed.

End SplitFacts.

(** ** The in-place scaler, line by line *)

Section ScalerFacts.

Lemma startswith_app s p : Str.startswith s p = true -> exists v, s = p ++ v.
Proof.
  revert s. induction p as [|a p IH]; intros s; simpl.
  - intros _. now exists s.
  - destruct s as [|b s]; [discriminate|].
    intros [Hab Hs]%andb_prop. apply Ascii.eqb_eq in Hab as ->.
    destruct (IH _ Hs) as [v ->]. now exists v.
Qed.

Lemma startswith_prefix p v : Str.startswith (p ++ v) p = true.
Proof.
  induction p as [|a p IH]; simpl; [now destruct v|].
  now rewrite Ascii.eqb_refl, IH.
Qed.

Lemma rmap_Forall2 {A B} (f : A -> result B) l l' :
  rmap f l = Ok l' <-> Forall2 (fun x y => f x = Ok y) l l'.
Proof.
  revert l'. induction l as [|x l IH]; intros l'; simpl.
  - split; [intros [= <-]; constructor | inversion 1; reflexivity].
  - split.
    + destruct (f x) as [y|] eqn:Hx; simpl; [|discriminate].
      destruct (rmap f l) as [ys|] eqn:Hl; simpl; [|discriminate].
      intros [= <-]. constructor; [exact Hx | now apply IH].
    + inversion 1 as [|? y ? ys Hx Hl]; subst. rewrite Hx. simpl.
      apply IH in Hl. rewrite Hl. reflexivity.
Qed.

Lemma rmap_scale multiplier tokens counts :
  map PyInt.parse tokens = map Some counts ->
  rmap (fun atom => rbind (PyInt.int atom) (fun n => Ok (PyInt.str (n * multiplier)))) tokens
  = Ok (map PyInt.str (map (fun n => n * multiplier) counts)).
Proof.
  revert counts. induction tokens as [|t ts IH]; intros [|c cs]; simpl; try discriminate.
  - reflexivity.
  - intros [= Ht Hts]. unfold PyInt.int at 1. rewrite Ht. simpl.
    rewrite (IH _ Hts). reflexivity.
Qed.

Lemma rmap_scale_inv multiplier tokens scaled :
  rmap (fun atom => rbind (PyInt.int atom) (fun n => Ok (PyInt.str (n * multiplier)))) tokens
  = Ok scaled ->
  exists counts, map PyInt.parse tokens = map Some counts /\
                 scaled = map PyInt.str (map (fun n => n * multiplier) counts).
Proof.
  revert scaled. induction tokens as [|t ts IH]; intros scaled; simpl.
  - intros [= <-]. now exists [].
  - unfold PyInt.int at 1. destruct (PyInt.parse t) as [n|] eqn:Ht; simpl; [|discriminate].
    destruct (rmap _ ts) as [ys|] eqn:Hts; simpl; [|discriminate].
    intros [= <-]. destruct (IH _ eq_refl) as (counts & Hc & ->).
    exists (n :: counts). simpl. now rewrite Hc.
Qed.

(** The scaler does to each line what [scaled_line] says, and fails
    only on a count that is not an integer. *)
Lemma adjust_line_scaled multiplier line line' :
  adjust_line multiplier line = Ok line' -> scaled_line multiplier line line'.
Proof.
  unfold adjust_line.
  destruct (Str.startswith line "SystemName = ") eqn:Hname.
  - apply startswith_app in Hname as [v ->]. simpl.
    intros [= <-]. change (Str.strip (String " " v)) with (Str.strip v). constructor.
  - destruct (Str.startswith line "NumberOfAtoms = ") eqn:Hatoms.
    + apply startswith_app in Hatoms as [v ->]. simpl.
      change (Str.strip (String " " v)) with (Str.strip v).
      destruct (rmap _ (Str.split (Str.strip v))) as [scaled|] eqn:Hs; simpl; [|discriminate].
      intros [= <-]. apply rmap_scale_inv in Hs as (counts & Hc & ->).
      now constructor.
    + intros [= <-]. now constructor.
Qed.

Lemma scaled_adjust_line multiplier line line' :
  scaled_line multiplier line line' -> adjust_line multiplier line = Ok line'.
Proof.
  destruct 1 as [v | v counts Hc | line Hn Ha]; unfold adjust_line.
  - rewrite startswith_prefix. reflexivity.
  - rewrite startswith_prefix.
    change (Str.startswith ("NumberOfAtoms = " ++ v) "SystemName = ") with false.
    cbn iota. change (Str.split1 "=" ("NumberOfAtoms = " ++ v))
      with ["NumberOfAtoms "; String " " v].
    cbn [Str.index nth_error rbind].
    change (Str.strip (String " " v)) with (Str.strip v).
    rewrite (rmap_scale _ _ _ Hc). reflexivity.
  - now rewrite Hn, Ha.
Qed.

(** The line of the atom counts that [create_input_dat] writes, once
    scaled in place, is the line it writes for the scaled counts. *)
Lemma adjust_number_of_atoms multiplier counts :
  adjust_line multiplier ("NumberOfAtoms = " ++ number_of_atoms_of counts ++ Str.nl)
  = Ok ("NumberOfAtoms = " ++ number_of_atoms_of (scale_counts multiplier counts) ++ Str.nl).
Proof.
  apply scaled_adjust_line. unfold number_of_atoms_of, scale_counts.
  apply scaled_number_of_atoms.
  assert (Forall token (map PyInt.str counts)) as Htok.
  { induction counts; constructor; auto using str_token. }
  destruct (join_nonspace_ends _ Htok) as [Hl Hr].
  rewrite strip_padded by reflexivity.
  unfold Str.strip. rewrite Hl, Hr, split_join by exact Htok.
  rewrite !map_map. apply map_ext. intros n. apply parse_str.
Qed.

Lemma adjust_system_name multiplier name :
  adjust_line multiplier ("SystemName = " ++ name ++ Str.nl)
  = Ok ("SystemName = " ++ Str.strip name ++ PyInt.str multiplier ++ Str.nl).
Proof.
  apply scaled_adjust_line.
  rewrite <- (strip_padded name Str.nl) by reflexivity. constructor.
Qed.

End ScalerFacts.

(** ** The in-place scaler, on the file *)

Section ScalerFile.

Lemma universal_newlines_id data :
  all_chars no_cr data = true -> Fs.universal_newlines data = data.
Proof.
  induction data as [|c data IH]; simpl; [reflexivity|].
  intros [Hc Hd]%andb_prop. unfold no_cr in Hc. apply negb_true_iff in Hc.
  rewrite Hc, (IH Hd). reflexivity.
Qed.

Lemma adjust_text_scaled multiplier text new_text :
  adjust_text multiplier text = Ok new_text <->
  exists new_lines,
    Forall2 (scaled_line multiplier) (Str.splitlines text) new_lines /\
    new_text = Str.cat new_lines.
Proof.
  unfold adjust_text. split.
  - destruct (rmap _ _) as [new_lines|] eqn:Hr; simpl; [|discriminate].
    intros [= <-]. exists new_lines. split; [|reflexivity].
    apply rmap_Forall2 in Hr. eapply Forall2_impl; [exact Hr|].
    intros l l'. apply adjust_line_scaled.
  - intros (new_lines & Hl & ->).
    assert (rmap (adjust_line multiplier) (Str.splitlines text) = Ok new_lines) as ->.
    { apply rmap_Forall2. eapply Forall2_impl; [exact Hl|].
      intros l l'. apply scaled_adjust_line. }
    reflexivity.
Qed.

Lemma adjust_input_dat_run file_path multiplier w :
  adjust_input_dat file_path multiplier w =
  match files w !! file_path with
  | Some data =>
      match adjust_text multiplier (Fs.universal_newlines data) with
      | Ok new_content => Fs.write_text file_path new_content w
      | Raise e => (Raise e, w)
      end
  | None =>
      (Raise (if Fs.is_dir w file_path then IsADirectoryError (Path.str file_path)
              else FileNotFoundError (Path.str file_path)), w)
  end.
Proof.
  unfold adjust_input_dat, mbind, io_bind, Fs.read_text, lift.
  destruct (files w !! file_path) as [data|]; [|now destruct (Fs.is_dir w file_path)].
  now destruct (adjust_text multiplier (Fs.universal_newlines data)).
Qed.

End ScalerFile.

(** ** Binary64 arithmetic *)

Section FloatFacts.

Lemma fexp_eq z : fexp F64.prec F64.emax z = Z.max (z - 53) (-1074).
Proof. reflexivity. Qed.

Lemma add_comm x y : F64.add x y = F64.add y x.
Proof.
  unfold F64.add, SFadd.
  destruct x as [sx|sx| |sx mx ex], y as [sy|sy| |sy my ey]; try reflexivity;
    try (destruct sx, sy; reflexivity).
  rewrite (Z.min_comm ey ex). f_equal. apply Z.add_comm.
Qed.

Lemma iter_pos_swap {A} (f : A -> A) p x :
  @SpecFloat.iter_pos A f p (f x) = f (@SpecFloat.iter_pos A f p x).
Proof. revert x. induction p as [p IH|p IH|]; intros x; simpl; rewrite ?IH; reflexivity. Qed.

Lemma iter_pos_succ {A} (f : A -> A) p x :
  @SpecFloat.iter_pos A f (Pos.succ p) x = f (@SpecFloat.iter_pos A f p x).
Proof.
  revert x. induction p as [p IH|p IH|]; intros x; simpl.
  - rewrite !IH. now rewrite (iter_pos_swap f p x).
  - now rewrite !iter_pos_swap.
  - reflexivity.
Qed.

(** A valid finite float: its mantissa has at most 53 digits, exactly 53
    unless the exponent is the least one. *)
Lemma valid_finite s m e :
  F64.valid (S754_finite s m e) = true ->
  Z.max (Zpos (digits2_pos m) + e - 53) (-1074) = e /\ e <= 971.
Proof.
  unfold F64.valid, valid_binary, bounded, canonical_mantissa.
  intros [Hc He]%andb_prop. apply Z.eqb_eq in Hc. apply Z.leb_le in He.
  rewrite fexp_eq in Hc. split; [exact Hc | exact He].
Qed.

Lemma shr_fexp_stay m e :
  fexp F64.prec F64.emax (Zdigits2 m + e) = e ->
  shr_fexp F64.prec F64.emax m e loc_Exact =
  ({| shr_m := m; shr_r := false; shr_s := false |}, e).
Proof. intros H. unfold shr_fexp. rewrite H, Z.sub_diag. reflexivity. Qed.

Lemma shr_fexp_halve p e :
  fexp F64.prec F64.emax (Zdigits2 (Zpos p~0) + e) = e + 1 ->
  shr_fexp F64.prec F64.emax (Zpos p~0) e loc_Exact =
  ({| shr_m := Zpos p; shr_r := false; shr_s := false |}, e + 1).
Proof.
  intros H. unfold shr_fexp. rewrite H.
  replace (e + 1 - e) with 1 by lia. reflexivity.
Qed.

(** Rounding what needs no rounding. *)
Lemma binary_round_aux_stay s p e :
  fexp F64.prec F64.emax (Zdigits2 (Zpos p) + e) = e ->
  binary_round_aux F64.prec F64.emax s (Zpos p) e loc_Exact =
  if e <=? 971 then S754_finite s p e else S754_infinity s.
Proof.
  intros H. unfold binary_round_aux. rewrite (shr_fexp_stay _ _ H).
  cbn [shr_m loc_of_shr_record round_nearest_even].
  rewrite (shr_fexp_stay _ _ H). reflexivity.
Qed.

Lemma binary_round_aux_halve s p e :
  fexp F64.prec F64.emax (Zdigits2 (Zpos p~0) + e) = e + 1 ->
  binary_round_aux F64.prec F64.emax s (Zpos p~0) e loc_Exact =
  if e + 1 <=? 971 then S754_finite s p (e + 1) else S754_infinity s.
Proof.
  intros H. unfold binary_round_aux. rewrite (shr_fexp_halve _ _ H).
  cbn [shr_m loc_of_shr_record round_nearest_even].
  rewrite shr_fexp_stay; [reflexivity|].
  cbn [Zdigits2 digits2_pos] in H |- *. rewrite fexp_eq in *. lia.
Qed.

Lemma cond_Zopp_double s m :
  cond_Zopp s (Zpos m) + cond_Zopp s (Zpos m) = cond_Zopp s (Zpos m~0).
Proof. destruct s; unfold cond_Zopp; rewrite (Pos2Z.inj_xO m); lia. Qed.

(** Doubling a float is exact, short of overflow. *)
Lemma add_self s m e :
  F64.valid (S754_finite s m e) = true ->
  F64.add (S754_finite s m e) (S754_finite s m e) =
  if Zpos (digits2_pos m) =? 53
  then if e + 1 <=? 971 then S754_finite s m (e + 1) else S754_infinity s
  else S754_finite s m~0 e.
Proof.
  intros [Hc He]%valid_finite.
  unfold F64.add, SFadd. rewrite Z.min_id. unfold shl_align at 1 2.
  rewrite Z.sub_diag. cbn [fst]. rewrite cond_Zopp_double.
  assert (binary_normalize F64.prec F64.emax (cond_Zopp s (Zpos m~0)) e false =
          binary_round F64.prec F64.emax s m~0 e) as -> by now destruct s.
  unfold binary_round.
  destruct (Zpos (digits2_pos m) =? 53) eqn:Hd.
  - apply Z.eqb_eq in Hd.
    assert (fexp F64.prec F64.emax (Zpos (digits2_pos m~0) + e) = e + 1) as Hf.
    { rewrite fexp_eq. cbn [digits2_pos]. lia. }
    rewrite Hf. unfold shl_align. replace (e + 1 - e) with 1 by lia.
    now apply binary_round_aux_halve.
  - apply Z.eqb_neq in Hd.
    assert (fexp F64.prec F64.emax (Zpos (digits2_pos m~0) + e) = e) as Hf.
    { rewrite fexp_eq. cbn [digits2_pos]. lia. }
    rewrite Hf. unfold shl_align. rewrite Z.sub_diag.
    rewrite binary_round_aux_stay by exact Hf.
    assert ((e <=? 971) = true) as -> by (apply Z.leb_le; lia). reflexivity.
Qed.


Lemma digits2_size p : digits2_pos p = Pos.size p.
Proof. induction p; simpl; congruence. Qed.

Lemma digits_log2 p : Zpos (digits2_pos p) = Z.log2 (Zpos p) + 1.
Proof.
  rewrite digits2_size. destruct p; simpl; try reflexivity;
    rewrite Pos2Z.inj_succ; reflexivity.
Qed.

Lemma digits_mul_le p q : Zpos (digits2_pos q) <= Zpos (digits2_pos (p * q)).
Proof.
  rewrite !digits_log2. apply Z.add_le_mono_r, Z.log2_le_mono.
  rewrite Pos2Z.inj_mul. nia.
Qed.

(** An even mantissa may give its factor two to the exponent, when
    rounding shifts it anyway. *)
Lemma binary_round_aux_even s p e :
  e < fexp F64.prec F64.emax (Zdigits2 (Zpos p~0) + e) ->
  binary_round_aux F64.prec F64.emax s (Zpos p~0) e loc_Exact =
  binary_round_aux F64.prec F64.emax s (Zpos p) (e + 1) loc_Exact.
Proof.
  intros Hlt. unfold binary_round_aux.
  assert (shr_fexp F64.prec F64.emax (Zpos p~0) e loc_Exact =
          shr_fexp F64.prec F64.emax (Zpos p) (e + 1) loc_Exact) as ->; [|reflexivity].
  unfold shr_fexp. cbn [Zdigits2 digits2_pos] in Hlt |- *.
  rewrite Pos2Z.inj_succ in Hlt |- *.
  replace (Z.succ (Zpos (digits2_pos p)) + e) with (Zpos (digits2_pos p) + (e + 1)) in Hlt |- * by lia.
  set (F := fexp F64.prec F64.emax (Zpos (digits2_pos p) + (e + 1))) in *.
  cbn [shr_record_of_loc]. unfold shr.
  destruct (F - e) as [|k|k] eqn:Hk; try lia.
  destruct (F - (e + 1)) as [|k'|k'] eqn:Hk'; try lia.
  - assert (k = 1%positive) as -> by lia. cbn [SpecFloat.iter_pos shr_1 orb]. f_equal; lia.
  - assert (k = Pos.succ k') as -> by lia.
    rewrite iter_pos_succ, <- iter_pos_swap. cbn [shr_1 orb]. f_equal; lia.
Qed.

Lemma c0_6_eq : F64.c0_6 = S754_finite false 5404319552844595 (-53).
Proof. vm_compute. reflexivity. Qed.

Lemma c1_2_eq : c1_2 = S754_finite false 5404319552844595 (-52).
Proof. vm_compute. reflexivity. Qed.

(** The diagonal of the distance matrix: twice a radius times 0.6 is
    1.2 times the radius, unless the doubling overflows. *)
Lemma mul_double (r : F64.float) :
  F64.valid r = true ->
  F64.is_finite r = false \/ F64.is_finite (F64.add r r) = true ->
  F64.mul (F64.add r r) F64.c0_6 = F64.mul c1_2 r.
Proof.
  intros Hv Hfin. rewrite c0_6_eq, c1_2_eq.
  destruct r as [s|s| |s m e].
  - destruct s; reflexivity.
  - destruct s; reflexivity.
  - reflexivity.
  - destruct Hfin as [Hfin|Hfin]; [discriminate|].
    rewrite add_self in Hfin |- * by exact Hv.
    apply valid_finite in Hv as [Hc He].
    destruct (Zpos (digits2_pos m) =? 53) eqn:Hd.
    + destruct (e + 1 <=? 971); [|discriminate].
      unfold F64.mul, SFmul. rewrite xorb_comm, Pos.mul_comm.
      f_equal. lia.
    + apply Z.eqb_neq in Hd.
      unfold F64.mul, SFmul. rewrite xorb_comm.
      change (m~0 * 5404319552844595)%positive with ((m * 5404319552844595)~0)%positive.
      rewrite binary_round_aux_even.
      * rewrite Pos.mul_comm. f_equal. lia.
      * rewrite fexp_eq. cbn [Zdigits2 digits2_pos]. rewrite Pos2Z.inj_succ.
        pose proof (digits_mul_le m 5404319552844595) as Hm.
        change (Zpos (digits2_pos 5404319552844595)) with 53 in Hm. lia.
Qed.

End FloatFacts.
(** ** Rounding to binary64: the shape of the result *)

Section RoundingFacts.

Lemma shr_1_m mrs : 0 <= shr_m mrs -> shr_m (shr_1 mrs) = Z.div2 (shr_m mrs).
Proof.
  destruct mrs as [m r s]. cbn [shr_m]. intros Hm.
  destruct m as [|[p|p|]|p]; try reflexivity. lia.
Qed.

Lemma iter_shr_m k mrs :
  0 <= shr_m mrs ->
  shr_m (@SpecFloat.iter_pos shr_record shr_1 k mrs) = Z.shiftr (shr_m mrs) (Zpos k).
Proof.
  intros Hm. induction k as [|k IH] using Pos.peano_ind.
  - cbn [SpecFloat.iter_pos]. rewrite shr_1_m by exact Hm. apply Z.div2_spec.
  - rewrite iter_pos_succ, shr_1_m, IH, Z.div2_spec, Z.shiftr_shiftr by
      (try rewrite IH; try apply Z.shiftr_nonneg; lia).
    f_equal. lia.
Qed.

Lemma digits_pos m : 0 < m -> Zdigits2 m = Z.log2 m + 1.
Proof. destruct m as [|p|p]; try lia. intros _. apply digits_log2. Qed.

(** What [shr_fexp] leaves of a positive mantissa whose digits reach
    above the least exponent. *)
Lemma shr_fexp_shape m e l :
  0 < m -> -1074 < Zdigits2 m + e ->
  let '(mrs, e') := shr_fexp F64.prec F64.emax m e l in
  0 < shr_m mrs /\ Zdigits2 (shr_m mrs) + e' = Zdigits2 m + e /\
  fexp F64.prec F64.emax (Zdigits2 m + e) <= e'.
Proof.
  intros Hm Hd. unfold shr_fexp, shr. rewrite fexp_eq.
  assert (shr_m (shr_record_of_loc m l) = m) as Hrec by now destruct l as [|[]].
  destruct (Z.max (Zdigits2 m + e - 53) (-1074) - e) as [|n|n] eqn:Hn;
    try (rewrite Hrec; repeat split; lia).
  rewrite iter_shr_m, Hrec by (rewrite Hrec; lia).
  rewrite (digits_pos m Hm) in *.
  assert (Zpos n <= Z.log2 m) as Hle by lia.
  assert (0 < Z.shiftr m (Zpos n)) as Hpos.
  { destruct (Z.shiftr_eq_0_iff m (Zpos n)) as [H1 _].
    pose proof (Z.shiftr_nonneg m (Zpos n)).
    destruct (Z.eq_dec (Z.shiftr m (Zpos n)) 0) as [E|E]; [|lia].
    destruct (H1 E) as [?|[_ ?]]; lia. }
  rewrite (digits_pos _ Hpos), Z.log2_shiftr by lia. repeat split; lia.
Qed.

Lemma round_nearest_even_shape m l :
  0 < m ->
  0 < round_nearest_even m l /\
  Zdigits2 m <= Zdigits2 (round_nearest_even m l) <= Zdigits2 m + 1.
Proof.
  intros Hm.
  assert (0 < m + 1 /\ Zdigits2 m <= Zdigits2 (m + 1) <= Zdigits2 m + 1) as Hsucc.
  { split; [lia|]. rewrite !digits_pos by lia.
    pose proof (Z.log2_le_mono m (m + 1)). pose proof (Z.log2_succ_le m).
    unfold Z.succ in *. lia. }
  unfold round_nearest_even. destruct l as [|[]]; try (split; lia); try exact Hsucc.
  destruct (IntDef.Z.even m); [split; lia | exact Hsucc].
Qed.

(** Rounding a positive mantissa gives a float of the same sign with
    at most 53 digits, or the infinity of that sign. *)
Lemma binary_round_aux_shape s m e l :
  0 < m -> -1074 < Zdigits2 m + e ->
  (exists m' e',
      binary_round_aux F64.prec F64.emax s m e l = S754_finite s m' e' /\
      Zpos (digits2_pos m') <= 53 /\ e' <= 971) \/
  binary_round_aux F64.prec F64.emax s m e l = S754_infinity s.
Proof.
  intros Hm Hd. unfold binary_round_aux.
  pose proof (shr_fexp_shape m e l Hm Hd) as H1.
  destruct (shr_fexp F64.prec F64.emax m e l) as [mrs1 e1].
  destruct H1 as (Hm1 & Hd1 & He1).
  destruct (round_nearest_even_shape (shr_m mrs1) (loc_of_shr_record mrs1) Hm1) as (Hr & Hdr).
  set (m1 := round_nearest_even (shr_m mrs1) (loc_of_shr_record mrs1)) in *.
  pose proof (shr_fexp_shape m1 e1 loc_Exact Hr ltac:(lia)) as H2.
  destruct (shr_fexp F64.prec F64.emax m1 e1 loc_Exact) as [mrs2 e2].
  destruct H2 as (Hm2 & Hd2 & He2). rewrite fexp_eq in He2.
  destruct (shr_m mrs2) as [|m2|m2] eqn:E2; try lia.
  destruct (e2 <=? F64.emax - F64.prec) eqn:Hle; [|now right].
  left. exists m2, e2. split; [reflexivity|].
  apply Z.leb_le in Hle. change (F64.emax - F64.prec) with 971 in Hle.
  cbn [Zdigits2] in Hd2. split; lia.
Qed.

Lemma c10_0_eq : F64.c10_0 = S754_finite false 5629499534213120 (-49).
Proof. vm_compute. reflexivity. Qed.

(** Ten times a valid finite float that is not zero. *)
Lemma mul_ten_shape s m e :
  F64.valid (S754_finite s m e) = true ->
  (exists m' e',
      F64.mul (S754_finite s m e) F64.c10_0 = S754_finite s m' e' /\
      Zpos (digits2_pos m') <= 53 /\ e' <= 971) \/
  F64.mul (S754_finite s m e) F64.c10_0 = S754_infinity s.
Proof.
  intros [Hc He]%valid_finite. rewrite c10_0_eq. unfold F64.mul, SFmul.
  rewrite xorb_false_r. apply binary_round_aux_shape; [lia|].
  cbn [Zdigits2]. pose proof (digits_mul_le m 5629499534213120) as Hm.
  change (Zpos (digits2_pos 5629499534213120)) with 53 in Hm.
  pose proof (Pos2Z.is_pos (digits2_pos m)). lia.
Qed.

End RoundingFacts.
(** ** The nearest integer of a float, as a float *)

Section NearestInteger.

Lemma round_half_even_one n : F64.round_half_even n 1 = n.
Proof.
  unfold F64.round_half_even. rewrite Z.div_1_r, Z.mod_1_r. reflexivity.
Qed.

Lemma round_half_even_le n d :
  0 <= F64.round_half_even (Zpos n) d <= Zpos n.
Proof.
  unfold F64.round_half_even.
  pose proof (Z.div_mod (Zpos n) (Zpos d) ltac:(lia)) as Hdm.
  pose proof (Z.mod_pos_bound (Zpos n) (Zpos d) ltac:(lia)) as Hr.
  pose proof (Z.div_pos (Zpos n) (Zpos d) ltac:(lia) ltac:(lia)) as Hq.
  set (q := Zpos n / Zpos d) in *. set (r := Zpos n mod Zpos d) in *.
  assert (q <= Zpos n) as Hqn by nia.
  assert (0 < r -> q + 1 <= Zpos n) as Hup by nia.
  destruct (2 * r ?= Zpos d) eqn:E.
  - apply Z.compare_eq in E. destruct (Z.even q); lia.
  - lia.
  - apply Z.compare_gt_iff in E. lia.
Qed.

Lemma digits_iter_xO j m :
  Zpos (digits2_pos (Nat.iter j xO m)) = Zpos (digits2_pos m) + Z.of_nat j.
Proof.
  induction j as [|j IH]; [cbn [Nat.iter nat_rect]; lia|].
  rewrite Nat.iter_succ. cbn [digits2_pos]. rewrite Pos2Z.inj_succ, IH. lia.
Qed.

Lemma iter_xO_value j m : Zpos (Nat.iter j xO m) = Zpos m * 2 ^ Z.of_nat j.
Proof.
  induction j as [|j IH]; [cbn [Nat.iter nat_rect]; lia|].
  rewrite Nat.iter_succ, Pos2Z.inj_xO, IH, Nat2Z.inj_succ, Z.pow_succ_r by lia. lia.
Qed.

(** An exact factor [2^j] of the mantissa goes to the exponent. *)
Lemma binary_round_aux_strip s j m e :
  e + Z.of_nat j <= fexp F64.prec F64.emax (Zpos (digits2_pos (Nat.iter j xO m)) + e) ->
  binary_round_aux F64.prec F64.emax s (Zpos (Nat.iter j xO m)) e loc_Exact =
  binary_round_aux F64.prec F64.emax s (Zpos m) (e + Z.of_nat j) loc_Exact.
Proof.
  revert e. induction j as [|j IH]; intros e Hle.
  - cbn [Nat.iter nat_rect]. f_equal. lia.
  - rewrite Nat.iter_succ in Hle |- *. rewrite binary_round_aux_even.
    + rewrite IH; [f_equal; lia|].
      cbn [digits2_pos] in Hle. rewrite Pos2Z.inj_succ in Hle.
      replace (Zpos (digits2_pos (Nat.iter j xO m)) + (e + 1))
        with (Z.succ (Zpos (digits2_pos (Nat.iter j xO m))) + e) by lia. lia.
    + cbn [Zdigits2]. lia.
Qed.

(** The float of an integer [m * 2^k] of at most 53 significant bits
    is finite. *)
Lemma binary_round_integer s m k :
  Zpos (digits2_pos m) <= 53 -> Z.of_nat k <= 971 ->
  exists m' e', binary_round F64.prec F64.emax s (Nat.iter k xO m) 0 = S754_finite s m' e'.
Proof.
  intros Hm Hk. unfold binary_round. rewrite digits_iter_xO, Z.add_0_r, fexp_eq.
  pose proof (Pos2Z.is_pos (digits2_pos m)) as Hpos.
  rewrite Z.max_l by lia. unfold shl_align.
  set (F := Zpos (digits2_pos m) + Z.of_nat k - 53).
  destruct (F - 0) as [|d|d] eqn:Hd.
  - rewrite binary_round_aux_stay by (cbn [Zdigits2]; rewrite digits_iter_xO, fexp_eq; lia).
    cbn. eauto.
  - assert (F = Z.of_nat (Pos.to_nat d)) as HF by (rewrite positive_nat_Z; lia).
    assert (Nat.iter k xO m = Nat.iter (Pos.to_nat d) xO (Nat.iter (k - Pos.to_nat d) xO m))
      as ->.
    { rewrite <- Nat.iter_add. f_equal. lia. }
    rewrite binary_round_aux_strip.
    + rewrite binary_round_aux_stay.
      * assert ((0 + Z.of_nat (Pos.to_nat d) <=? 971) = true) as -> by (apply Z.leb_le; lia).
        eauto.
      * cbn [Zdigits2]. rewrite digits_iter_xO, fexp_eq. lia.
    + rewrite !digits_iter_xO, fexp_eq. lia.
  - rewrite Pos2Nat.inj_iter.
    change (nat_rect (fun _ => positive) (Nat.iter k xO m) (fun _ => xO) (Pos.to_nat d))
      with (Nat.iter (Pos.to_nat d) xO (Nat.iter k xO m)).
    rewrite binary_round_aux_stay.
    + assert ((F <=? 971) = true) as -> by (apply Z.leb_le; lia). eauto.
    + cbn [Zdigits2]. rewrite !digits_iter_xO, fexp_eq, positive_nat_Z. lia.
Qed.

Lemma of_int_integer s m k :
  Zpos (digits2_pos m) <= 53 -> Z.of_nat k <= 971 ->
  exists rf, F64.of_int (cond_Zopp s (Zpos (Nat.iter k xO m))) = Ok rf.
Proof.
  intros Hm Hk. unfold F64.of_int, F64.of_Z.
  assert (binary_normalize F64.prec F64.emax (cond_Zopp s (Zpos (Nat.iter k xO m))) 0 false =
          binary_round F64.prec F64.emax s (Nat.iter k xO m) 0) as -> by now destruct s.
  destruct (binary_round_integer s m k Hm Hk) as (m' & e' & ->). eauto.
Qed.

Lemma digits_le_mono a b : (a <= b)%positive -> Zpos (digits2_pos a) <= Zpos (digits2_pos b).
Proof.
  intros Hab. rewrite !digits_log2. apply Z.add_le_mono_r, Z.log2_le_mono. lia.
Qed.

(** [round] of a finite float, and the float of that integer. *)
Lemma round_of_int s m e :
  Zpos (digits2_pos m) <= 53 -> e <= 971 ->
  exists r rf, F64.round (S754_finite s m e) = Ok r /\ F64.of_int r = Ok rf.
Proof.
  intros Hm He. unfold F64.round, F64.to_ratio. destruct e as [|k|k].
  - rewrite round_half_even_one.
    destruct (of_int_integer s m 0 Hm ltac:(lia)) as [rf Hrf]. eauto.
  - rewrite round_half_even_one.
    assert ((m * 2 ^ k)%positive = Nat.iter (Pos.to_nat k) xO m) as ->.
    { apply Pos2Z.inj. rewrite iter_xO_value, Pos2Z.inj_mul, Pos2Z.inj_pow, positive_nat_Z.
      reflexivity. }
    destruct (of_int_integer s m (Pos.to_nat k) Hm ltac:(rewrite positive_nat_Z; lia))
      as [rf Hrf]. eauto.
  - pose proof (round_half_even_le m (2 ^ k)) as Hr.
    destruct (F64.round_half_even (Zpos m) (2 ^ k)) as [|r|r]; try lia.
    + destruct s; cbn; eauto.
    + destruct (of_int_integer s r 0) as [rf Hrf]; [|lia|eauto].
      pose proof (digits_le_mono r m ltac:(lia)). lia.
Qed.

End NearestInteger.
(** ** Significant digits *)

Section SignificantFacts.

Lemma size_nat_gt n : Zpos n < 2 ^ Z.of_nat (Pos.size_nat n).
Proof.
  induction n as [n IH|n IH|]; cbn [Pos.size_nat].
  - rewrite Nat2Z.inj_succ, Z.pow_succ_r, Pos2Z.inj_xI by lia. lia.
  - rewrite Nat2Z.inj_succ, Z.pow_succ_r, Pos2Z.inj_xO by lia. lia.
  - reflexivity.
Qed.

Lemma scale_down_lt fuel hi n d x :
  Zpos n < 2 ^ Z.of_nat fuel * (Zpos hi * Zpos d) ->
  let r := Fmt.scale_down fuel hi n d x in
  r.1.1 = n /\ Zpos n < Zpos hi * Zpos r.1.2.
Proof.
  revert d x. induction fuel as [|fuel IH]; intros d x Hlt; cbn [Fmt.scale_down].
  - cbn [fst snd]. split; [reflexivity|]. rewrite Z.pow_0_r in Hlt. lia.
  - destruct (hi * d <=? n)%positive eqn:E.
    + apply IH. rewrite Nat2Z.inj_succ, Z.pow_succ_r in Hlt by lia.
      rewrite Pos2Z.inj_mul. pose proof (Z.pow_pos_nonneg 2 (Z.of_nat fuel) ltac:(lia) ltac:(lia)).
      nia.
    + apply Pos.leb_gt in E. cbn [fst snd]. split; [reflexivity|]. lia.
Qed.

Lemma scale_up_lt fuel lo hi n d x :
  Zpos hi = 10 * Zpos lo -> Zpos n < Zpos hi * Zpos d ->
  let r := Fmt.scale_up fuel lo n d x in
  Zpos r.1.1 < Zpos hi * Zpos r.1.2.
Proof.
  intros Hhi. revert n x. induction fuel as [|fuel IH]; intros n x Hlt; cbn [Fmt.scale_up].
  - exact Hlt.
  - destruct (n <? lo * d)%positive eqn:E; [|exact Hlt].
    apply IH. apply Pos.ltb_lt in E. lia.
Qed.

Lemma round_half_even_near n d :
  Zpos n / Zpos d <= F64.round_half_even (Zpos n) d <= Zpos n / Zpos d + 1.
Proof.
  unfold F64.round_half_even. destruct (_ ?= _); [destruct (Z.even _)| |]; lia.
Qed.

(** The digits that [round_sig] returns are fewer than [10^p]. *)
Lemma round_sig_lt p n d :
  (1 <= p)%nat ->
  let r := Fmt.round_sig p n d in 0 <= r.1 < Zpos (PyFloat.pow10 p).
Proof.
  intros Hp. unfold Fmt.round_sig.
  assert (Zpos (PyFloat.pow10 p) = 10 * Zpos (PyFloat.pow10 (p - 1))) as Hhi.
  { destruct p as [|p]; [lia|]. replace (S p - 1)%nat with p by lia.
    unfold PyFloat.pow10. rewrite Nat.iter_succ. apply Pos2Z.inj_mul. }
  pose proof (scale_down_lt (Pos.size_nat n) (PyFloat.pow10 p) n d (Z.of_nat p - 1)) as Hdown.
  destruct (Fmt.scale_down _ _ n d _) as [[n1 d1] x1]. cbn [fst snd] in Hdown.
  destruct Hdown as [-> Hlt1].
  { pose proof (size_nat_gt n) as Hn.
    set (P := 2 ^ Z.of_nat (Pos.size_nat n)) in *.
    set (hd := Zpos (PyFloat.pow10 p) * Zpos d).
    assert (1 <= hd) by (subst hd; nia). nia. }
  pose proof (scale_up_lt (Pos.size_nat d1 + 4 * p) (PyFloat.pow10 (p - 1)) (PyFloat.pow10 p)
                n d1 x1 Hhi Hlt1) as Hup.
  destruct (Fmt.scale_up _ _ n d1 x1) as [[n2 d2] x2]. cbn [fst snd] in Hup.
  pose proof (round_half_even_near n2 d2) as Hq.
  assert (0 <= Zpos n2 / Zpos d2 <= Zpos (PyFloat.pow10 p) - 1) as Hdiv.
  { split; [apply Z.div_pos; lia|].
    assert (Zpos n2 / Zpos d2 < Zpos (PyFloat.pow10 p)); [|lia].
    apply Z.div_lt_upper_bound; lia. }
  destruct (_ =? _) eqn:E; cbn [fst].
  - lia.
  - apply Z.eqb_neq in E. lia.
Qed.

End SignificantFacts.
Section DecimalLength.

Lemma of_uint_acc_ge l acc :
  Zpos acc * 10 ^ Z.of_nat (Decimal.nb_digits l) <= Zpos (Pos.of_uint_acc l acc).
Proof.
  revert acc. induction l as [|l IH|l IH|l IH|l IH|l IH|l IH|l IH|l IH|l IH|l IH]; intros acc;
    cbn [Pos.of_uint_acc Decimal.nb_digits];
    [rewrite Z.pow_0_r; lia|..];
    rewrite Nat2Z.inj_succ, Z.pow_succ_r by lia;
    pose proof (Z.pow_pos_nonneg 10 (Z.of_nat (Decimal.nb_digits l)) ltac:(lia) ltac:(lia));
    match goal with |- _ <= Zpos (Pos.of_uint_acc l ?a) => specialize (IH a) end; nia.
Qed.

Lemma string_of_uint_length u :
  String.length (NilEmpty.string_of_uint u) = Decimal.nb_digits u.
Proof.
  induction u; cbn [NilEmpty.string_of_uint String.length Decimal.nb_digits]; congruence.
Qed.

Lemma to_uint_normal n : Decimal.unorm (N.to_uint n) = N.to_uint n.
Proof.
  rewrite <- (DecimalN.Unsigned.of_to n) at 2. symmetry. apply DecimalN.Unsigned.to_of.
Qed.

(** A natural number below [10^k] has at most [k] decimal digits. *)
Lemma to_uint_digits n k :
  (1 <= k)%nat -> Z.of_N n < 10 ^ Z.of_nat k -> (Decimal.nb_digits (N.to_uint n) <= k)%nat.
Proof.
  intros Hk Hn. pose proof (to_uint_normal n) as Hnorm.
  pose proof (DecimalN.Unsigned.of_to n) as Hval.
  assert (forall l (a : positive),
             N.pos (Pos.of_uint_acc l a) = n -> (S (Decimal.nb_digits l) <= k)%nat) as Hhead.
  { intros l a Ha. pose proof (of_uint_acc_ge l a) as Hge.
    assert (10 ^ Z.of_nat (Decimal.nb_digits l) < 10 ^ Z.of_nat k) as Hpow.
    { pose proof (Z.pow_pos_nonneg 10 (Z.of_nat (Decimal.nb_digits l)) ltac:(lia) ltac:(lia)).
      rewrite <- Ha in Hn. cbn [Z.of_N] in Hn. nia. }
    apply Z.pow_lt_mono_r_iff in Hpow; lia. }
  destruct (N.to_uint n) as [|l|l|l|l|l|l|l|l|l|l]; cbn [Decimal.nb_digits];
    try (cbn [N.of_uint Pos.of_uint] in Hval; now apply (Hhead l _ Hval)).
  - lia.
  - unfold Decimal.unorm in Hnorm. cbn [Decimal.nzhead] in Hnorm.
    destruct (Decimal.nzhead l) eqn:Hz; try discriminate Hnorm.
    + injection Hnorm as <-. cbn [Decimal.nb_digits]. lia.
    + exfalso. apply (DecimalFacts.nzhead_nonzero l u). exact Hz.
Qed.

Lemma dec_length q k :
  (1 <= k)%nat -> 0 <= q < 10 ^ Z.of_nat k -> (String.length (Fmt.dec q) <= k)%nat.
Proof.
  intros Hk Hq. unfold Fmt.dec, NilZero.string_of_uint.
  pose proof (to_uint_digits (Z.to_N q) k Hk ltac:(rewrite Z2N.id; lia)) as Hd.
  destruct (N.to_uint (Z.to_N q)) eqn:E; rewrite <- ?E, ?string_of_uint_length, ?E;
    [cbn; lia | exact Hd..].
Qed.

End DecimalLength.
Section GeneralFormat.

Lemma mantissa_digits_length s : (length (Fmt.mantissa_digits s) <= String.length s)%nat.
Proof.
  induction s as [|c s IH]; cbn [Fmt.mantissa_digits String.length length]; [lia|].
  destruct (Ascii.eqb c "e"); [cbn [length]; lia|].
  destruct (Str.isdigit c); cbn [length]; lia.
Qed.

Lemma mantissa_digits_app a b :
  (length (Fmt.mantissa_digits (a ++ b))
   <= length (Fmt.mantissa_digits a) + length (Fmt.mantissa_digits b))%nat.
Proof.
  induction a as [|c a IH]; cbn [String.append Fmt.mantissa_digits length]; [lia|].
  destruct (Ascii.eqb c "e"); [cbn [length]; lia|].
  destruct (Str.isdigit c); cbn [length]; lia.
Qed.

Lemma drop_zeros_length l : (length (Fmt.drop_zeros l) <= length l)%nat.
Proof.
  induction l as [|c l IH]; cbn [Fmt.drop_zeros length]; [lia|].
  destruct (Ascii.eqb c "0"); cbn [length]; lia.
Qed.

Lemma rstrip0_length s : (String.length (Fmt.rstrip0 s) <= String.length s)%nat.
Proof.
  induction s as [|c s IH]; cbn [Fmt.rstrip0 String.length]; [lia|].
  destruct (Fmt.rstrip0 s) as [|c' r]; cbn [String.length] in *.
  - destruct (Ascii.eqb c "0"); cbn [String.length]; lia.
  - lia.
Qed.

Lemma substring_length n m s :
  (String.length (String.substring n m s) <= Nat.min m (String.length s - n))%nat.
Proof.
  revert n m. induction s as [|c s IH]; intros [|n] [|m];
    cbn [String.substring String.length]; try lia.
  - specialize (IH 0%nat m). lia.
  - specialize (IH n 0%nat). cbn [Nat.sub]. lia.
  - specialize (IH n (S m)). cbn [Nat.sub]. lia.
Qed.

Lemma split_digits_length k ds frac :
  frac = Fmt.rstrip0 (Fmt.substring_from k ds) ->
  (length (Fmt.mantissa_digits
             (String.substring 0 k ds ++
              match frac with
              | EmptyString => EmptyString
              | _ => "." ++ frac
              end)) <= String.length ds)%nat.
Proof.
  intros Hfrac.
  pose proof (mantissa_digits_app (String.substring 0 k ds)
                match frac with EmptyString => EmptyString | _ => "." ++ frac end) as Happ.
  pose proof (mantissa_digits_length (String.substring 0 k ds)) as H1.
  pose proof (substring_length 0 k ds) as H2.
  pose proof (rstrip0_length (Fmt.substring_from k ds)) as H3. rewrite <- Hfrac in H3.
  pose proof (substring_length k (String.length ds - k) ds) as H4.
  fold (Fmt.substring_from k ds) in H4.
  assert (length (Fmt.mantissa_digits
                    match frac with EmptyString => EmptyString | _ => "." ++ frac end)
          <= String.length frac)%nat as H5.
  { destruct frac as [|c f]; [cbn; lia|]. apply (mantissa_digits_length (String c f)). }
  lia.
Qed.

Lemma drop_leading_zeros j t :
  Fmt.drop_zeros (Fmt.mantissa_digits (Fmt.zeros j ++ t))
  = Fmt.drop_zeros (Fmt.mantissa_digits t).
Proof. induction j as [|j IH]; [reflexivity | exact IH]. Qed.

(** The text of the digits [ds] in the style of [g] has no more
    significant digits than [ds] has characters. *)
Lemma general_text_digits ds x :
  (Fmt.significant_digits (Fmt.general_text ds x) <= String.length ds)%nat.
Proof.
  unfold Fmt.significant_digits, Fmt.general_text.
  destruct ((-4 <=? x) && (x <? 6)).
  - destruct (0 <=? x).
    + etransitivity; [apply drop_zeros_length|]. now apply split_digits_length.
    + change ("0." ++ Fmt.zeros (Z.to_nat (- x - 1)) ++ Fmt.rstrip0 ds)
        with (Fmt.zeros 1 ++ "." ++ Fmt.zeros (Z.to_nat (- x - 1)) ++ Fmt.rstrip0 ds).
      rewrite drop_leading_zeros.
      change (Fmt.mantissa_digits ("." ++ Fmt.zeros (Z.to_nat (- x - 1)) ++ Fmt.rstrip0 ds))
        with (Fmt.mantissa_digits (Fmt.zeros (Z.to_nat (- x - 1)) ++ Fmt.rstrip0 ds)).
      rewrite drop_leading_zeros.
      pose proof (drop_zeros_length (Fmt.mantissa_digits (Fmt.rstrip0 ds))).
      pose proof (mantissa_digits_length (Fmt.rstrip0 ds)).
      pose proof (rstrip0_length ds). lia.
  - etransitivity; [apply drop_zeros_length|].
    set (frac := Fmt.rstrip0 (Fmt.substring_from 1 ds)).
    rewrite <- append_assoc.
    etransitivity; [apply mantissa_digits_app|].
    pose proof (split_digits_length 1 ds frac eq_refl) as Hsplit.
    change (Fmt.mantissa_digits ("e" ++ Fmt.exponent_text x)) with (@nil ascii).
    cbn [length]. lia.
Qed.

Lemma sign_text_digits s t :
  Fmt.mantissa_digits (Fmt.sign_text s ++ t) = Fmt.mantissa_digits t.
Proof. now destruct s. Qed.

(** [format(x, '.6g')] has six significant digits at most. *)
Lemma general6_digits x : (Fmt.significant_digits (Fmt.general6 x) <= 6)%nat.
Proof.
  unfold Fmt.general6. destruct x as [s|s| |s m e].
  - destruct s; vm_compute; lia.
  - destruct s; vm_compute; lia.
  - vm_compute; lia.
  - destruct (F64.to_ratio m e) as [n d].
    pose proof (round_sig_lt 6 n d ltac:(lia)) as Hq.
    destruct (Fmt.round_sig 6 n d) as [q x10]. cbn [fst] in Hq.
    unfold Fmt.significant_digits. rewrite sign_text_digits.
    etransitivity; [apply general_text_digits|].
    apply dec_length; [lia|]. exact Hq.
Qed.

End GeneralFormat.
(** ** The pressure field *)

Section PressureFacts.

Lemma negative_times_ten p :
  F64.valid p = true -> F64.ltb p F64.zero = true ->
  F64.ltb (F64.mul p F64.c10_0) F64.zero = true.
Proof.
  intros Hv Hneg. destruct p as [s|s| |s m e]; try discriminate Hneg.
  - destruct s; [reflexivity | discriminate Hneg].
  - destruct s; [|discriminate Hneg].
    destruct (mul_ten_shape true m e Hv) as [(m' & e' & -> & _)| ->]; reflexivity.
Qed.

Lemma nonnegative_times_ten p :
  F64.valid p = true -> F64.ltb p F64.zero = false ->
  F64.ltb (F64.mul p F64.c10_0) F64.zero = false.
Proof.
  intros Hv Hneg. destruct p as [s|s| |s m e]; try reflexivity.
  - destruct s; [discriminate Hneg | reflexivity].
  - destruct s; [discriminate Hneg|].
    destruct (mul_ten_shape false m e Hv) as [(m' & e' & -> & _)| ->]; reflexivity.
Qed.

Lemma finite_times_ten p :
  F64.valid p = true -> F64.is_finite (F64.mul p F64.c10_0) = true ->
  exists r rf, F64.round (F64.mul p F64.c10_0) = Ok r /\ F64.of_int r = Ok rf.
Proof.
  intros Hv Hfin. destruct p as [s|s| |s m e]; try discriminate Hfin.
  - exists 0, (S754_zero false). split; reflexivity.
  - destruct (mul_ten_shape s m e Hv) as [(m' & e' & Hx & Hm & He)|Hx];
      rewrite Hx in Hfin |- *; [|discriminate Hfin].
    now apply round_of_int.
Qed.

Lemma infinite_times_ten p :
  F64.valid p = true -> F64.ltb p F64.zero = false ->
  F64.is_finite (F64.mul p F64.c10_0) = false ->
  F64.mul p F64.c10_0 = if F64.is_nan p then S754_nan else S754_infinity false.
Proof.
  intros Hv Hneg Hfin. destruct p as [s|s| |s m e]; try discriminate Hfin.
  - destruct s; [discriminate Hneg | reflexivity].
  - reflexivity.
  - destruct s; [discriminate Hneg|].
    destruct (mul_ten_shape false m e Hv) as [(m' & e' & Hx & _)|Hx];
      rewrite Hx in Hfin |- *; [discriminate Hfin | reflexivity].
Qed.

End PressureFacts.

(** ** The distance matrix *)

Section MatrixFacts.

Lemma rmap_ok_map {A B} (f : A -> result B) (g : A -> B) l :
  (forall x, In x l -> f x = Ok (g x)) -> rmap f l = Ok (map g l).
Proof.
  induction l as [|x l IH]; intros Hf; simpl; [reflexivity|].
  rewrite (Hf x) by now left. simpl.
  rewrite IH by (intros y Hy; apply Hf; now right). reflexivity.
Qed.

Lemma item_radius (d : Dict.t F64.float) k :
  In k (Dict.keys d) -> Dict.item d k = Ok (radius d k).
Proof.
  unfold Dict.item, radius. induction d as [|[k' v] d IH]; simpl; [tauto|].
  intros [->|Hk].
  - now rewrite String.eqb_refl.
  - destruct (String.eqb k k'); [reflexivity | auto].
Qed.

Lemma calculate_distance_of_ion_eq (d : Dict.t F64.float) :
  calculate_distance_of_ion d =
  Ok (map (fun ki => map (fun kj => entry d ki kj) (Dict.keys d)) (Dict.keys d)).
Proof.
  unfold calculate_distance_of_ion. apply rmap_ok_map. intros ki Hi.
  apply rmap_ok_map. intros kj Hj.
  rewrite (item_radius d ki Hi), (item_radius d kj Hj). reflexivity.
Qed.

Lemma lookup_map {A B} (f : A -> B) (l : list A) i :
  map f l !! i = option_map f (l !! i).
Proof. revert i. induction l as [|x l IH]; intros [|i]; simpl; auto. Qed.

Lemma at_matrix (d : Dict.t F64.float) i j :
  at_ (map (fun ki => map (fun kj => entry d ki kj) (Dict.keys d)) (Dict.keys d)) i j =
  match Dict.keys d !! i, Dict.keys d !! j with
  | Some ki, Some kj => Some (entry d ki kj)
  | _, _ => None
  end.
Proof.
  unfold at_. rewrite lookup_map.
  destruct (Dict.keys d !! i) as [ki|]; simpl; [|reflexivity].
  rewrite lookup_map. now destruct (Dict.keys d !! j).
Qed.

Lemma entry_sym d ki kj : entry d ki kj = entry d kj ki.
Proof. unfold entry. now rewrite add_comm. Qed.

Lemma get_nth (d : Dict.t F64.float) i k v :
  NoDup (Dict.keys d) -> d !! i = Some (k, v) -> Dict.get d k = Some v.
Proof.
  revert i. induction d as [|[k' v'] d IH]; intros i Hnd Hi; [discriminate|].
  simpl in Hnd. apply NoDup_cons in Hnd as [Hk' Hnd].
  destruct i as [|i]; simpl in *.
  - injection Hi as -> ->. now rewrite String.eqb_refl.
  - destruct (String.eqb k k') eqn:E.
    + apply String.eqb_eq in E as ->. exfalso. apply Hk'.
      apply list_elem_of_lookup. exists i. unfold Dict.keys.
      rewrite lookup_map, Hi. reflexivity.
    + eauto.
Qed.

Lemma keys_nth (d : Dict.t F64.float) i k v :
  d !! i = Some (k, v) -> Dict.keys d !! i = Some k.
Proof. intros H. unfold Dict.keys. now rewrite lookup_map, H. Qed.

End MatrixFacts.


(** ** The monad of effects and the file system *)

Section MonadFacts.

Lemma bind_run {A B} (m : io A) (f : A -> io B) w :
  (m ≫= f) w =
  match m w with
  | (Ok a, w1) => f a w1
  | (Raise e, w1) => (Raise e, w1)
  end.
Proof. reflexivity. Qed.

Lemma bind_ok_inv {A B} (m : io A) (f : A -> io B) w b w2 :
  (m ≫= f) w = (Ok b, w2) ->
  exists a w1, m w = (Ok a, w1) /\ f a w1 = (Ok b, w2).
Proof.
  rewrite bind_run. destruct (m w) as [[a|e] w1]; [eauto | discriminate].
Qed.

Lemma lift_ok_inv {A} (r : result A) w a w1 :
  lift r w = (Ok a, w1) -> r = Ok a /\ w1 = w.
Proof. unfold lift. now intros [= -> ->]. Qed.


(** A loop that ends well keeps what every turn keeps. *)
Lemma for_each_ok {A S} (body : S -> A -> io S) (inv : list A -> S -> world -> Prop) l s w s' w' :
  inv [] s w ->
  (forall done x s1 w1 s2 w2,
      In x l -> inv done s1 w1 -> body s1 x w1 = (Ok s2, w2) -> inv (done ++ [x])%list s2 w2) ->
  for_each body l s w = (Ok s', w') -> inv l s' w'.
Proof.
  intros H0 Hstep.
  assert (forall done, (forall x, In x l -> In x l) -> inv done s w ->
            for_each body l s w = (Ok s', w') -> inv (done ++ l)%list s' w') as Hgen.
  { clear H0. revert s w Hstep. induction l as [|x l IH]; intros s w Hstep done _ Hinv Hrun.
    - cbn in Hrun. injection Hrun as <- <-. now rewrite app_nil_r.
    - cbn [for_each] in Hrun. apply bind_ok_inv in Hrun as (s1 & w1 & Hx & Hrest).
      replace (done ++ x :: l)%list with ((done ++ [x]) ++ l)%list
        by now rewrite <- app_assoc.
      apply (IH s1 w1); auto.
      + intros d y a b c e Hy. apply Hstep. now right.
      + eapply Hstep; eauto. now left. }
  intros Hrun. apply (Hgen [] (fun _ H => H) H0 Hrun).
Qed.

End MonadFacts.

Section FsFacts.

Lemma mkdir_p_ok p w w' :
  Fs.mkdir_p p w = (Ok tt, w') ->
  files w' = files w /\ dirs w' = dirs w ∪ list_to_set (Path.parents p) /\
  undeletable w' = undeletable w /\ stdout w' = stdout w.
Proof.
  unfold Fs.mkdir_p. destruct (Fs.is_file w p); [discriminate|].
  destruct (List.find _ _); [discriminate|]. intros [= <-]. auto.
Qed.

Lemma mkdir_p_files p w : files (snd (Fs.mkdir_p p w)) = files w.
Proof.
  unfold Fs.mkdir_p. destruct (Fs.is_file w p); [reflexivity|].
  now destruct (List.find _ _).
Qed.

Lemma write_ok p data w w' :
  Fs.write p data w = (Ok tt, w') ->
  files w' = <[p := data]> (files w) /\ dirs w' = dirs w /\
  undeletable w' = undeletable w /\ stdout w' = stdout w /\ p ∉ dirs w.
Proof.
  unfold Fs.write, Fs.is_dir. case_bool_decide as Hd; [discriminate|].
  case_bool_decide; [|destruct (Fs.is_file _ _); discriminate].
  intros [= <-]. auto.
Qed.

Lemma print_ok line w r w' :
  Fs.print line w = (r, w') ->
  r = Ok tt /\ files w' = files w /\ dirs w' = dirs w /\ undeletable w' = undeletable w /\
  stdout w' = (stdout w ++ [line])%list.
Proof. unfold Fs.print. intros [= <- <-]. auto. Qed.

Lemma read_text_ok p w text w' :
  Fs.read_text p w = (Ok text, w') ->
  w' = w /\ exists data, files w !! p = Some data /\ text = Fs.universal_newlines data.
Proof.
  unfold Fs.read_text. destruct (files w !! p) as [data|].
  - intros [= <- <-]. eauto.
  - destruct (Fs.is_dir w p); discriminate.
Qed.

Lemma read_text_world p w : snd (Fs.read_text p w) = w.
Proof.
  unfold Fs.read_text. destruct (files w !! p); [reflexivity|].
  now destruct (Fs.is_dir w p).
Qed.

Lemma copy_ok src dst w w' :
  Fs.copy src dst w = (Ok tt, w') ->
  exists data, files w !! src = Some data /\
    files w' = <[(if Fs.is_dir w dst then dst ++ [Path.name src] else dst)%list := data]> (files w) /\
    dirs w' = dirs w /\ undeletable w' = undeletable w /\ stdout w' = stdout w.
Proof.
  unfold Fs.copy. destruct (files w !! src) as [data|].
  - intros (? & ? & ? & ? & _)%write_ok. eauto 10.
  - destruct (Fs.is_dir w src); discriminate.
Qed.

Lemma unlink_run p w :
  Fs.unlink p w =
  match files w !! p with
  | Some _ =>
      if bool_decide (p ∈ undeletable w) then (Raise (PermissionError (Path.str p)), w)
      else (Ok tt, World (delete p (files w)) (dirs w) (undeletable w) (stdout w))
  | None =>
      (Raise (if Fs.is_dir w p then IsADirectoryError (Path.str p)
              else FileNotFoundError (Path.str p)), w)
  end.
Proof.
  unfold Fs.unlink. destruct (files w !! p); [reflexivity|].
  now destruct (Fs.is_dir w p).
Qed.

Lemma child_of_spec root p name :
  Path.child_of root p = Some name <-> p = (root ++ [name])%list.
Proof.
  revert p. induction root as [|a root IH]; intros p.
  - destruct p as [|b [|c p]]; simpl; split; intros H; try discriminate; congruence.
  - destruct p as [|b p]; simpl.
    + split; discriminate.
    + destruct (String.eqb a b) eqn:E.
      * apply String.eqb_eq in E as ->. rewrite IH. split; congruence.
      * apply String.eqb_neq in E. split; [discriminate | congruence].
Qed.

Lemma subdir_names_ok root w names w' :
  Fs.subdir_names root w = (Ok names, w') ->
  w' = w /\ root ∈ dirs w /\ forall name, name ∈ names <-> (root ++ [name])%list ∈ dirs w.
Proof.
  unfold Fs.subdir_names, Fs.is_dir. case_bool_decide as Hr.
  - intros [= <- <-]. split; [reflexivity|]. split; [exact Hr|].
    intros name. rewrite elem_of_list_to_set, list_elem_of_omap.
    split.
    + intros (p & Hp%elem_of_elements & Hc). apply child_of_spec in Hc as ->. exact Hp.
    + intros Hd. exists (root ++ [name])%list. split; [now apply elem_of_elements|].
      now apply child_of_spec.
  - destruct (Fs.is_file w root); discriminate.
Qed.

End FsFacts.

(** ** The resolver [find_potcar] *)

Section FindPotcarFacts.

Lemma keys_set (d : Dict.t F64.float) k v :
  Dict.keys (Dict.set d k v) = record_key (Dict.keys d) k.
Proof.
  unfold record_key, Dict.keys. induction d as [|[k' v'] d IH]; cbn [Dict.set map fst].
  - rewrite bool_decide_eq_false_2 by apply not_elem_of_nil. reflexivity.
  - destruct (String.eqb k k') eqn:E.
    + apply String.eqb_eq in E as ->. cbn [map fst].
      rewrite bool_decide_eq_true_2 by apply list_elem_of_here. reflexivity.
    + apply String.eqb_neq in E. cbn [map fst]. rewrite IH.
      case_bool_decide as H1; case_bool_decide as H2; try reflexivity.
      * exfalso. apply H2. now apply list_elem_of_further.
      * exfalso. apply elem_of_cons in H2 as [?|?]; [congruence | auto].
Qed.

Lemma first_occurrences_snoc l x :
  first_occurrences (l ++ [x])%list = record_key (first_occurrences l) x.
Proof. unfold first_occurrences. now rewrite fold_left_app. Qed.

Lemma select_variant_of (names : gset string) (ds : gset path) root element :
  (forall name, name ∈ names <-> (root ++ [name])%list ∈ ds) ->
  select_variant names element = variant_of ds root element.
Proof.
  intros Hn. unfold select_variant, variant_of.
  generalize suffixes as l. induction l as [|s l IH]; simpl; [reflexivity|].
  rewrite IH. pose proof (Hn (element ++ s)) as Hs.
  do 2 case_bool_decide; try reflexivity; exfalso; tauto.
Qed.

(** A turn of the loop of [find_potcar] writes no file and makes no
    directory, whatever its outcome. *)
Lemma find_potcar_step_frame root names acc element w :
  let w' := snd (find_potcar_step root names acc element w) in
  files w' = files w /\ dirs w' = dirs w /\ undeletable w' = undeletable w.
Proof.
  destruct acc as [[content rw] picked]. unfold find_potcar_step.
  destruct (select_variant names element) as [suffix|]; [|auto].
  rewrite bind_run. unfold Fs.read_text.
  destruct (files w !! _) as [data|]; [|destruct (Fs.is_dir w _); auto].
  rewrite bind_run. unfold lift.
  destruct (choose_rwigs _ _) as [chosen|e]; auto.
Qed.

Lemma for_each_frame {A S} (body : S -> A -> io S) (P : world -> world -> Prop) l s w :
  (forall w, P w w) -> (forall w1 w2 w3, P w1 w2 -> P w2 w3 -> P w1 w3) ->
  (forall s x w, P w (snd (body s x w))) ->
  P w (snd (for_each body l s w)).
Proof.
  intros Hrefl Htrans Hbody. revert s w.
  induction l as [|x l IH]; intros s w; cbn [for_each]; [apply Hrefl|].
  rewrite bind_run. pose proof (Hbody s x w) as Hx.
  destruct (body s x w) as [[s1|e] w1]; cbn [snd] in *; [|exact Hx].
  eapply Htrans; [exact Hx | apply IH].
Qed.

Lemma find_potcar_step_ok root names acc element acc' w w' :
  find_potcar_step root names acc element w = (Ok acc', w') ->
  exists suffix data chosen,
    select_variant names element = Some suffix /\
    files w !! potcar_path_of root element suffix = Some data /\
    choose_rwigs (Fs.universal_newlines data) (potcar_path_of root element suffix) = Ok chosen /\
    acc' = ((acc.1.1 ++ [Fs.universal_newlines data])%list,
            Dict.set acc.1.2 element chosen, (acc.2 ++ [chosen])%list).
Proof.
  destruct acc as [[content rw] picked]. unfold find_potcar_step.
  destruct (select_variant names element) as [suffix|]; [|discriminate].
  intros (text & w1 & (-> & data & Hdata & ->)%read_text_ok & Hrest)%bind_ok_inv.
  apply bind_ok_inv in Hrest as (chosen & w2 & (Hch & ->)%lift_ok_inv & Hrest).
  apply bind_ok_inv in Hrest as (? & w3 & _ & Hret).
  injection Hret as <- _. exists suffix, data, chosen. auto.
Qed.


End FindPotcarFacts.
Section FindPotcarRun.

Lemma find_potcar_ok elements dest root w rw min_latom_dis w1 :
  find_potcar elements dest root w = (Ok (rw, min_latom_dis), w1) ->
  exists potcar,
    files w1 = <[(dest ++ ["POTCAR"])%list := potcar]> (files w) /\
    dirs w1 = dirs w ∪ list_to_set (Path.parents dest) /\
    undeletable w1 = undeletable w /\
    Dict.keys rw = first_occurrences elements.
Proof.
  unfold find_potcar.
  intros ([] & wa & (Hfa & Hda & Hua & _)%mkdir_p_ok & Hrest)%bind_ok_inv.
  apply bind_ok_inv in Hrest as (names & wa' & (-> & _ & Hnames)%subdir_names_ok & Hrest).
  apply bind_ok_inv in Hrest as (acc & wb & Hloop & Hrest).
  destruct acc as [[content rw'] picked].
  apply bind_ok_inv in Hrest as ([] & wc & (Hfc & Hdc & Huc & _)%write_ok & Hret).
  injection Hret as <- _ <-.
  pose proof (for_each_frame (find_potcar_step root names)
                (fun w w' => files w' = files w /\ dirs w' = dirs w /\
                             undeletable w' = undeletable w)
                elements ([], [], []) wa) as Hframe.
  rewrite Hloop in Hframe. cbn [snd] in Hframe.
  destruct Hframe as (Hfb & Hdb & Hub).
  { auto. }
  { intros w1 w2 w3 (? & ? & ?) (? & ? & ?). repeat split; congruence. }
  { intros s x w0. apply find_potcar_step_frame. }
  exists (Str.cat content). unfold Fs.write_text in *.
  split; [now rewrite Hfc, Hfb, Hfa|].
  split; [now rewrite Hdc, Hdb, Hda|].
  split; [now rewrite Huc, Hub, Hua|].
  apply (for_each_ok (find_potcar_step root names)
           (fun done acc _ => Dict.keys acc.1.2 = first_occurrences done)
           elements ([], [], []) wa (content, rw', picked) wb); [reflexivity | | exact Hloop].
  intros done x s1 w2 s2 w3 _ Hinv (suffix & data & chosen & _ & _ & _ & ->)%find_potcar_step_ok.
  cbn [fst snd]. now rewrite keys_set, first_occurrences_snoc, Hinv.
Qed.

End FindPotcarRun.

(** ** The orchestrator [setup_calypso] *)

Section SetupFacts.
Context `{Runtime}.

Lemma path_snoc_inj (p q : path) a b : (p ++ [a])%list = (q ++ [b])%list -> p = q /\ a = b.
Proof. intros Heq. now apply app_inj_tail in Heq. Qed.

Lemma path_ne_length (p q : path) : length p <> length q -> p <> q.
Proof. congruence. Qed.

Lemma create_input_dat_ok directory els counts matrix min_latom_dis two_d nl rz base ltm fv w w' :
  create_input_dat directory els counts matrix min_latom_dis two_d nl rz base ltm fv w
  = (Ok tt, w') ->
  exists two_d_parameters,
    two_d_parameters_of two_d nl rz base min_latom_dis (layer_type_str_of ltm) fv
    = Ok two_d_parameters /\
    files w' = <[(directory ++ ["input.dat"])%list :=
                   Template.input_content (system_name_of els counts)
                     (PyInt.str (Z.of_nat (length els))) (name_of_atoms_of els)
                     (number_of_atoms_of counts) (distance_of_ion_str_of matrix)
                     two_d_parameters]> (files w) /\
    dirs w' = dirs w ∪ list_to_set (Path.parents directory) /\
    undeletable w' = undeletable w.
Proof.
  unfold create_input_dat.
  intros ([] & wa & (Hfa & Hda & Hua & _)%mkdir_p_ok & Hrest)%bind_ok_inv.
  apply bind_ok_inv in Hrest as (t & wb & (Ht & ->)%lift_ok_inv & Hw).
  apply write_ok in Hw as (Hfw & Hdw & Huw & _).
  exists t. split; [exact Ht|]. split; [now rewrite Hfw, Hfa|].
  split; [now rewrite Hdw, Hda | now rewrite Huw, Hua].
Qed.

Lemma name_snoc (p : path) c : Path.name (p ++ [c])%list = c.
Proof. unfold Path.name. apply last_last. Qed.

(** Copying the files [names] of a directory into its subdirectory
    [sub]: a copy lands under its own name, or inside a directory of
    that name when there is one; nothing else changes. *)
Lemma copy_all_ok (dir : path) (sub : string) (text : string -> string) names w w' :
  for_each (fun _ file_name =>
              Fs.copy (dir ++ [file_name])%list ((dir ++ [sub]) ++ [file_name])%list) names tt w
  = (Ok tt, w') ->
  (forall f, f ∈ names -> files w !! (dir ++ [f])%list = Some (text f)) ->
  (forall f, f ∈ names -> ((dir ++ [sub]) ++ [f])%list ∉ dirs w ->
             files w' !! ((dir ++ [sub]) ++ [f])%list = Some (text f)) /\
  (forall p, (forall f, f ∈ names -> p <> ((dir ++ [sub]) ++ [f])%list) ->
             (forall f, f ∈ names -> p <> (((dir ++ [sub]) ++ [f]) ++ [f])%list) ->
             files w' !! p = files w !! p) /\
  dirs w' = dirs w /\ undeletable w' = undeletable w /\
  (forall f, f ∈ names -> ((dir ++ [sub]) ++ [f])%list ∈ dirs w ->
             files w' !! (((dir ++ [sub]) ++ [f]) ++ [f])%list = Some (text f)).
Proof.
  revert w. induction names as [|g names IH]; intros w Hrun Hsrc.
  - cbn in Hrun. injection Hrun as <-. repeat split; auto; intros f Hf; inversion Hf.
  - cbn [for_each] in Hrun.
    apply bind_ok_inv in Hrun as ([] & w1 & (data & Hdata & Hf1 & Hd1 & Hu1 & _)%copy_ok & Hrest).
    rewrite (Hsrc g) in Hdata by apply list_elem_of_here. injection Hdata as <-.
    rewrite name_snoc in Hf1.
    assert (forall p, p <> ((dir ++ [sub]) ++ [g])%list ->
                      p <> (((dir ++ [sub]) ++ [g]) ++ [g])%list ->
                      files w1 !! p = files w !! p) as Hframe1.
    { intros p Hp1 Hp2. rewrite Hf1. apply lookup_insert_ne.
      destruct (Fs.is_dir w _); congruence. }
    destruct (IH w1 Hrest) as (Hcopies & Hframe & Hd & Hu & Hnested).
    { intros f Hf. rewrite Hframe1; [apply Hsrc; now apply list_elem_of_further| |].
      - intros Heq. apply (f_equal length) in Heq. rewrite !length_app in Heq. simpl in Heq. lia.
      - intros Heq. apply (f_equal length) in Heq. rewrite !length_app in Heq. simpl in Heq. lia. }
    split; [|split; [|split; [congruence|split; [congruence|]]]].
    + intros f Hf Hnd. destruct (decide (f ∈ names)) as [Hin|Hnin].
      * apply Hcopies; [exact Hin | now rewrite Hd1].
      * apply elem_of_cons in Hf as [->|Hf]; [|contradiction].
        rewrite Hframe.
        -- rewrite Hf1. unfold Fs.is_dir. rewrite bool_decide_eq_false_2 by exact Hnd.
           apply lookup_insert_eq.
        -- intros h Hh [_ ->]%path_snoc_inj. contradiction.
        -- intros h Hh Heq. apply (f_equal length) in Heq. rewrite !length_app in Heq.
           simpl in Heq. lia.
    + intros p Hp1 Hp2. rewrite Hframe, Hframe1.
      * reflexivity.
      * apply Hp1, list_elem_of_here.
      * apply Hp2, list_elem_of_here.
      * intros f Hf. apply Hp1. now apply list_elem_of_further.
      * intros f Hf. apply Hp2. now apply list_elem_of_further.
    + intros f Hf Hdir. destruct (decide (f ∈ names)) as [Hin|Hnin].
      * apply Hnested; [exact Hin | now rewrite Hd1].
      * apply elem_of_cons in Hf as [->|Hf]; [|contradiction].
        rewrite Hframe.
        -- rewrite Hf1. unfold Fs.is_dir. rewrite bool_decide_eq_true_2 by exact Hdir.
           apply lookup_insert_eq.
        -- intros h Hh Heq. apply (f_equal length) in Heq. rewrite !length_app in Heq.
           simpl in Heq. lia.
        -- intros h Hh [_ ->]%path_snoc_inj. contradiction.
Qed.

End SetupFacts.
Section SetupLoop.
Context `{Runtime}.

Lemma files_to_copy_not_input_dat f : f ∈ files_to_copy -> f <> "input.dat".
Proof.
  unfold files_to_copy, calypso_fullnode_script, calypso_script.
  rewrite !elem_of_cons, elem_of_nil. intros [->|[->|[->|[->|[->|[->|[]]]]]]]; discriminate.
Qed.

Lemma parents_length (p q : path) : q ∈ Path.parents p -> (length q <= length p)%nat.
Proof.
  revert q. induction p as [|c p IH]; intros q Hq; simpl in Hq.
  - apply list_elem_of_singleton in Hq as ->. simpl. lia.
  - apply elem_of_cons in Hq as [->|Hq]; [simpl; lia|].
    apply list_elem_of_In, in_map_iff in Hq as (q' & <- & Hq'%list_elem_of_In).
    simpl. apply IH in Hq'. lia.
Qed.

Lemma longer_not_parent (p q : path) :
  (length p < length q)%nat -> q ∉ list_to_set (C:=gset path) (Path.parents p).
Proof. intros Hlt. rewrite elem_of_list_to_set. intros Hin%parents_length. lia. Qed.

(** One turn of the loop over the multipliers: the directory of the
    multiplier receives its descriptor and a copy of every shared
    file; nothing else changes. *)
Lemma setup_directory_ok config dest matrix min_latom_dis base_area created m w created' w'
    (text : string -> string) :
  setup_directory config dest matrix min_latom_dis base_area created m w = (Ok created', w') ->
  (forall f, f ∈ files_to_copy -> files w !! (dest ++ [f])%list = Some (text f)) ->
  created' = (created ++ [subdir dest m])%list /\
  (exists input, render_input_dat config matrix min_latom_dis base_area m = Ok input /\
                 files w' !! (subdir dest m ++ ["input.dat"])%list = Some input) /\
  (forall f, f ∈ files_to_copy -> (subdir dest m ++ [f])%list ∉ dirs w ->
             files w' !! (subdir dest m ++ [f])%list = Some (text f)) /\
  (forall p, (forall f, p <> (subdir dest m ++ [f])%list) ->
             (forall f g, p <> ((subdir dest m ++ [f]) ++ [g])%list) ->
             files w' !! p = files w !! p) /\
  dirs w' = dirs w ∪ list_to_set (Path.parents (subdir dest m)) /\
  undeletable w' = undeletable w /\
  (forall f, f ∈ files_to_copy -> (subdir dest m ++ [f])%list ∈ dirs w ->
             files w' !! ((subdir dest m ++ [f]) ++ [f])%list = Some (text f)).
Proof.
  unfold setup_directory. fold (subdir dest m).
  intros ([] & wa & (Hfa & Hda & Hua & _)%mkdir_p_ok & Hrest)%bind_ok_inv Hsrc.
  apply bind_ok_inv in Hrest as ([] & wb & Hcreate & Hrest).
  apply create_input_dat_ok in Hcreate as (two_d & Htwo & Hfb & Hdb & Hub).
  apply bind_ok_inv in Hrest as ([] & wc & Hcopy & Hrest).
  apply bind_ok_inv in Hrest as ([] & wd & (_ & Hfd & Hdd & Hud & _)%print_ok & Hret).
  injection Hret as <- <-.
  assert (dirs wb = dirs w ∪ list_to_set (Path.parents (subdir dest m))) as Hdb'.
  { rewrite Hdb, Hda, <- (assoc_L (∪)), (idemp_L (∪)). reflexivity. }
  unfold subdir in Hcopy.
  destruct (copy_all_ok dest (PyInt.str m) text files_to_copy wb wc Hcopy)
    as (Hcopies & Hframe & Hdc & Huc & Hnested).
  { intros f Hf. rewrite Hfb, lookup_insert_ne, Hfa; [now apply Hsrc|].
    unfold subdir. intros Heq. apply (f_equal length) in Heq.
    rewrite !length_app in Heq. simpl in Heq. lia. }
  fold (subdir dest m) in Hcopies, Hframe, Hnested.
  split; [reflexivity|]. split; [|split; [|split; [|split; [|split]]]].
  - eexists. split.
    + unfold render_input_dat. rewrite Htwo. reflexivity.
    + rewrite Hfd, Hframe, Hfb; [apply lookup_insert_eq| |].
      * intros f Hf [_ Heq]%path_snoc_inj. symmetry in Heq.
        now apply files_to_copy_not_input_dat in Hf.
      * intros f Hf Heq. apply (f_equal length) in Heq.
        rewrite !length_app in Heq. simpl in Heq. lia.
  - intros f Hf Hnd. rewrite Hfd. apply Hcopies; [exact Hf|].
    rewrite Hdb'. intros [Hin|Hin]%elem_of_union; [contradiction|].
    apply longer_not_parent in Hin; [exact Hin|]. rewrite length_app. simpl. lia.
  - intros p Hp1 Hp2. rewrite Hfd, Hframe, Hfb, lookup_insert_ne, Hfa; auto.
  - now rewrite Hdd, Hdc.
  - now rewrite Hud, Huc, Hub, Hua.
  - intros f Hf Hdir. rewrite Hfd. apply Hnested; [exact Hf|].
    rewrite Hdb'. now apply elem_of_union_l.
Qed.

End SetupLoop.

Section Cleanup.

(** Removing one shared file: it goes unless it may not be removed,
    and then the failure is printed; the step itself never fails. *)
Lemma remove_shared_run dest u f w :
  exists w1,
    remove_shared dest u f w = (Ok tt, w1) /\
    ((dest ++ [f])%list ∉ undeletable w -> files w1 = delete (dest ++ [f])%list (files w)) /\
    ((dest ++ [f])%list ∈ undeletable w ->
       files w1 = files w /\
       (is_Some (files w !! (dest ++ [f])%list) ->
        deletion_message (dest ++ [f])%list (PermissionError (Path.str (dest ++ [f])%list))
          ∈ stdout w1)) /\
    dirs w1 = dirs w /\ undeletable w1 = undeletable w /\
    (forall line, line ∈ stdout w -> line ∈ stdout w1).
Proof.
  unfold remove_shared, try_except. rewrite unlink_run.
  destruct (files w !! (dest ++ [f])%list) as [data|] eqn:Hfile.
  - case_bool_decide as Hu.
    + eexists. split; [reflexivity|]. cbn [files stdout dirs undeletable].
      split; [intros; contradiction|]. split; [|split; [|split]]; auto.
      * split; [reflexivity|]. intros _. apply elem_of_app. right. apply list_elem_of_here.
      * intros line Hl. apply elem_of_app. now left.
    + eexists. split; [reflexivity|]. cbn [files stdout dirs undeletable].
      split; [reflexivity|]. split; [intros; contradiction | auto].
  - eexists. split; [reflexivity|]. cbn [files stdout dirs undeletable].
    split; [|split; [|split; [|split]]]; auto.
    + intros _. symmetry. now apply delete_id.
    + intros _. split; [reflexivity|]. intros [? ?]. discriminate.
    + intros line Hl. apply elem_of_app. now left.
Qed.

Lemma remove_all dest names w :
  exists w',
    for_each (remove_shared dest) names tt w = (Ok tt, w') /\
    (forall f, f ∈ names -> (dest ++ [f])%list ∉ undeletable w ->
               files w' !! (dest ++ [f])%list = None) /\
    (forall f, f ∈ names -> (dest ++ [f])%list ∈ undeletable w ->
               files w' !! (dest ++ [f])%list = files w !! (dest ++ [f])%list /\
               (is_Some (files w !! (dest ++ [f])%list) ->
                deletion_message (dest ++ [f])%list
                  (PermissionError (Path.str (dest ++ [f])%list)) ∈ stdout w')) /\
    (forall p, (forall f, f ∈ names -> p <> (dest ++ [f])%list) -> files w' !! p = files w !! p) /\
    dirs w' = dirs w /\ undeletable w' = undeletable w /\
    (forall line, line ∈ stdout w -> line ∈ stdout w').
Proof.
  revert w. induction names as [|g names IH]; intros w.
  - exists w. split; [reflexivity|].
    split; [intros f Hf; inversion Hf|]. split; [intros f Hf; inversion Hf|].
    repeat split; auto.
  - destruct (remove_shared_run dest tt g w) as (w1 & Hrun & Hdel & Hkeep & Hd1 & Hu1 & Hout1).
    destruct (IH w1) as (w' & Hloop & Hgone & Hstay & Hframe & Hd & Hu & Hout).
    exists w'. split; [cbn [for_each]; rewrite bind_run, Hrun; exact Hloop|].
    split; [|split; [|split; [|split; [|split]]]].
    + intros f Hf Hnu. destruct (decide (f ∈ names)) as [Hin|Hnin].
      * apply Hgone; [exact Hin | now rewrite Hu1].
      * apply elem_of_cons in Hf as [->|Hf]; [|contradiction].
        rewrite Hframe, (Hdel Hnu); [apply lookup_delete_eq|].
        intros f2 Hf2 [_ ->]%path_snoc_inj. contradiction.
    + intros f Hf Hin. destruct (decide (f = g)) as [->|Hne].
      * destruct (Hkeep Hin) as [Hfiles Hmsg].
        destruct (decide (g ∈ names)) as [Hgn|Hgn].
        -- destruct (Hstay g Hgn) as [Hs1 Hs2]; [now rewrite Hu1|].
           rewrite Hs1, Hfiles. split; [reflexivity|]. intros Hsome. apply Hout. auto.
        -- rewrite Hframe, Hfiles.
           ++ split; [reflexivity|]. intros Hsome. apply Hout. auto.
           ++ intros f2 Hf2 [_ ->]%path_snoc_inj. contradiction.
      * apply elem_of_cons in Hf as [->|Hf]; [contradiction|].
        destruct (Hstay f Hf) as [Hs1 Hs2]; [now rewrite Hu1|].
        assert (files w1 !! (dest ++ [f])%list = files w !! (dest ++ [f])%list) as Heq.
        { destruct (decide ((dest ++ [g])%list ∈ undeletable w)) as [Hg|Hg].
          - now rewrite (proj1 (Hkeep Hg)).
          - rewrite (Hdel Hg). apply lookup_delete_ne.
            intros [_ ->]%path_snoc_inj. contradiction. }
        rewrite Hs1, Heq. split; [reflexivity|]. now rewrite <- Heq.
    + intros p Hp. rewrite Hframe by (intros f Hf; apply Hp; now apply list_elem_of_further).
      destruct (decide ((dest ++ [g])%list ∈ undeletable w)) as [Hg|Hg].
      * now rewrite (proj1 (Hkeep Hg)).
      * rewrite (Hdel Hg). apply lookup_delete_ne. intros <-.
        eapply Hp; [apply list_elem_of_here | reflexivity].
    + congruence.
    + congruence.
    + auto.
Qed.

End Cleanup.
Section SetupRun.
Context `{Runtime}.

Lemma str_inj a b : PyInt.str a = PyInt.str b -> a = b.
Proof.
  intros Heq. pose proof (parse_str a) as Ha. rewrite Heq, parse_str in Ha. congruence.
Qed.

Lemma subdir_file_ne_root dest m f g : (subdir dest m ++ [f])%list <> (dest ++ [g])%list.
Proof.
  unfold subdir. intros Heq. apply (f_equal length) in Heq.
  rewrite !length_app in Heq. simpl in Heq. lia.
Qed.

Lemma subdir_file_inj dest m m' f g :
  (subdir dest m ++ [f])%list = (subdir dest m' ++ [g])%list -> m = m' /\ f = g.
Proof.
  intros [Hd ->]%path_snoc_inj. split; [|reflexivity].
  unfold subdir in Hd. apply path_snoc_inj in Hd as [_ Hs]. now apply str_inj.
Qed.

Lemma subdir_file_length dest m f : length (subdir dest m ++ [f])%list = (length dest + 2)%nat.
Proof. unfold subdir. rewrite !length_app. simpl. lia. Qed.

(** What a run that ends well has done. *)
Lemma setup_calypso_ok config w created w' :
  setup_calypso config w = (Ok created, w') ->
  exists w0 rw min_latom_dis w1 pstress potcar matrix base_area,
    Fs.mkdir_p (destination config) w = (Ok tt, w0) /\
    find_potcar (elements config) (destination config) (potcar_root config) w0
      = (Ok (rw, min_latom_dis), w1) /\
    _format_pstress_kbar (pressure_gpa config) = Ok pstress /\
    calculate_distance_of_ion rw = Ok matrix /\
    base_area_of config rw = Ok base_area /\
    files w1 !! (destination config ++ ["POTCAR"])%list = Some potcar /\
    created = map (subdir (destination config)) (formula_multipliers config) /\
    (forall m, m ∈ formula_multipliers config ->
       exists input,
         render_input_dat config matrix min_latom_dis base_area m = Ok input /\
         files w' !! (subdir (destination config) m ++ ["input.dat"])%list = Some input) /\
    (forall m f, m ∈ formula_multipliers config -> f ∈ files_to_copy ->
       (subdir (destination config) m ++ [f])%list ∉ dirs w ->
       files w' !! (subdir (destination config) m ++ [f])%list
       = Some (shared_text config pstress potcar f)) /\
    (forall f, f ∈ files_to_copy ->
       (destination config ++ [f])%list ∉ undeletable w ->
       files w' !! (destination config ++ [f])%list = None) /\
    (forall f, f ∈ files_to_copy ->
       (destination config ++ [f])%list ∈ undeletable w ->
       files w' !! (destination config ++ [f])%list = Some (shared_text config pstress potcar f) /\
       deletion_message (destination config ++ [f])%list
         (PermissionError (Path.str (destination config ++ [f])%list)) ∈ stdout w') /\
    (forall m f, m ∈ formula_multipliers config -> f ∈ files_to_copy ->
       (subdir (destination config) m ++ [f])%list ∈ dirs w ->
       files w' !! ((subdir (destination config) m ++ [f]) ++ [f])%list
       = Some (shared_text config pstress potcar f)).
Proof.
  unfold setup_calypso. set (dest := destination config).
  intros ([] & w0 & Hmk & Hrest)%bind_ok_inv.
  pose proof Hmk as (Hf0 & Hd0 & Hu0 & _)%mkdir_p_ok.
  apply bind_ok_inv in Hrest as ([rw min_latom_dis] & w1 & Hfind & Hrest).
  pose proof Hfind as (potcar & Hf1 & Hd1 & Hu1 & _)%find_potcar_ok.
  apply bind_ok_inv in Hrest as (pstress & ? & (Hp & ->)%lift_ok_inv & Hrest).
  apply bind_ok_inv in Hrest as ([] & wa & (Hfa & Hda & Hua & _)%write_ok & Hrest).
  apply bind_ok_inv in Hrest as ([] & wb & (Hfb & Hdb & Hub & _)%write_ok & Hrest).
  apply bind_ok_inv in Hrest as ([] & wc & (Hfc & Hdc & Huc & _)%write_ok & Hrest).
  apply bind_ok_inv in Hrest as ([] & wd & (Hfd & Hdd & Hud & _)%write_ok & Hrest).
  apply bind_ok_inv in Hrest as ([] & w2 & (Hf2 & Hd2 & Hu2 & _)%write_ok & Hrest).
  apply bind_ok_inv in Hrest as (matrix & ? & (Hm & ->)%lift_ok_inv & Hrest).
  apply bind_ok_inv in Hrest as (base_area & ? & (Hb & ->)%lift_ok_inv & Hrest).
  apply bind_ok_inv in Hrest as (created' & w3 & Hloop & Hrest).
  apply bind_ok_inv in Hrest as ([] & w4 & Hclean & Hret).
  injection Hret as -> ->.
  exists w0, rw, min_latom_dis, w1, pstress, potcar, matrix, base_area.
  do 5 (split; [assumption|]).
  split; [rewrite Hf1; apply lookup_insert_eq|].
  set (text := shared_text config pstress potcar).
  assert (forall f, f ∈ files_to_copy -> files w2 !! (dest ++ [f])%list = Some (text f)) as Hroot.
  { intros f Hf. rewrite Hf2, Hfd, Hfc, Hfb, Hfa, Hf1.
    unfold files_to_copy, calypso_fullnode_script, calypso_script in Hf.
    rewrite !elem_of_cons, elem_of_nil in Hf.
    destruct Hf as [->|[->|[->|[->|[->|[->|[]]]]]]];
      repeat (rewrite lookup_insert_ne by (intros [_ ?]%path_snoc_inj; discriminate));
      apply lookup_insert_eq. }
  assert (dirs w2 = dirs w ∪ list_to_set (Path.parents dest)) as Hdirs2.
  { rewrite Hd2, Hdd, Hdc, Hdb, Hda, Hd1, Hd0, <- (assoc_L (∪)), (idemp_L (∪)). reflexivity. }
  assert (undeletable w2 = undeletable w) as Hund2 by congruence.
  pose proof (for_each_ok
    (setup_directory config dest matrix min_latom_dis base_area)
    (fun done created wx =>
       created = map (subdir dest) done /\
       (forall f, f ∈ files_to_copy -> files wx !! (dest ++ [f])%list = Some (text f)) /\
       (forall m, m ∈ done -> exists input,
           render_input_dat config matrix min_latom_dis base_area m = Ok input /\
           files wx !! (subdir dest m ++ ["input.dat"])%list = Some input) /\
       (forall m f, m ∈ done -> f ∈ files_to_copy ->
           (subdir dest m ++ [f])%list ∉ dirs w ->
           files wx !! (subdir dest m ++ [f])%list = Some (text f)) /\
       undeletable wx = undeletable w2 /\
       (forall p, p ∈ dirs wx -> p ∈ dirs w \/ (length p <= length dest + 1)%nat) /\
       (forall p, p ∈ dirs w -> p ∈ dirs wx) /\
       (forall m f, m ∈ done -> f ∈ files_to_copy ->
           (subdir dest m ++ [f])%list ∈ dirs w ->
           files wx !! ((subdir dest m ++ [f]) ++ [f])%list = Some (text f)))
    (formula_multipliers config) [] w2 created w3) as Hinv.
  destruct Hinv as (Hcreated & Hroot3 & Hinput3 & Hshared3 & Hund3 & _ & _ & Hnested3);
    [| |exact Hloop|].
  { split; [reflexivity|]. split; [exact Hroot|].
    split; [intros m Hm'; inversion Hm'|]. split; [intros m f Hm'; inversion Hm'|].
    split; [reflexivity|]. split; [|split].
    - intros p. rewrite Hdirs2.
      intros [Hin|Hin]%elem_of_union; [now left | right].
      apply elem_of_list_to_set, parents_length in Hin. lia.
    - intros p Hin. rewrite Hdirs2. now apply elem_of_union_l.
    - intros m f Hm'. inversion Hm'. }
  { intros done x created1 wx created2 wy _ (-> & Hr & Hi & Hs & Hu & Hn & Hlow & Hnest) Hstep.
    apply (setup_directory_ok _ _ _ _ _ _ _ _ _ _ text) in Hstep
      as (-> & (input & Hrender & Hinput) & Hcopies & Hframe & Hdy & Huy & Hnew); [|exact Hr].
    split; [now rewrite map_app|].
    split.
    { intros f Hf. rewrite Hframe; [now apply Hr| |].
      - intros g Heq. symmetry in Heq. now apply subdir_file_ne_root in Heq.
      - intros g k Heq. apply (f_equal length) in Heq.
        unfold subdir in Heq. rewrite !length_app in Heq. simpl in Heq. lia. }
    split; [|split; [|split]].
    - intros m Hm'. destruct (decide (m = x)) as [->|Hne]; [eauto|].
      apply elem_of_app in Hm' as [Hm'|Hm']; [|apply list_elem_of_singleton in Hm'; contradiction].
      destruct (Hi m Hm') as (input' & Hr' & Hi'). exists input'. split; [exact Hr'|].
      rewrite Hframe; [exact Hi'| |].
      + intros g [? _]%subdir_file_inj. contradiction.
      + intros g k Heq. apply (f_equal length) in Heq.
        unfold subdir in Heq. rewrite !length_app in Heq. simpl in Heq. lia.
    - intros m f Hm' Hf Hnd. destruct (decide (m = x)) as [->|Hne].
      + apply Hcopies; [exact Hf|]. intros [Hin|Hin]%Hn; [contradiction|].
        rewrite subdir_file_length in Hin. lia.
      + apply elem_of_app in Hm' as [Hm'|Hm']; [|apply list_elem_of_singleton in Hm'; contradiction].
        rewrite Hframe; [now apply Hs| |].
        * intros g [? _]%subdir_file_inj. contradiction.
        * intros g k Heq. apply (f_equal length) in Heq.
          unfold subdir in Heq. rewrite !length_app in Heq. simpl in Heq. lia.
    - congruence.
    - split; [|split].
      + intros p. rewrite Hdy. intros [Hin|Hin]%elem_of_union; [now apply Hn | right].
        apply elem_of_list_to_set, parents_length in Hin.
        unfold subdir in Hin. rewrite length_app in Hin. simpl in Hin. lia.
      + intros p Hin. rewrite Hdy. now apply elem_of_union_l, Hlow.
      + intros m f Hm' Hf Hdir. destruct (decide (m = x)) as [->|Hne].
        * apply Hnew; [exact Hf | now apply Hlow].
        * apply elem_of_app in Hm' as [Hm'|Hm'];
            [|apply list_elem_of_singleton in Hm'; contradiction].
          rewrite Hframe; [now apply Hnest| |].
          -- intros g Heq. apply (f_equal length) in Heq.
             unfold subdir in Heq. rewrite !length_app in Heq. simpl in Heq. lia.
          -- intros g k [[? _]%subdir_file_inj _]%path_snoc_inj. contradiction. }
  destruct (remove_all dest files_to_copy w3)
    as (w4' & Hclean' & Hgone & Hstay & Hframe & _ & _ & _).
  rewrite Hclean' in Hclean. injection Hclean as <-.
  split; [exact Hcreated|]. split; [|split; [|split; [|split]]].
  - intros m Hm'. destruct (Hinput3 m Hm') as (input & Hr & Hi). exists input.
    split; [exact Hr|]. rewrite Hframe; [exact Hi|].
    intros f _. apply subdir_file_ne_root.
  - intros m f Hm' Hf Hnd. rewrite Hframe; [now apply Hshared3|].
    intros g _. apply subdir_file_ne_root.
  - intros f Hf Hnu. apply Hgone; [exact Hf|]. now rewrite Hund3, Hund2.
  - intros f Hf Hin. destruct (Hstay f Hf) as [Hs1 Hs2]; [now rewrite Hund3, Hund2|].
    rewrite Hs1, (Hroot3 f Hf). split; [reflexivity|]. apply Hs2. rewrite (Hroot3 f Hf). eauto.
  - intros m f Hm' Hf Hdir. rewrite Hframe; [now apply Hnested3|].
    intros g _ Heq. apply (f_equal length) in Heq.
    unfold subdir in Heq. rewrite !length_app in Heq. simpl in Heq. lia.
Qed.

End SetupRun.
(** ** The keys of the radius map *)

Section KeyFacts.

Lemma record_keys_elem (l acc : list string) x :
  x ∈ fold_left record_key l acc <-> x ∈ acc \/ x ∈ l.
Proof.
  revert acc. induction l as [|y l IH]; intros acc; cbn [fold_left].
  - rewrite elem_of_nil. tauto.
  - rewrite IH, elem_of_cons. unfold record_key. case_bool_decide as Hy.
    + split; [tauto|]. intros [?|[->|?]]; auto.
    + rewrite elem_of_app, list_elem_of_singleton. tauto.
Qed.

Lemma record_keys_NoDup (l acc : list string) :
  NoDup acc -> NoDup (fold_left record_key l acc).
Proof.
  revert acc. induction l as [|y l IH]; intros acc Hacc; cbn [fold_left]; [exact Hacc|].
  apply IH. unfold record_key. case_bool_decide as Hy; [exact Hacc|].
  apply NoDup_app. split; [exact Hacc|]. split; [|apply NoDup_singleton].
  intros x Hx ->%list_elem_of_singleton. contradiction.
Qed.

Lemma record_keys_length (l acc : list string) :
  (length (fold_left record_key l acc) <= length acc + length l)%nat.
Proof.
  revert acc. induction l as [|y l IH]; intros acc; cbn [fold_left length]; [lia|].
  specialize (IH (record_key acc y)). unfold record_key in *.
  case_bool_decide; [|rewrite length_app in IH; cbn [length] in IH]; lia.
Qed.

Lemma record_keys_distinct (l acc : list string) :
  NoDup (acc ++ l)%list -> fold_left record_key l acc = (acc ++ l)%list.
Proof.
  revert acc. induction l as [|y l IH]; intros acc Hnd; cbn [fold_left].
  - now rewrite app_nil_r.
  - assert (y ∉ acc) as Hy.
    { apply NoDup_app in Hnd as (_ & Hd & _). intros Hin. apply (Hd y Hin), list_elem_of_here. }
    unfold record_key. rewrite bool_decide_eq_false_2 by exact Hy.
    rewrite IH; rewrite <- app_assoc; [reflexivity | exact Hnd].
Qed.

Lemma record_keys_full (l acc : list string) :
  NoDup acc -> length (fold_left record_key l acc) = (length acc + length l)%nat ->
  NoDup (acc ++ l)%list.
Proof.
  revert acc. induction l as [|y l IH]; intros acc Hacc Hlen; cbn [fold_left length] in Hlen.
  - now rewrite app_nil_r.
  - pose proof (record_keys_length l (record_key acc y)) as Hle.
    unfold record_key in *. case_bool_decide as Hy; [lia|].
    replace (acc ++ y :: l)%list with ((acc ++ [y]) ++ l)%list by now rewrite <- app_assoc.
    apply IH.
    + apply NoDup_app. split; [exact Hacc|]. split; [|apply NoDup_singleton].
      intros x Hx ->%list_elem_of_singleton. contradiction.
    + rewrite Hlen, length_app. cbn [length]. lia.
Qed.

Lemma first_occurrences_elem l x : x ∈ first_occurrences l <-> x ∈ l.
Proof. unfold first_occurrences. rewrite record_keys_elem, elem_of_nil. tauto. Qed.

Lemma first_occurrences_NoDup l : NoDup (first_occurrences l).
Proof. apply record_keys_NoDup, NoDup_nil_2. Qed.

Lemma first_occurrences_length l : (length (first_occurrences l) <= length l)%nat.
Proof. apply (record_keys_length l []). Qed.

Lemma first_occurrences_distinct l : NoDup l <-> length (first_occurrences l) = length l.
Proof.
  split.
  - intros Hnd. unfold first_occurrences. now rewrite (record_keys_distinct l []).
  - intros Hlen. apply (record_keys_full l [] NoDup_nil_2 Hlen).
Qed.

Lemma first_occurrences_id l : NoDup l -> first_occurrences l = l.
Proof. intros Hnd. apply (record_keys_distinct l [] Hnd). Qed.

Lemma get_key {V} (d : Dict.t V) k : k ∈ Dict.keys d -> is_Some (Dict.get d k).
Proof.
  unfold Dict.keys. induction d as [|[k' v] d IH]; cbn [map fst Dict.get].
  - intros Hk. inversion Hk.
  - intros [->|Hk]%elem_of_cons.
    + rewrite String.eqb_refl. eauto.
    + destruct (String.eqb k k'); [eauto | auto].
Qed.

End KeyFacts.
(** ** The order of the floats and the largest radius *)

Section OrderFacts.

Lemma ltb_irrefl x : F64.ltb x x = false.
Proof.
  unfold F64.ltb, SFltb, SFcompare. destruct x as [s|s| |s m e]; try destruct s; try reflexivity;
    rewrite Z.compare_refl; fold (Pos.compare m m); now rewrite Pos.compare_refl.
Qed.

Lemma ltb_finite s1 m1 e1 s2 m2 e2 :
  F64.ltb (S754_finite s1 m1 e1) (S754_finite s2 m2 e2) = true <->
  match s1, s2 with
  | true, false => True
  | false, true => False
  | false, false => (e1 < e2 \/ (e1 = e2 /\ (m1 < m2)%positive))
  | true, true => (e2 < e1 \/ (e1 = e2 /\ (m2 < m1)%positive))
  end.
Proof.
  unfold F64.ltb, SFltb, SFcompare. fold (Pos.compare m1 m2).
  destruct s1, s2.
  - destruct (Z.compare_spec e1 e2); destruct (Pos.compare_spec m1 m2); cbn [CompOpp];
      split; try discriminate; try reflexivity; try lia.
  - split; [tauto | reflexivity].
  - split; [discriminate | tauto].
  - destruct (Z.compare_spec e1 e2); destruct (Pos.compare_spec m1 m2);
      split; try discriminate; try reflexivity; try lia.
Qed.

Lemma ltb_trans x y z : F64.ltb x y = true -> F64.ltb y z = true -> F64.ltb x z = true.
Proof.
  destruct x as [sx|sx| |sx mx ex], y as [sy|sy| |sy my ey], z as [sz|sz| |sz mz ez];
    try (rewrite !ltb_finite; destruct sx, sy, sz; try tauto; lia);
    intros Hxy Hyz; try discriminate Hxy; try discriminate Hyz;
    repeat match goal with s : bool |- _ => destruct s end;
    try discriminate Hxy; try discriminate Hyz; reflexivity.
Qed.

(** [max_key] yields a key of the map whose radius no radius of the
    map exceeds. *)
Lemma max_fold_largest (d seen : Dict.t F64.float) best :
  In best seen -> (forall x, In x seen -> F64.ltb (snd best) (snd x) = false) ->
  let r := fold_left (fun best kv => if F64.ltb (snd best) (snd kv) then kv else best) d best in
  In r (seen ++ d)%list /\ forall x, In x (seen ++ d)%list -> F64.ltb (snd r) (snd x) = false.
Proof.
  revert seen best. induction d as [|kv d IH]; intros seen best Hin Hmax; cbn [fold_left].
  - rewrite app_nil_r. auto.
  - replace (seen ++ kv :: d)%list with ((seen ++ [kv]) ++ d)%list by now rewrite <- app_assoc.
    apply IH.
    + destruct (F64.ltb (snd best) (snd kv)); apply in_or_app; [right; now left | now left].
    + intros x [Hx|[<-|[]]]%in_app_or.
      * destruct (F64.ltb (snd best) (snd kv)) eqn:E; [|now apply Hmax].
        destruct (F64.ltb (snd kv) (snd x)) eqn:E2; [|reflexivity].
        rewrite <- (Hmax x Hx). symmetry. now apply (ltb_trans _ (snd kv)).
      * destruct (F64.ltb (snd best) (snd kv)) eqn:E; [apply ltb_irrefl | exact E].
Qed.

Lemma get_first (d : Dict.t F64.float) k v :
  NoDup (Dict.keys d) -> In (k, v) d -> Dict.get d k = Some v.
Proof.
  unfold Dict.keys. induction d as [|[k' v'] d IH]; intros Hnd Hin; [destruct Hin|].
  cbn [map fst] in Hnd. apply NoDup_cons in Hnd as [Hk' Hnd]. cbn [Dict.get].
  destruct Hin as [[= -> ->]|Hin]; [now rewrite String.eqb_refl|].
  destruct (String.eqb k k') eqn:E; [|now apply IH].
  apply String.eqb_eq in E as ->. exfalso. apply Hk'.
  apply list_elem_of_In, in_map_iff. now exists (k', v).
Qed.

Lemma get_In (d : Dict.t F64.float) k v : Dict.get d k = Some v -> In (k, v) d.
Proof.
  induction d as [|[k' v'] d IH]; cbn [Dict.get]; [discriminate|].
  destruct (String.eqb k k') eqn:E; [|right; auto].
  apply String.eqb_eq in E as ->. intros [= ->]. now left.
Qed.

Lemma max_key_largest (d : Dict.t F64.float) k :
  NoDup (Dict.keys d) -> max_key d = Ok k ->
  exists v, Dict.get d k = Some v /\
            forall k' v', Dict.get d k' = Some v' -> F64.ltb v v' = false.
Proof.
  intros Hnd. destruct d as [|[k0 v0] d]; [discriminate|]. cbn [max_key]. intros [= <-].
  destruct (max_fold_largest d [(k0, v0)] (k0, v0)) as [Hin Hmax].
  { now left. }
  { intros x [<-|[]]. apply ltb_irrefl. }
  cbn [app] in Hin, Hmax.
  set (r := fold_left _ d (k0, v0)) in *. exists (snd r). split.
  - apply get_first; [exact Hnd|]. now destruct r.
  - intros k' v' Hget. apply (Hmax (k', v')). now apply get_In.
Qed.

End OrderFacts.
(** ** Whether a file may be deleted matters to the cleanup alone *)

Section DeletionBlind.
Context `{Runtime}.

Lemma blind_ret {A} (a : A) : deletion_blind (mret a : io A).
Proof. intros u w. reflexivity. Qed.

Lemma blind_raise {A} e : deletion_blind (raise e : io A).
Proof. intros u w. reflexivity. Qed.

Lemma blind_lift {A} (r : result A) : deletion_blind (lift r).
Proof. intros u w. unfold lift. now destruct r. Qed.

Lemma blind_bind {A B} (m : io A) (f : A -> io B) :
  deletion_blind m -> (forall a, deletion_blind (f a)) -> deletion_blind (m ≫= f).
Proof.
  intros Hm Hf u w. rewrite !bind_run, Hm.
  destruct (m w) as [[a|e] w1]; cbn [fst snd]; [apply Hf | reflexivity].
Qed.

Lemma blind_for_each {A S} (body : S -> A -> io S) l s :
  (forall s x, deletion_blind (body s x)) -> deletion_blind (for_each body l s).
Proof.
  intros Hbody. revert s. induction l as [|x l IH]; intros s; cbn [for_each].
  - apply blind_ret.
  - apply blind_bind; auto.
Qed.

Lemma blind_print line : deletion_blind (Fs.print line).
Proof. intros u w. reflexivity. Qed.

Lemma blind_mkdir_p p : deletion_blind (Fs.mkdir_p p).
Proof.
  intros u w. unfold Fs.mkdir_p, Fs.is_file. cbn [files with_undeletable].
  destruct (bool_decide _); [reflexivity|]. destruct (find _ _); reflexivity.
Qed.

Lemma blind_write p data : deletion_blind (Fs.write p data).
Proof.
  intros u w. unfold Fs.write, Fs.is_dir, Fs.is_file. cbn [files dirs with_undeletable].
  repeat (destruct (bool_decide _); [reflexivity|]). reflexivity.
Qed.

Lemma blind_read_text p : deletion_blind (Fs.read_text p).
Proof.
  intros u w. unfold Fs.read_text, Fs.is_dir. cbn [files dirs with_undeletable].
  destruct (files w !! p); [reflexivity|]. destruct (bool_decide _); reflexivity.
Qed.

Lemma blind_subdir_names root : deletion_blind (Fs.subdir_names root).
Proof.
  intros u w. unfold Fs.subdir_names, Fs.is_dir, Fs.is_file. cbn [files dirs with_undeletable].
  repeat (destruct (bool_decide _); [reflexivity|]). reflexivity.
Qed.

Lemma blind_copy src dst : deletion_blind (Fs.copy src dst).
Proof.
  intros u w. unfold Fs.copy. cbn [files with_undeletable].
  destruct (files w !! src); [apply blind_write|].
  unfold Fs.is_dir. cbn [dirs with_undeletable]. destruct (bool_decide _); reflexivity.
Qed.

Lemma blind_find_potcar_step root names acc element :
  deletion_blind (find_potcar_step root names acc element).
Proof.
  destruct acc as [[content rw] picked]. unfold find_potcar_step.
  destruct (select_variant names element); [|apply blind_raise].
  apply blind_bind; [apply blind_read_text|]. intros text.
  apply blind_bind; [apply blind_lift|]. intros chosen.
  apply blind_bind; [apply blind_print|]. intros _. apply blind_ret.
Qed.

Lemma blind_find_potcar elements dest root : deletion_blind (find_potcar elements dest root).
Proof.
  unfold find_potcar.
  apply blind_bind; [apply blind_mkdir_p|]. intros _.
  apply blind_bind; [apply blind_subdir_names|]. intros names.
  apply blind_bind; [apply blind_for_each; intros; apply blind_find_potcar_step|].
  intros [[content rw] picked].
  apply blind_bind; [apply blind_write|]. intros _. apply blind_ret.
Qed.

Lemma blind_create_input_dat directory elements counts matrix min_latom_dis two_d layers relax
    base_area layer_matrix formula_value :
  deletion_blind (create_input_dat directory elements counts matrix min_latom_dis two_d layers
                    relax base_area layer_matrix formula_value).
Proof.
  unfold create_input_dat.
  apply blind_bind; [apply blind_mkdir_p|]. intros _.
  apply blind_bind; [apply blind_lift|]. intros two_d_parameters. apply blind_write.
Qed.

Lemma blind_setup_directory config dest matrix min_latom_dis base_area created m :
  deletion_blind (setup_directory config dest matrix min_latom_dis base_area created m).
Proof.
  unfold setup_directory.
  apply blind_bind; [apply blind_mkdir_p|]. intros _.
  apply blind_bind; [apply blind_create_input_dat|]. intros _.
  apply blind_bind; [apply blind_for_each; intros; apply blind_copy|]. intros _.
  apply blind_bind; [apply blind_print|]. intros _. apply blind_ret.
Qed.

Lemma blind_bind_outcome {A B} (m : io A) (f : A -> io B) :
  deletion_blind m ->
  (forall a u w, fst (f a (with_undeletable u w)) = fst (f a w)) ->
  forall u w, fst ((m ≫= f) (with_undeletable u w)) = fst ((m ≫= f) w).
Proof.
  intros Hm Hf u w. rewrite !bind_run, Hm.
  destruct (m w) as [[a|e] w1]; cbn [fst snd]; [apply Hf | reflexivity].
Qed.

(** Whether the shared files may be deleted does not change how a run
    ends, nor the list that it returns. *)
Lemma setup_calypso_outcome config u w :
  fst (setup_calypso config (with_undeletable u w)) = fst (setup_calypso config w).
Proof.
  revert u w. unfold setup_calypso.
  apply blind_bind_outcome; [apply blind_mkdir_p|]. intros _.
  apply blind_bind_outcome; [apply blind_find_potcar|]. intros [rw min_latom_dis].
  apply blind_bind_outcome; [apply blind_lift|]. intros pstress.
  do 5 (apply blind_bind_outcome; [apply blind_write|]; intros _).
  apply blind_bind_outcome; [apply blind_lift|]. intros matrix.
  apply blind_bind_outcome; [apply blind_lift|]. intros base_area.
  apply blind_bind_outcome; [apply blind_for_each; intros; apply blind_setup_directory|].
  intros created u w. rewrite !bind_run.
  destruct (remove_all (destination config) files_to_copy (with_undeletable u w))
    as (w1 & -> & _).
  destruct (remove_all (destination config) files_to_copy w) as (w2 & -> & _).
  reflexivity.
Qed.

End DeletionBlind.
(** ** What the resolver reads *)

Section Resolved.

Lemma get_set (d : Dict.t F64.float) k v k' :
  Dict.get (Dict.set d k v) k' = if String.eqb k' k then Some v else Dict.get d k'.
Proof.
  induction d as [|[k0 v0] d IH]; cbn [Dict.set Dict.get].
  - reflexivity.
  - destruct (String.eqb k k0) eqn:E; cbn [Dict.get].
    + apply String.eqb_eq in E as ->. destruct (String.eqb k' k0); reflexivity.
    + destruct (String.eqb k' k0) eqn:E'; [|exact IH].
      apply String.eqb_eq in E' as ->. rewrite String.eqb_sym, E. reflexivity.
Qed.

Lemma read_as_unique ds w root element text chosen text' chosen' :
  read_as ds w root element text chosen -> read_as ds w root element text' chosen' ->
  text' = text /\ chosen' = chosen.
Proof.
  intros (s & d & Hv & Hf & -> & Hc) (s' & d' & Hv' & Hf' & -> & Hc').
  rewrite Hv in Hv'. injection Hv' as <-. rewrite Hf in Hf'. injection Hf' as <-.
  rewrite Hc in Hc'. injection Hc' as <-. auto.
Qed.

Lemma find_potcar_resolved elements dest root w rw min_latom_dis w1 :
  find_potcar elements dest root w = (Ok (rw, min_latom_dis), w1) ->
  exists texts picked,
    Forall2 (fun element tr =>
               read_as (dirs w ∪ list_to_set (Path.parents dest)) w root element tr.1 tr.2 /\
               Dict.get rw element = Some tr.2)
            elements (zip texts picked) /\
    length texts = length elements /\ length picked = length elements /\
    files w1 !! (dest ++ ["POTCAR"])%list = Some (Str.cat texts) /\
    min_latom_dis = match picked with
                    | [] => None
                    | v :: vs => Some (F64.min_list v vs)
                    end.
Proof.
  unfold find_potcar.
  intros ([] & wa & (Hfa & Hda & Hua & _)%mkdir_p_ok & Hrest)%bind_ok_inv.
  apply bind_ok_inv in Hrest as (names & wa' & (-> & _ & Hnames)%subdir_names_ok & Hrest).
  apply bind_ok_inv in Hrest as (acc & wb & Hloop & Hrest).
  destruct acc as [[content rw'] picked].
  apply bind_ok_inv in Hrest as ([] & wc & (Hfc & _)%write_ok & Hret).
  injection Hret as <- <- <-.
  exists content, picked.
  pose proof (for_each_ok (find_potcar_step root names)
    (fun done acc wx =>
       files wx = files wa /\ dirs wx = dirs wa /\
       length acc.1.1 = length done /\ length acc.2 = length done /\
       Forall2 (fun element tr =>
                  read_as (dirs wa) wa root element tr.1 tr.2 /\
                  Dict.get acc.1.2 element = Some tr.2) done (zip acc.1.1 acc.2))
    elements ([], [], []) wa (content, rw', picked) wb) as Hinv.
  destruct Hinv as (_ & _ & Hlc & Hlp & Hall); [| |exact Hloop|].
  { cbn. repeat split; constructor. }
  { intros done x [[c1 d1] p1] w2 s2 w3 _ (Hf2 & Hd2 & Hl1 & Hl2 & Hdone) Hstep.
    pose proof (find_potcar_step_frame root names (c1, d1, p1) x w2) as Hframe.
    rewrite Hstep in Hframe. cbn [snd] in Hframe. destruct Hframe as (Hf3 & Hd3 & _).
    apply find_potcar_step_ok in Hstep as (suffix & data & chosen & Hsel & Hdata & Hch & ->).
    cbn [fst snd] in *.
    assert (read_as (dirs wa) wa root x (Fs.universal_newlines data) chosen) as Hx.
    { exists suffix, data. rewrite <- (select_variant_of names (dirs wa) root x Hnames).
      rewrite <- Hf2. auto. }
    split; [congruence|]. split; [congruence|].
    rewrite !length_app. cbn [length]. split; [lia|]. split; [lia|].
    rewrite zip_with_app by congruence. apply Forall2_app.
    - eapply Forall2_impl; [exact Hdone|]. intros el [t r] [Hr Hg]. cbn [fst snd] in *.
      split; [exact Hr|]. rewrite get_set. destruct (String.eqb el x) eqn:E; [|exact Hg].
      apply String.eqb_eq in E as ->. now destruct (read_as_unique _ _ _ _ _ _ _ _ Hx Hr) as [_ ->].
    - constructor; [|constructor]. cbn [fst snd]. split; [exact Hx|].
      now rewrite get_set, String.eqb_refl. }
  cbn [fst snd] in *. split.
  { eapply Forall2_impl; [exact Hall|].
    intros el [t r] [(s & d & Hv & Hf & Hr) Hg]. cbn [fst snd] in *.
    split; [|exact Hg]. exists s, d. rewrite Hda in Hv. rewrite Hfa in Hf. auto. }
  split; [exact Hlc|]. split; [exact Hlp|]. split; [|reflexivity].
  unfold Fs.write_text. rewrite Hfc. apply lookup_insert_eq.
Qed.

End Resolved.
(** ** An element without a variant *)

Section Missing.






End Missing.
(** ** The matcher and what a pattern matches *)

Section MatcherFacts.

Lemma length_cat (a b : string) :
  String.length (a ++ b) = (String.length a + String.length b)%nat.
Proof. induction a as [|c a IH]; cbn [String.append String.length]; [reflexivity | now rewrite IH]. Qed.

Lemma substring_prefix (a b : string) : String.substring 0 (String.length a) (a ++ b) = a.
Proof.
  induction a as [|c a IH]; cbn [String.append String.length String.substring].
  - now destruct b.
  - now rewrite IH.
Qed.

Lemma consumed_app (a b : string) : Re.consumed (a ++ b) b = a.
Proof.
  unfold Re.consumed. rewrite length_cat.
  replace (String.length a + String.length b - String.length b)%nat with (String.length a) by lia.
  apply substring_prefix.
Qed.

Lemma star_sound {A} p s (k : string -> option A) x :
  Re.star p s k = Some x ->
  exists pre rest, s = pre ++ rest /\ all_chars p pre = true /\ k rest = Some x.
Proof.
  induction s as [|c s IH]; cbn [Re.star].
  - intros Hk. now exists EmptyString, EmptyString.
  - destruct (p c) eqn:Hc; [|intros Hk; now exists EmptyString, (String c s)].
    destruct (Re.star p s k) as [y|] eqn:Hs.
    + intros [= ->]. destruct (IH eq_refl) as (pre & rest & -> & Hpre & Hk).
      exists (String c pre), rest. cbn [all_chars String.append]. now rewrite Hc, Hpre.
    + intros Hk. now exists EmptyString, (String c s).
Qed.

Lemma star_skip {A} p s (k : string -> option A) : is_Some (k s) -> is_Some (Re.star p s k).
Proof.
  destruct s as [|c s]; cbn [Re.star]; [auto|].
  destruct (p c); [|auto]. destruct (Re.star p s k); eauto.
Qed.

Lemma star_complete {A} p pre rest (k : string -> option A) :
  all_chars p pre = true -> is_Some (k rest) -> is_Some (Re.star p (pre ++ rest) k).
Proof.
  induction pre as [|c pre IH]; cbn [all_chars String.append]; intros Hpre Hk.
  - now apply star_skip.
  - apply andb_true_iff in Hpre as [Hc Hpre]. cbn [Re.star]. rewrite Hc.
    destruct (IH Hpre Hk) as [y ->]. eauto.
Qed.

Lemma run_sound {A} r s caps (k : string -> list string -> option A) x :
  Re.run r s caps k = Some x ->
  exists pre rest groups,
    s = pre ++ rest /\ matches r pre groups /\ k rest (caps ++ groups)%list = Some x.
Proof.
  revert s caps k x. induction r as [c|c|c|r1 IH1 r2 IH2|r IH]; intros s caps k x; cbn [Re.run].
  - destruct s as [|a s]; [discriminate|]. destruct (Re.cls_match c a) eqn:Hc; [|discriminate].
    intros Hk. exists (String a EmptyString), s, []. rewrite app_nil_r.
    split; [reflexivity|]. split; [now constructor | exact Hk].
  - intros (pre & rest & -> & Hpre & Hk)%star_sound.
    exists pre, rest, []. rewrite app_nil_r. split; [reflexivity|]. split; [now constructor | exact Hk].
  - assert (k s caps = Some x ->
            exists pre rest groups,
              s = pre ++ rest /\ matches (Re.Opt c) pre groups /\
              k rest (caps ++ groups)%list = Some x) as Hnone.
    { intros Hk. exists EmptyString, s, []. rewrite app_nil_r.
      split; [reflexivity|]. split; [constructor | exact Hk]. }
    destruct s as [|a s]; [exact Hnone|].
    destruct (Re.cls_match c a) eqn:Hc; [|exact Hnone].
    destruct (k s caps) as [y|] eqn:Hk; [|exact Hnone].
    intros [= ->]. exists (String a EmptyString), s, []. rewrite app_nil_r.
    split; [reflexivity|]. split; [now constructor | exact Hk].
  - intros (pre1 & rest1 & g1 & -> & Hm1 & Hrun)%IH1.
    apply IH2 in Hrun as (pre2 & rest2 & g2 & -> & Hm2 & Hk).
    exists (pre1 ++ pre2), rest2, (g1 ++ g2)%list.
    rewrite append_assoc, app_assoc. split; [reflexivity|]. split; [now constructor | exact Hk].
  - intros (pre & rest & g & -> & Hm & Hk)%IH.
    exists pre, rest, (g ++ [pre])%list. rewrite consumed_app, <- app_assoc in Hk.
    split; [reflexivity|]. split; [now constructor | exact Hk].
Qed.

Lemma run_complete {A} r pre groups :
  matches r pre groups ->
  forall rest caps (k : string -> list string -> option A),
    is_Some (k rest (caps ++ groups)%list) -> is_Some (Re.run r (pre ++ rest) caps k).
Proof.
  induction 1 as [c a Hc|c text Htext|c|c a Hc|r1 r2 t1 t2 g1 g2 _ IH1 _ IH2|r text g _ IH];
    intros rest caps k Hk; cbn [Re.run String.append].
  - rewrite Hc. now rewrite app_nil_r in Hk.
  - rewrite app_nil_r in Hk. now apply star_complete.
  - rewrite app_nil_r in Hk. destruct rest as [|a rest]; [exact Hk|].
    destruct (Re.cls_match c a); [|exact Hk]. destruct (k rest caps); eauto.
  - rewrite Hc. rewrite app_nil_r in Hk. destruct Hk as [y ->]. eauto.
  - rewrite append_assoc. apply IH1, IH2. now rewrite <- app_assoc.
  - apply IH. now rewrite consumed_app, <- app_assoc.
Qed.

End MatcherFacts.
Section SearchFacts.

Lemma match_here_sound r s caps rest :
  Re.match_here r s = Some (caps, rest) -> exists pre, s = pre ++ rest /\ matches r pre caps.
Proof.
  unfold Re.match_here. intros (pre & rest' & groups & -> & Hm & Hk)%run_sound.
  cbn [app] in Hk. injection Hk as <- <-. eauto.
Qed.

Lemma match_here_complete r pre rest groups :
  matches r pre groups -> is_Some (Re.match_here r (pre ++ rest)).
Proof. intros Hm. unfold Re.match_here. apply (run_complete r pre groups Hm). eauto. Qed.

Lemma search_unfold r s :
  Re.search r s =
  match Re.match_here r s with
  | Some (caps, _) => Some caps
  | None =>
      match s with
      | String _ s' => Re.search r s'
      | EmptyString => None
      end
  end.
Proof. now destruct s. Qed.

Lemma search_sound r s caps :
  Re.search r s = Some caps ->
  exists before mid after, s = before ++ mid ++ after /\ matches r mid caps.
Proof.
  induction s as [|c s IH]; rewrite search_unfold.
  - destruct (Re.match_here r EmptyString) as [[caps' rest]|] eqn:Hm; [|discriminate].
    intros [= ->]. apply match_here_sound in Hm as (pre & Hs & Hm).
    exists EmptyString, pre, rest. auto.
  - destruct (Re.match_here r (String c s)) as [[caps' rest]|] eqn:Hm.
    + intros [= ->]. apply match_here_sound in Hm as (pre & Hs & Hm).
      exists EmptyString, pre, rest. auto.
    + intros (before & mid & after & -> & Hmid)%IH.
      exists (String c before), mid, after. auto.
Qed.

Lemma search_complete r s : occurs r s -> is_Some (Re.search r s).
Proof.
  intros (before & mid & after & groups & -> & Hm).
  induction before as [|c before IH]; rewrite search_unfold; cbn [String.append].
  - destruct (match_here_complete r mid after groups Hm) as [[caps rest] ->]. eauto.
  - destruct (Re.match_here r _) as [[caps rest]|]; [eauto | exact IH].
Qed.

Lemma search_none r s : Re.search r s = None <-> ~ occurs r s.
Proof.
  split.
  - intros Hnone [caps Hs]%search_complete. congruence.
  - intros Hno. destruct (Re.search r s) as [caps|] eqn:Hs; [|reflexivity].
    exfalso. apply Hno. apply search_sound in Hs as (before & mid & after & Hs & Hm).
    exists before, mid, after, caps. auto.
Qed.

Lemma findall_from_unfold r skip s :
  Re.findall_from r skip s =
  match skip with
  | S skip' =>
      match s with
      | String _ s' => Re.findall_from r skip' s'
      | EmptyString => []
      end
  | O =>
      match Re.match_here r s with
      | Some (caps, rest) =>
          let g := match caps with g :: _ => g | [] => Re.consumed s rest end in
          match s with
          | String _ s' =>
              g :: Re.findall_from r (String.length s - String.length rest - 1) s'
          | EmptyString => [g]
          end
      | None =>
          match s with
          | String _ s' => Re.findall_from r O s'
          | EmptyString => []
          end
      end
  end.
Proof. now destruct s. Qed.

Lemma findall_nil r s : Re.findall r s = [] <-> Re.search r s = None.
Proof.
  unfold Re.findall. induction s as [|c s IH]; rewrite findall_from_unfold, search_unfold;
    destruct (Re.match_here r _) as [[caps rest]|]; try tauto; split; discriminate.
Qed.

(** Every item that [findall] returns is the first group of a match,
    or the match itself when the pattern has no group. *)
Lemma findall_from_sound r s : forall skip g,
  g ∈ Re.findall_from r skip s ->
  exists before mid after caps,
    s = before ++ mid ++ after /\ matches r mid caps /\
    g = match caps with g' :: _ => g' | [] => mid end.
Proof.
  assert (forall s caps rest,
             Re.match_here r s = Some (caps, rest) ->
             exists before mid after caps',
               s = before ++ mid ++ after /\ matches r mid caps' /\
               match caps with g' :: _ => g' | [] => Re.consumed s rest end
               = match caps' with g' :: _ => g' | [] => mid end) as Hhead.
  { intros s0 caps rest (pre & -> & Hm)%match_here_sound.
    exists EmptyString, pre, rest, caps. rewrite consumed_app. auto. }
  induction s as [|c s IH]; intros skip g; rewrite findall_from_unfold.
  - destruct skip; [|intros Hg; inversion Hg].
    destruct (Re.match_here r EmptyString) as [[caps rest]|] eqn:Hm; [|intros Hg; inversion Hg].
    intros ->%list_elem_of_singleton. now apply Hhead.
  - assert (forall skip', g ∈ Re.findall_from r skip' s ->
              exists before mid after caps,
                String c s = before ++ mid ++ after /\ matches r mid caps /\
                g = match caps with g' :: _ => g' | [] => mid end) as Htail.
    { intros skip' (before & mid & after & caps & -> & Hm & Hg)%IH.
      exists (String c before), mid, after, caps. auto. }
    destruct skip; [|apply Htail].
    destruct (Re.match_here r (String c s)) as [[caps rest]|] eqn:Hm; [|apply Htail].
    cbv zeta. intros [->|Hg]%elem_of_cons; [now apply Hhead | now apply (Htail _ Hg)].
Qed.

Lemma findall_sound r s g :
  g ∈ Re.findall r s ->
  exists before mid after caps,
    s = before ++ mid ++ after /\ matches r mid caps /\
    g = match caps with g' :: _ => g' | [] => mid end.
Proof. apply findall_from_sound. Qed.

End SearchFacts.

Section Leftmost.

(** [search] returns the groups of a match that no match starts before. *)
Lemma search_leftmost r s caps :
  Re.search r s = Some caps ->
  exists before rest tail,
    s = before ++ rest /\ Re.match_here r rest = Some (caps, tail) /\
    forall b1 m1 a1 c1,
      s = b1 ++ m1 ++ a1 -> matches r m1 c1 -> (String.length before <= String.length b1)%nat.
Proof.
  induction s as [|c s IH]; rewrite search_unfold.
  - destruct (Re.match_here r EmptyString) as [[caps' tail]|] eqn:Hm; [|discriminate].
    intros [= ->]. exists EmptyString, EmptyString, tail.
    split; [reflexivity|]. split; [exact Hm|]. intros; cbn [String.length]; lia.
  - destruct (Re.match_here r (String c s)) as [[caps' tail]|] eqn:Hm.
    + intros [= ->]. exists EmptyString, (String c s), tail.
      split; [reflexivity|]. split; [exact Hm|]. intros; cbn [String.length]; lia.
    + intros (before & rest & tail & -> & Hrest & Hleft)%IH.
      exists (String c before), rest, tail. split; [reflexivity|]. split; [exact Hrest|].
      intros [|c1 b1] m1 a1 c1' Hs Hmatch.
      * cbn [String.append] in Hs. destruct (match_here_complete r m1 a1 c1' Hmatch) as [x Hx].
        rewrite <- Hs, Hm in Hx. discriminate Hx.
      * cbn [String.append] in Hs. injection Hs as _ Hs. cbn [String.length].
        specialize (Hleft b1 m1 a1 c1' Hs Hmatch). lia.
Qed.

End Leftmost.
(** ** The numbers of the radius pattern *)

Section NumberFacts.

Lemma chr_point a : Re.cls_match (Re.Chr ".") a = true -> a = "."%char.
Proof.
  destruct a as [[] [] [] [] [] [] [] []]; intros Hm; vm_compute in Hm;
    (discriminate Hm || reflexivity).
Qed.

Lemma sign_char a : Re.cls_match Re.Sign a = true -> a = "-"%char \/ a = "+"%char.
Proof.
  destruct a as [[] [] [] [] [] [] [] []]; intros Hm; vm_compute in Hm;
    (discriminate Hm || (left; reflexivity) || (right; reflexivity)).
Qed.

Lemma digit_plain a :
  Str.isdigit a = true ->
  Ascii.eqb a "-" = false /\ Ascii.eqb a "+" = false /\ Ascii.eqb a "." = false /\
  nonspace a = true.
Proof.
  destruct a as [[] [] [] [] [] [] [] []]; intros Hm; vm_compute in Hm;
    (discriminate Hm || (vm_compute; auto)).
Qed.

Lemma digit_run_digits ds rest :
  all_chars Str.isdigit ds = true ->
  match rest with String c _ => Str.isdigit c = false | EmptyString => True end ->
  PyFloat.digit_run (ds ++ rest) = (ds, rest).
Proof.
  intros Hds Hrest. induction ds as [|d ds IH]; cbn [String.append].
  - destruct rest as [|c rest]; cbn [PyFloat.digit_run]; [reflexivity | now rewrite Hrest].
  - cbn [all_chars] in Hds. apply andb_true_iff in Hds as [Hd Hds].
    cbn [PyFloat.digit_run]. now rewrite Hd, (IH Hds).
Qed.

Lemma digit_run_all ds :
  all_chars Str.isdigit ds = true -> PyFloat.digit_run ds = (ds, EmptyString).
Proof.
  intros Hds. rewrite <- (append_nil_r ds) at 1. now apply digit_run_digits.
Qed.

Lemma matches_number g groups :
  matches Re.number g groups -> groups = [g] /\ number_text g.
Proof.
  unfold Re.number. intros Hm.
  inversion Hm as [| | | | |r text gs Hseq]; subst; clear Hm.
  inversion Hseq as [| | | |r1 r2 sign t1 gs1 gs2 Hsign H1|]; subst; clear Hseq.
  inversion H1 as [| | | |r1 r2 whole t2 gs3 gs4 Hwhole H2|]; subst; clear H1.
  inversion H2 as [| | | |r1 r2 point t3 gs5 gs6 Hpoint H3|]; subst; clear H2.
  inversion H3 as [| | | |r1 r2 first others gs7 gs8 Hfirst Hothers|]; subst; clear H3.
  inversion Hwhole as [|k t Hw| | | |]; subst; clear Hwhole.
  inversion Hfirst as [k a Ha| | | | |]; subst; clear Hfirst.
  inversion Hothers as [|k t Ho| | | |]; subst; clear Hothers.
  assert (gs1 = [] /\ (sign = EmptyString \/ sign = "-" \/ sign = "+")) as [-> Hs].
  { inversion Hsign as [| |k|k a' Ha'| |]; subst; [auto|].
    split; [reflexivity|]. destruct (sign_char a' Ha') as [-> | ->]; auto. }
  assert (gs5 = [] /\ (point = EmptyString \/ point = ".")) as [-> Hp].
  { inversion Hpoint as [| |k|k a' Ha'| |]; subst; [auto|].
    split; [reflexivity|]. rewrite (chr_point a' Ha'). auto. }
  split; [reflexivity|].
  exists sign, whole, point, (String a others).
  split; [reflexivity|]. split; [exact Hs|]. split; [exact Hw|]. split; [exact Hp|].
  split; [discriminate|].
  change (Str.isdigit a = true) in Ha. change (all_chars Str.isdigit others = true) in Ho.
  cbn [all_chars]. now rewrite Ha, Ho.
Qed.

Lemma unsigned_body (body : string) :
  match body with
  | String c _ => Ascii.eqb c "-" = false /\ Ascii.eqb c "+" = false
  | EmptyString => True
  end ->
  match body with
  | String c s' =>
      if Ascii.eqb c "-" then (true, s')
      else if Ascii.eqb c "+" then (false, s')
      else (false, body)
  | EmptyString => (false, body)
  end = (false, body).
Proof. destruct body as [|c body]; [reflexivity|]. now intros [-> ->]. Qed.

Lemma number_parses g : number_text g -> exists x, PyFloat.parse g = Ok x.
Proof.
  intros (sign & whole & point & frac & -> & Hs & Hw & Hp & Hne & Hf).
  assert (exists d frac', frac = String d frac' /\ Str.isdigit d = true) as (d & frac' & Hfrac & Hd).
  { destruct frac as [|d frac']; [contradiction|]. cbn [all_chars] in Hf.
    apply andb_true_iff in Hf as [Hd _]. eauto. }
  assert (all_chars nonspace (whole ++ point ++ frac) = true) as Hbody.
  { rewrite !all_chars_app, (all_chars_impl Str.isdigit nonspace whole),
      (all_chars_impl Str.isdigit nonspace frac); try assumption;
      try (intros c Hc; now apply digit_plain).
    destruct Hp as [-> | ->]; reflexivity. }
  assert (PyFloat.digit_run (whole ++ point ++ frac) =
          if String.eqb point "." then (whole, point ++ frac) else ((whole ++ frac), EmptyString))
    as Hrun.
  { destruct Hp as [-> | ->]; cbn [String.eqb Ascii.eqb Bool.eqb].
    - cbn [String.append]. apply digit_run_all. rewrite all_chars_app, Hw, Hf. reflexivity.
    - apply digit_run_digits; [exact Hw|]. reflexivity. }
  assert (forall sg msg,
             (let '(ip, rest) := PyFloat.digit_run (whole ++ point ++ frac) in
              let '(fp, rest) :=
                match rest with
                | String c r => if Ascii.eqb c "." then PyFloat.digit_run r else (EmptyString, rest)
                | EmptyString => (EmptyString, rest)
                end in
              match rest, ip ++ fp with
              | EmptyString, String _ _ =>
                  Ok (F64.of_ratio sg (PyFloat.digits_value (ip ++ fp))
                        (PyFloat.pow10 (String.length fp)))
              | _, _ => Raise (ValueError msg)
              end) = Ok (F64.of_ratio sg (PyFloat.digits_value (whole ++ frac))
                           (PyFloat.pow10 (if String.eqb point "." then String.length frac else 0))))
    as Htail.
  { intros sg msg. rewrite Hrun. destruct Hp as [-> | ->]; cbn [String.eqb Ascii.eqb Bool.eqb].
    - rewrite append_nil_r. subst frac. destruct whole; reflexivity.
    - cbn [String.append Ascii.eqb Bool.eqb]. rewrite (digit_run_all frac Hf).
      subst frac. destruct whole; reflexivity. }
  unfold PyFloat.parse.
  destruct Hs as [-> | [-> | ->]].
  - cbn [String.append]. rewrite (strip_nonspace _ Hbody).
    rewrite unsigned_body; [rewrite (Htail false); eauto|].
    subst frac. destruct whole as [|w whole].
    + destruct Hp as [-> | ->]; cbn [String.append]; [|auto].
      split; now apply digit_plain.
    + cbn [String.append all_chars] in Hw |- *.
      apply andb_true_iff in Hw as [Hw _]. split; now apply digit_plain.
  - rewrite strip_nonspace by (cbn [String.append all_chars]; now rewrite Hbody).
    cbn [String.append Ascii.eqb Bool.eqb]. rewrite (Htail true). eauto.
  - rewrite strip_nonspace by (cbn [String.append all_chars]; now rewrite Hbody).
    cbn [String.append Ascii.eqb Bool.eqb]. rewrite (Htail false). eauto.
Qed.

End NumberFacts.
(** ** The radius chosen in a text *)

Section RadiusFacts.

Lemma matches_single mid caps :
  matches Re.single_re mid caps -> exists g, caps = [g] /\ number_text g.
Proof.
  cbv beta iota delta [Re.single_re Re.word]. intros Hm.
  repeat match goal with
         | H : matches (Re.Seq _ _) _ _ |- _ => inversion H; subst; clear H
         | H : matches (Re.One _) _ _ |- _ => inversion H; subst; clear H
         | H : matches (Re.Star _) _ _ |- _ => inversion H; subst; clear H
         end.
  match goal with H : matches Re.number _ _ |- _ => apply matches_number in H as [-> Hg] end.
  eauto.
Qed.

Lemma matches_pair mid caps :
  matches Re.pair_re mid caps ->
  exists g1 g2 first rest,
    caps = [g1; g2] /\ number_text g1 /\ number_text g2 /\
    mid = first ++ rest /\ matches Re.single_re first [g1].
Proof.
  unfold Re.pair_re. intros Hm.
  inversion Hm as [| | | |r1 r2 first rest gs1 gs2 H1 H2|]; subst; clear Hm.
  repeat match goal with
         | H : matches (Re.Seq _ _) _ _ |- _ => inversion H; subst; clear H
         | H : matches (Re.One _) _ _ |- _ => inversion H; subst; clear H
         | H : matches (Re.Star _) _ _ |- _ => inversion H; subst; clear H
         end.
  pose proof H1 as (g1 & -> & Hg1)%matches_single.
  match goal with H : matches Re.single_re _ _ |- _ =>
    apply matches_single in H as (g2 & -> & Hg2) end.
  exists g1, g2. eauto 10.
Qed.

Lemma pair_occurs_single text : occurs Re.pair_re text -> occurs Re.single_re text.
Proof.
  intros (before & mid & after & caps & -> & Hm).
  apply matches_pair in Hm as (g1 & g2 & first & rest & _ & _ & _ & -> & Hfirst).
  exists before, first, (rest ++ after), [g1]. now rewrite append_assoc.
Qed.

Lemma ltb_asym a b : F64.ltb a b = true -> F64.ltb b a = false.
Proof.
  intros Hab. destruct (F64.ltb b a) eqn:Hba; [|reflexivity].
  rewrite <- (ltb_irrefl a). symmetry. now apply (ltb_trans a b a).
Qed.

Lemma min2_lesser a b :
  (F64.min2 a b = a \/ F64.min2 a b = b) /\
  F64.ltb a (F64.min2 a b) = false /\ F64.ltb b (F64.min2 a b) = false.
Proof.
  unfold F64.min2. destruct (F64.ltb b a) eqn:E.
  - split; [now right|]. split; [now apply ltb_asym | apply ltb_irrefl].
  - split; [now left|]. split; [apply ltb_irrefl | exact E].
Qed.

Lemma min_list_least first others :
  In (F64.min_list first others) (first :: others) /\
  forall x, In x (first :: others) -> F64.ltb x (F64.min_list first others) = false.
Proof.
  unfold F64.min_list.
  assert (forall seen acc,
             In acc seen -> (forall x, In x seen -> F64.ltb x acc = false) ->
             In (fold_left F64.min2 others acc) (seen ++ others)%list /\
             forall x, In x (seen ++ others)%list ->
                       F64.ltb x (fold_left F64.min2 others acc) = false) as Hgen.
  { induction others as [|y others IH]; intros seen acc Hin Hleast; cbn [fold_left].
    - rewrite app_nil_r. auto.
    - replace (seen ++ y :: others)%list with ((seen ++ [y]) ++ others)%list
        by now rewrite <- app_assoc.
      destruct (min2_lesser acc y) as (Hor & Ha & Hy). apply IH.
      + apply in_or_app. destruct Hor as [-> | ->]; [now left | right; now left].
      + intros x [Hx|[<-|[]]]%in_app_or; [|exact Hy].
        destruct (F64.ltb x (F64.min2 acc y)) eqn:E; [|reflexivity].
        rewrite <- (Hleast x Hx). symmetry. unfold F64.min2 in *.
        destruct (F64.ltb y acc) eqn:Eya; [|exact E]. now apply (ltb_trans x y acc). }
  apply (Hgen [first] first); [now left|]. intros x [<-|[]]. apply ltb_irrefl.
Qed.

Lemma rmap_parse_numbers gs :
  Forall number_text gs ->
  exists vals, rmap PyFloat.parse gs = Ok vals /\ Forall2 (fun g v => PyFloat.parse g = Ok v) gs vals.
Proof.
  induction 1 as [|g gs Hg _ (vals & IH & Hall)]; cbn [rmap]; [eauto|].
  destruct (number_parses g Hg) as [x Hx]. rewrite Hx. cbn [rbind]. rewrite IH. cbn [rbind].
  eauto.
Qed.

Lemma findall_single_numbers text : Forall number_text (Re.findall Re.single_re text).
Proof.
  apply Forall_forall. intros g (before & mid & after & caps & _ & Hm & ->)%findall_sound.
  now apply matches_single in Hm as (g' & -> & Hg).
Qed.

End RadiusFacts.
(** ** Which files a computation can write *)

Section Sparing.
Context `{Runtime}.

Lemma spares_ret {A} safe (a : A) : spares safe (mret a : io A).
Proof. intros w p _. reflexivity. Qed.

Lemma spares_raise {A} safe e : spares safe (raise e : io A).
Proof. intros w p _. reflexivity. Qed.

Lemma spares_lift {A} safe (r : result A) : spares safe (lift r).
Proof. intros w p _. reflexivity. Qed.

Lemma spares_print safe line : spares safe (Fs.print line).
Proof. intros w p _. reflexivity. Qed.

Lemma spares_bind {A B} safe (m : io A) (f : A -> io B) :
  spares safe m -> (forall a, spares safe (f a)) -> spares safe (m ≫= f).
Proof.
  intros Hm Hf w p Hp. rewrite bind_run. specialize (Hm w p Hp).
  destruct (m w) as [[a|e] w1]; cbn [snd] in *; [|exact Hm].
  now rewrite (Hf a w1 p Hp).
Qed.

Lemma spares_for_each {A S} safe (body : S -> A -> io S) l s :
  (forall s x, spares safe (body s x)) -> spares safe (for_each body l s).
Proof.
  intros Hbody. revert s. induction l as [|x l IH]; intros s; cbn [for_each].
  - apply spares_ret.
  - apply spares_bind; auto.
Qed.

Lemma spares_try_except {A} safe (m : io A) handler :
  spares safe m -> (forall e, spares safe (handler e)) -> spares safe (try_except m handler).
Proof.
  intros Hm Hh w p Hp. unfold try_except. specialize (Hm w p Hp).
  destruct (m w) as [[a|e] w1]; cbn [snd] in *; [exact Hm|].
  now rewrite (Hh e w1 p Hp).
Qed.

Lemma spares_mkdir_p safe p : spares safe (Fs.mkdir_p p).
Proof.
  intros w q _. unfold Fs.mkdir_p. destruct (Fs.is_file w p); [reflexivity|].
  destruct (find _ _); reflexivity.
Qed.

Lemma spares_read_text safe p : spares safe (Fs.read_text p).
Proof.
  intros w q _. unfold Fs.read_text. destruct (files w !! p); [reflexivity|].
  destruct (Fs.is_dir w p); reflexivity.
Qed.

Lemma spares_subdir_names safe root : spares safe (Fs.subdir_names root).
Proof.
  intros w q _. unfold Fs.subdir_names. destruct (Fs.is_dir w root); [reflexivity|].
  destruct (Fs.is_file w root); reflexivity.
Qed.

Lemma spares_write (safe : path -> Prop) p data :
  (forall q, safe q -> q <> p) -> spares safe (Fs.write p data).
Proof.
  intros Hp w q Hq. unfold Fs.write. destruct (Fs.is_dir w p); [reflexivity|].
  destruct (Fs.is_dir w (Path.parent p)); [|destruct (Fs.is_file _ _); reflexivity].
  cbn [snd files]. apply lookup_insert_ne. intros ->. now apply (Hp q).
Qed.

Lemma spares_copy (safe : path -> Prop) src dst :
  (forall q, safe q -> q <> dst /\ q <> (dst ++ [Path.name src])%list) ->
  spares safe (Fs.copy src dst).
Proof.
  intros Hp w q Hq. unfold Fs.copy. destruct (files w !! src) as [data|].
  - refine (spares_write safe _ data _ w q Hq). intros q' Hq'. destruct (Hp q' Hq').
    now destruct (Fs.is_dir w dst).
  - destruct (Fs.is_dir w src); reflexivity.
Qed.

Lemma spares_unlink (safe : path -> Prop) p :
  (forall q, safe q -> q <> p) -> spares safe (Fs.unlink p).
Proof.
  intros Hp w q Hq. rewrite unlink_run. destruct (files w !! p); [|reflexivity].
  case_bool_decide; [reflexivity|]. cbn [snd files]. apply lookup_delete_ne.
  intros ->. now apply (Hp q).
Qed.

Lemma spares_find_potcar_step safe root names acc element :
  spares safe (find_potcar_step root names acc element).
Proof.
  intros w p _. now destruct (find_potcar_step_frame root names acc element w) as [-> _].
Qed.

Lemma spares_find_potcar (safe : path -> Prop) elements dest root :
  (forall q, safe q -> q <> (dest ++ ["POTCAR"])%list) ->
  spares safe (find_potcar elements dest root).
Proof.
  intros Hp. unfold find_potcar.
  apply spares_bind; [apply spares_mkdir_p|]. intros _.
  apply spares_bind; [apply spares_subdir_names|]. intros names.
  apply spares_bind; [apply spares_for_each; intros; apply spares_find_potcar_step|].
  intros [[content rw] picked].
  apply spares_bind; [now apply spares_write|]. intros _. apply spares_ret.
Qed.

Lemma spares_create_input_dat (safe : path -> Prop) directory elements counts matrix
    min_latom_dis two_d layers relax base_area layer_matrix formula_value :
  (forall q, safe q -> q <> (directory ++ ["input.dat"])%list) ->
  spares safe (create_input_dat directory elements counts matrix min_latom_dis two_d layers
                 relax base_area layer_matrix formula_value).
Proof.
  intros Hp. unfold create_input_dat.
  apply spares_bind; [apply spares_mkdir_p|]. intros _.
  apply spares_bind; [apply spares_lift|]. intros two_d_parameters. now apply spares_write.
Qed.

Lemma spares_setup_directory (safe : path -> Prop) config dest matrix min_latom_dis base_area
    created m :
  (forall q, safe q -> forall k, k <> [] -> q <> ((dest ++ [PyInt.str m]) ++ k)%list) ->
  spares safe (setup_directory config dest matrix min_latom_dis base_area created m).
Proof.
  intros Hp. unfold setup_directory.
  apply spares_bind; [apply spares_mkdir_p|]. intros _.
  apply spares_bind.
  { apply spares_create_input_dat. intros q Hq. now apply Hp. }
  intros _. apply spares_bind.
  { apply spares_for_each. intros _ f. apply spares_copy. intros q Hq. split.
    - now apply Hp.
    - rewrite <- app_assoc. now apply Hp. }
  intros _. apply spares_bind; [apply spares_print|]. intros _. apply spares_ret.
Qed.

Lemma spares_remove_shared (safe : path -> Prop) dest u f :
  (forall q, safe q -> q <> (dest ++ [f])%list) -> spares safe (remove_shared dest u f).
Proof.
  intros Hp. unfold remove_shared. apply spares_try_except.
  - now apply spares_unlink.
  - intros e. apply spares_print.
Qed.

(** A run writes nothing outside its destination. *)
Lemma spares_setup_calypso config :
  spares (outside (destination config)) (setup_calypso config).
Proof.
  unfold setup_calypso. set (dest := destination config).
  assert (forall name q, outside dest q -> q <> (dest ++ [name])%list) as Hname
    by (intros name q Hq; apply Hq).
  apply spares_bind; [apply spares_mkdir_p|]. intros _.
  apply spares_bind; [apply spares_find_potcar, Hname|]. intros [rw min_latom_dis].
  apply spares_bind; [apply spares_lift|]. intros pstress.
  do 5 (apply spares_bind; [apply spares_write, Hname|]; intros _).
  apply spares_bind; [apply spares_lift|]. intros matrix.
  apply spares_bind; [apply spares_lift|]. intros base_area.
  apply spares_bind.
  { apply spares_for_each. intros created m. apply spares_setup_directory.
    intros q Hq k _. rewrite <- app_assoc. apply Hq. }
  intros created. apply spares_bind; [|intros _; apply spares_ret].
  apply spares_for_each. intros u f. apply spares_remove_shared, Hname.
Qed.

End Sparing.
(** ** What a failure leaves behind *)

Section Failing.
Context `{Runtime}.

Lemma spares_fails {A} safe (m : io A) : spares safe m -> fails_sparing safe m.
Proof. intros Hm w e w' p Hrun Hp. specialize (Hm w p Hp). now rewrite Hrun in Hm. Qed.

Lemma fails_sparing_bind {A B} safe (m : io A) (f : A -> io B) :
  spares safe m -> (forall a, fails_sparing safe (f a)) -> fails_sparing safe (m ≫= f).
Proof.
  intros Hm Hf w e w' p Hrun Hp. rewrite bind_run in Hrun. specialize (Hm w p Hp).
  destruct (m w) as [[a|e0] w1]; cbn [snd] in Hm.
  - rewrite <- Hm. now apply (Hf a w1 e w' p).
  - now injection Hrun as _ <-.
Qed.

Lemma write_fails p data w e w' : Fs.write p data w = (Raise e, w') -> w' = w.
Proof.
  unfold Fs.write. destruct (Fs.is_dir w p); [now intros [= _ <-]|].
  destruct (Fs.is_dir w (Path.parent p)); [discriminate|].
  destruct (Fs.is_file w (Path.parent p)); now intros [= _ <-].
Qed.

(** The resolver writes its one file last: when it raises, it has
    written nothing. *)
Lemma find_potcar_fails elements dest root :
  fails_sparing (fun _ => True) (find_potcar elements dest root).
Proof.
  unfold find_potcar.
  apply fails_sparing_bind; [apply spares_mkdir_p|]. intros _.
  apply fails_sparing_bind; [apply spares_subdir_names|]. intros names.
  apply fails_sparing_bind; [apply spares_for_each; intros; apply spares_find_potcar_step|].
  intros [[content rw] picked] w e w' p Hrun _. rewrite bind_run in Hrun.
  destruct (Fs.write_text _ _ w) as [[[]|e0] w1] eqn:Hw; [discriminate Hrun|].
  injection Hrun as _ <-. now rewrite (write_fails _ _ _ _ _ Hw).
Qed.

(** After the resolver, a run that raises has not touched the
    concatenated POTCAR. *)
Lemma after_resolver_fails config rw min_latom_dis :
  let dest := destination config in
  fails_sparing (fun p => p = (dest ++ ["POTCAR"])%list)
    (pstress_kbar_str ← lift (_format_pstress_kbar (pressure_gpa config));
     create_incar (Template.incar_1_content pstress_kbar_str) dest "INCAR_1";;
     create_incar (Template.incar_2_content pstress_kbar_str) dest "INCAR_2";;
     create_simple_file calypso_fullnode_script
       (Template.calypso_fullnode_content (calypso_executable config)) dest;;
     create_simple_file calypso_script
       (Template.calypso_content (calypso_executable config)) dest;;
     create_simple_file "submit.sh" (Template.submit_sh_content (vasp_executable config)) dest;;
     distance_of_ion_matrix ← lift (calculate_distance_of_ion rw);
     base_area ← lift (base_area_of config rw);
     created_directories ←
       for_each (setup_directory config dest distance_of_ion_matrix min_latom_dis base_area)
                (formula_multipliers config) [];
     for_each (remove_shared dest) files_to_copy tt;;
     mret created_directories).
Proof.
  intros dest.
  assert (forall name, name <> "POTCAR" ->
            forall q, q = (dest ++ ["POTCAR"])%list -> q <> (dest ++ [name])%list) as Hname.
  { intros name Hne q -> [_ Heq]%path_snoc_inj. congruence. }
  apply fails_sparing_bind; [apply spares_lift|]. intros pstress.
  do 5 (apply fails_sparing_bind; [apply spares_write, Hname; discriminate|]; intros _).
  apply fails_sparing_bind; [apply spares_lift|]. intros matrix.
  apply fails_sparing_bind; [apply spares_lift|]. intros base_area.
  apply fails_sparing_bind.
  { apply spares_for_each. intros created m. apply spares_setup_directory.
    intros q -> k Hk Heq. rewrite <- app_assoc in Heq. apply app_inv_head in Heq.
    destruct k as [|a [|b k]]; [contradiction | discriminate Heq | discriminate Heq]. }
  intros created w e w' p Hrun _. rewrite bind_run in Hrun.
  destruct (remove_all dest files_to_copy w) as (w1 & Hclean & _).
  rewrite Hclean in Hrun. discriminate Hrun.
Qed.

End Failing.
(** ** The least radius *)

Section LeastRadius.

Lemma Forall2_left_elem {A B} (Q : A -> B -> Prop) l l' x :
  Forall2 Q l l' -> x ∈ l -> exists y, y ∈ l' /\ Q x y.
Proof.
  induction 1 as [|a b l l' Hab _ IH]; intros Hx; [inversion Hx|].
  apply elem_of_cons in Hx as [->|Hx].
  - exists b. split; [apply list_elem_of_here | exact Hab].
  - destruct (IH Hx) as (y & Hy & Hq). exists y. split; [now apply list_elem_of_further | exact Hq].
Qed.

Lemma Forall2_right_elem {A B} (Q : A -> B -> Prop) l l' y :
  Forall2 Q l l' -> y ∈ l' -> exists x, x ∈ l /\ Q x y.
Proof.
  induction 1 as [|a b l l' Hab _ IH]; intros Hy; [inversion Hy|].
  apply elem_of_cons in Hy as [->|Hy].
  - exists a. split; [apply list_elem_of_here | exact Hab].
  - destruct (IH Hy) as (x & Hx & Hq). exists x. split; [now apply list_elem_of_further | exact Hq].
Qed.

Lemma find_potcar_picked elements dest root w rw min_latom_dis w1 :
  find_potcar elements dest root w = (Ok (rw, min_latom_dis), w1) ->
  exists picked,
    Forall2 (fun element r => Dict.get rw element = Some r) elements picked /\
    min_latom_dis = match picked with
                    | [] => None
                    | v :: vs => Some (F64.min_list v vs)
                    end.
Proof.
  intros (texts & picked & Hall & Hlt & Hlp & _ & Hmin)%find_potcar_resolved.
  exists picked. split; [|exact Hmin].
  rewrite <- (snd_zip texts picked) by lia.
  apply Forall2_fmap_r. eapply Forall2_impl; [exact Hall|]. now intros el tr [_ Hg].
Qed.

Lemma get_in_keys (d : Dict.t F64.float) k v : Dict.get d k = Some v -> k ∈ Dict.keys d.
Proof.
  intros Hin%get_In. apply list_elem_of_In, in_map_iff. now exists (k, v).
Qed.

End LeastRadius.
(** ** A scaler that fails *)

Section ScalerFails.

Lemma rmap_raise {A B} (f : A -> result B) l e :
  rmap f l = Raise e -> exists x, x ∈ l /\ f x = Raise e.
Proof.
  induction l as [|x l IH]; cbn [rmap]; [discriminate|].
  destruct (f x) as [y|e0] eqn:Hx; cbn [rbind].
  - destruct (rmap f l) as [ys|e1]; cbn [rbind]; [discriminate|].
    intros [= ->]. destruct (IH eq_refl) as (x' & Hin & Hf).
    exists x'. split; [now apply list_elem_of_further | exact Hf].
  - intros [= ->]. exists x. split; [apply list_elem_of_here | exact Hx].
Qed.

(** The one error of the scaler on a line: a count that [int] refuses. *)
Lemma adjust_line_raise multiplier line e :
  adjust_line multiplier line = Raise e ->
  exists v token,
    line = "NumberOfAtoms = " ++ v /\ token ∈ Str.split (Str.strip v) /\
    PyInt.parse token = None /\
    e = ValueError ("invalid literal for int() with base 10: " ++ token).
Proof.
  unfold adjust_line.
  destruct (Str.startswith line "SystemName = ") eqn:Hname.
  - apply startswith_app in Hname as [v ->]. simpl. discriminate.
  - destruct (Str.startswith line "NumberOfAtoms = ") eqn:Hatoms; [|discriminate].
    apply startswith_app in Hatoms as [v ->]. simpl.
    change (Str.strip (String " " v)) with (Str.strip v).
    destruct (rmap _ (Str.split (Str.strip v))) as [scaled|e0] eqn:Hs; simpl; [discriminate|].
    intros [= ->]. apply rmap_raise in Hs as (token & Hin & Htoken).
    exists v, token. split; [reflexivity|]. split; [exact Hin|].
    unfold PyInt.int in Htoken. destruct (PyInt.parse token); [discriminate|].
    cbn [rbind] in Htoken. injection Htoken as <-. auto.
Qed.

Lemma adjust_text_raise multiplier text e :
  adjust_text multiplier text = Raise e ->
  exists line, line ∈ Str.splitlines text /\ adjust_line multiplier line = Raise e.
Proof.
  unfold adjust_text. destruct (rmap _ _) as [lines|e0] eqn:Hr; cbn [rbind]; [discriminate|].
  intros [= ->]. now apply rmap_raise.
Qed.

(** A line of counts with a count that is no integer cannot be scaled. *)
Lemma bad_count_unscaled multiplier v token line' :
  token ∈ Str.split (Str.strip v) -> PyInt.parse token = None ->
  ~ scaled_line multiplier ("NumberOfAtoms = " ++ v) line'.
Proof.
  intros Hin Hnone Hs.
  assert (forall tokens counts, map PyInt.parse tokens = map Some counts ->
            token ∈ tokens -> False) as Hall.
  { clear -Hnone. induction tokens as [|t ts IH]; intros [|c cs] Hmap Ht;
      try discriminate Hmap; [inversion Ht|].
    cbn [map] in Hmap. injection Hmap as Hc Hmap.
    apply elem_of_cons in Ht as [->|Ht]; [congruence | eauto]. }
  inversion Hs as [v0 Heq|v0 counts Hcounts Heq|l Hname Hatoms Heq]; subst.
  - exact (Hall _ _ Hcounts Hin).
  - now rewrite startswith_prefix in Hatoms.
Qed.

Lemma adjust_input_dat_raise file_path multiplier w e w' :
  adjust_input_dat file_path multiplier w = (Raise e, w') -> w' = w.
Proof.
  rewrite adjust_input_dat_run. destruct (files w !! file_path) as [data|].
  - destruct (adjust_text _ _) as [new_content|e0].
    + unfold Fs.write_text. apply write_fails.
    + now intros [= _ <-].
  - now intros [= _ <-].
Qed.

End ScalerFails.
(** ** Lines, split and joined again *)

Section Lines.

Lemma inline_no_cr c : inline c = true -> no_cr c = true.
Proof.
  destruct c as [[] [] [] [] [] [] [] []]; intros Hc; vm_compute in Hc;
    (discriminate Hc || reflexivity).
Qed.

Lemma linebreak_space c : Str.islinebreak c = true -> Str.isspace c = true.
Proof.
  destruct c as [[] [] [] [] [] [] [] []]; intros Hc; vm_compute in Hc;
    (discriminate Hc || reflexivity).
Qed.

Lemma splitlines_unfold c rest :
  Str.splitlines (String c rest) =
  if Str.islinebreak c then
    match rest with
    | String c' rest' =>
        if Ascii.eqb c Str.CR && Ascii.eqb c' Str.LF
        then String c (String c' EmptyString) :: Str.splitlines rest'
        else String c EmptyString :: Str.splitlines rest
    | EmptyString => [String c EmptyString]
    end
  else
    match Str.splitlines rest with
    | [] => [String c EmptyString]
    | l :: ls => String c l :: ls
    end.
Proof. reflexivity. Qed.

Lemma splitlines_break t rest :
  Str.islinebreak t = true -> t <> Str.CR ->
  Str.splitlines (String t rest) = String t EmptyString :: Str.splitlines rest.
Proof.
  intros Ht Hcr. rewrite splitlines_unfold, Ht.
  destruct rest as [|c' rest']; [reflexivity|].
  destruct (Ascii.eqb t Str.CR) eqn:E; [apply Ascii.eqb_eq in E; contradiction|reflexivity].
Qed.

Lemma splitlines_terminated line rest :
  terminated line -> Str.splitlines (line ++ rest) = line :: Str.splitlines rest.
Proof.
  intros (body & t & -> & Hbody & Ht & Hcr). rewrite append_assoc. cbn [String.append].
  induction body as [|c body IH]; cbn [String.append].
  - now apply splitlines_break.
  - cbn [all_chars] in Hbody. apply andb_true_iff in Hbody as [Hc Hbody].
    rewrite splitlines_unfold, (IH Hbody).
    unfold inline in Hc. apply negb_true_iff in Hc. now rewrite Hc.
Qed.

Lemma splitlines_unterminated line : unterminated line -> Str.splitlines line = [line].
Proof.
  intros [Hne Hall]. induction line as [|c line IH]; [contradiction|].
  cbn [all_chars] in Hall. apply andb_true_iff in Hall as [Hc Hall].
  unfold inline in Hc. apply negb_true_iff in Hc. rewrite splitlines_unfold, Hc.
  destruct line as [|c' line]; [reflexivity|].
  rewrite IH; [reflexivity | discriminate | exact Hall].
Qed.

(** Joined and split again, the lines of a text are what they were. *)
Lemma splitlines_of_lines lines : well_lined lines -> Str.splitlines (Str.cat lines) = lines.
Proof.
  induction 1 as [|line Hline|line lines Hline _ IH].
  - reflexivity.
  - unfold Str.cat. cbn [fold_right]. rewrite append_nil_r. now apply splitlines_unterminated.
  - change (Str.cat (line :: lines)) with (line ++ Str.cat lines).
    now rewrite splitlines_terminated, IH.
Qed.

Lemma well_lined_no_cr lines : well_lined lines -> all_chars no_cr (Str.cat lines) = true.
Proof.
  induction 1 as [|line [_ Hline]|line lines (body & t & -> & Hbody & Ht & Hcr) _ IH].
  - reflexivity.
  - unfold Str.cat. cbn [fold_right]. rewrite append_nil_r.
    eapply all_chars_impl; [apply inline_no_cr | exact Hline].
  - change (Str.cat ((body ++ String t EmptyString) :: lines))
      with ((body ++ String t EmptyString) ++ Str.cat lines).
    rewrite !all_chars_app, IH, (all_chars_impl inline no_cr body inline_no_cr Hbody).
    cbn [all_chars]. unfold no_cr.
    destruct (Ascii.eqb t Str.CR) eqn:E; [apply Ascii.eqb_eq in E; contradiction | reflexivity].
Qed.

(** The lines of a text without carriage returns. *)
Lemma splitlines_well_lined text :
  all_chars no_cr text = true -> well_lined (Str.splitlines text).
Proof.
  induction text as [|c text IH]; intros Hcr; [constructor|].
  cbn [all_chars] in Hcr. apply andb_true_iff in Hcr as [Hc Hcr]. specialize (IH Hcr).
  assert (c <> Str.CR) as Hne.
  { intros ->. discriminate Hc. }
  destruct (Str.islinebreak c) eqn:Hb.
  - rewrite splitlines_break by assumption. apply well_lined_cons; [|exact IH].
    exists EmptyString, c. auto.
  - rewrite splitlines_unfold, Hb.
    assert (inline c = true) as Hin by (unfold inline; now rewrite Hb).
    destruct (Str.splitlines text) as [|l ls].
    + apply well_lined_last. split; [discriminate|]. cbn [all_chars]. now rewrite Hin.
    + inversion IH as [|l0 [Hl0 Hall]|l0 ls0 (body & t & -> & Hbody & Ht & Hcr') Hls]; subst.
      * apply well_lined_last. split; [discriminate|]. cbn [all_chars]. now rewrite Hin, Hall.
      * apply well_lined_cons; [|exact Hls]. exists (String c body), t.
        cbn [all_chars String.append]. rewrite Hin, Hbody. auto.
Qed.

Lemma universal_newlines_no_cr data : all_chars no_cr (Fs.universal_newlines data) = true.
Proof.
  induction data as [|c|c c' data IH1 IH2] using string_ind2.
  - reflexivity.
  - cbn [Fs.universal_newlines]. destruct (Ascii.eqb c Str.CR) eqn:E; [reflexivity|].
    cbn [all_chars]. unfold no_cr. now rewrite E.
  - change (Fs.universal_newlines (String c (String c' data))) with
      (if Ascii.eqb c Str.CR then
         String Str.LF (if Ascii.eqb c' Str.LF then Fs.universal_newlines data
                        else Fs.universal_newlines (String c' data))
       else String c (Fs.universal_newlines (String c' data))).
    destruct (Ascii.eqb c Str.CR) eqn:E.
    + destruct (Ascii.eqb c' Str.LF); cbn [all_chars]; [exact IH1 | exact IH2].
    + cbn [all_chars]. unfold no_cr at 1. now rewrite E, IH2.
Qed.

End Lines.
(** ** The scaler on a file that it has scaled before *)

Section Twice.

Lemma nonspace_inline c : nonspace c = true -> inline c = true.
Proof.
  destruct c as [[] [] [] [] [] [] [] []]; intros Hc; vm_compute in Hc;
    (discriminate Hc || reflexivity).
Qed.

Lemma all_chars_lstrip p s : all_chars p s = true -> all_chars p (Str.lstrip s) = true.
Proof.
  induction s as [|c s IH]; [reflexivity|]. intros Hs. cbn [Str.lstrip].
  destruct (Str.isspace c); [|exact Hs].
  cbn [all_chars] in Hs. apply andb_true_iff in Hs as [_ Hs]. now apply IH.
Qed.

Lemma all_chars_rstrip p s : all_chars p s = true -> all_chars p (Str.rstrip s) = true.
Proof.
  induction s as [|c s IH]; [reflexivity|]. intros Hs.
  cbn [all_chars] in Hs. apply andb_true_iff in Hs as [Hc Hs]. specialize (IH Hs).
  rewrite rstrip_cons. destruct (Str.rstrip s) as [|c' r].
  - destruct (Str.isspace c); [reflexivity|]. cbn [all_chars]. now rewrite Hc.
  - cbn [all_chars] in *. now rewrite Hc, IH.
Qed.

Lemma all_chars_strip p s : all_chars p s = true -> all_chars p (Str.strip s) = true.
Proof. intros Hs. unfold Str.strip. now apply all_chars_rstrip, all_chars_lstrip. Qed.

Lemma lstrip_head s c r : Str.lstrip s = String c r -> Str.isspace c = false.
Proof.
  induction s as [|c0 s IH]; [discriminate|]. cbn [Str.lstrip].
  destruct (Str.isspace c0) eqn:E; [exact IH|]. now intros [= <- _].
Qed.

Lemma strip_head v c r : Str.strip v = String c r -> Str.isspace c = false.
Proof.
  unfold Str.strip. destruct (Str.lstrip v) as [|c0 r0] eqn:E; [discriminate|].
  apply lstrip_head in E. rewrite rstrip_cons.
  destruct (Str.rstrip r0).
  - rewrite E. now intros [= <- _].
  - now intros [= <- _].
Qed.

(** A stripped value with a number after it has nothing to strip. *)
Lemma strip_stripped v n : Str.strip (Str.strip v ++ PyInt.str n) = Str.strip v ++ PyInt.str n.
Proof.
  pose proof (str_nonspace n) as Hn. pose proof (str_nonempty n) as Hne.
  unfold Str.strip at 1.
  assert (Str.lstrip (Str.strip v ++ PyInt.str n) = Str.strip v ++ PyInt.str n) as ->.
  { destruct (Str.strip v) as [|c r] eqn:E.
    - cbn [String.append]. now apply lstrip_nonspace.
    - apply strip_head in E. cbn [String.append Str.lstrip]. now rewrite E. }
  rewrite rstrip_app; rewrite (rstrip_nonspace _ Hn); [reflexivity | exact Hne].
Qed.

(** The value of a line that starts with a key. *)
Lemma value_of_terminated key v body t :
  all_chars inline key = true -> Str.islinebreak t = true ->
  key ++ v = body ++ String t EmptyString ->
  exists body', v = body' ++ String t EmptyString /\ body = key ++ body'.
Proof.
  intros Hkey Ht. revert body. induction key as [|c key IH]; intros body Heq.
  - exists body. auto.
  - cbn [all_chars] in Hkey. apply andb_true_iff in Hkey as [Hc Hkey].
    destruct body as [|c' body]; cbn [String.append] in Heq.
    + injection Heq as -> _. unfold inline in Hc. rewrite Ht in Hc. discriminate Hc.
    + injection Heq as -> Heq. destruct (IH Hkey body Heq) as (body' & -> & ->).
      exists body'. auto.
Qed.

Lemma value_inline key v :
  all_chars inline key = true ->
  terminated (key ++ v) \/ unterminated (key ++ v) ->
  all_chars inline (Str.strip v) = true.
Proof.
  intros Hkey [(body & t & Heq & Hbody & Ht & _)|[_ Hall]].
  - destruct (value_of_terminated key v body t Hkey Ht Heq) as (body' & -> & ->).
    rewrite all_chars_app in Hbody. apply andb_true_iff in Hbody as [_ Hbody].
    rewrite strip_padded.
    + now apply all_chars_strip.
    + cbn [all_chars]. now rewrite (linebreak_space t Ht).
  - rewrite all_chars_app in Hall. apply andb_true_iff in Hall as [_ Hall].
    now apply all_chars_strip.
Qed.

Lemma join_inline ts :
  Forall (fun t => all_chars inline t = true) ts -> all_chars inline (Str.join " " ts) = true.
Proof.
  induction 1 as [|t ts Ht _ IH]; [reflexivity|].
  destruct ts as [|t' ts]; [exact Ht|].
  change (Str.join " " (t :: t' :: ts)) with (t ++ String " " (Str.join " " (t' :: ts))).
  rewrite all_chars_app, Ht. cbn [all_chars]. now rewrite IH.
Qed.

Lemma str_inline n : all_chars inline (PyInt.str n) = true.
Proof. eapply all_chars_impl; [apply nonspace_inline | apply str_nonspace]. Qed.

Lemma terminated_body body :
  all_chars inline body = true -> terminated (body ++ Str.nl).
Proof. intros Hb. exists body, Str.LF. repeat split; [exact Hb | discriminate]. Qed.

(** A line that the scaler has written or kept is a line still. *)
Lemma scaled_line_lined multiplier line line' :
  scaled_line multiplier line line' ->
  (terminated line -> terminated line') /\
  (unterminated line -> terminated line' \/ unterminated line').
Proof.
  destruct 1 as [v | v counts Hc | line Hn Ha].
  - assert (terminated ("SystemName = " ++ v) \/ unterminated ("SystemName = " ++ v) ->
            terminated ("SystemName = " ++ Str.strip v ++ PyInt.str multiplier ++ Str.nl)) as Hl.
    { intros Hv. apply (value_inline "SystemName = " v eq_refl) in Hv.
      rewrite <- !append_assoc. apply terminated_body.
      rewrite !all_chars_app, Hv, str_inline. reflexivity. }
    split; auto.
  - assert (terminated ("NumberOfAtoms = " ++
              Str.join " " (map PyInt.str (map (fun n => n * multiplier) counts)) ++ Str.nl))
      as Hl.
    { rewrite <- append_assoc. apply terminated_body.
      rewrite all_chars_app. apply andb_true_iff. split; [reflexivity|].
      apply join_inline. clear Hc.
      induction counts as [|c cs IH]; cbn [map]; constructor; [apply str_inline | exact IH]. }
    split; auto.
  - split; auto.
Qed.

Lemma scaled_well_lined multiplier lines lines' :
  well_lined lines -> Forall2 (scaled_line multiplier) lines lines' -> well_lined lines'.
Proof.
  intros Hw. revert lines'.
  induction Hw as [|line Hline|line lines Hline _ IH]; intros lines' Hall.
  - inversion Hall. constructor.
  - inversion Hall as [|? l1 ? ls1 Hs Hnil]; subst. inversion Hnil; subst.
    destruct (proj2 (scaled_line_lined _ _ _ Hs) Hline) as [Ht|Hu].
    + apply well_lined_cons; [exact Ht | constructor].
    + now apply well_lined_last.
  - inversion Hall as [|? l1 ? ls1 Hs Hrest]; subst.
    apply well_lined_cons; [exact (proj1 (scaled_line_lined _ _ _ Hs) Hline) | now apply IH].
Qed.

(** What a second run makes of a line of the first. *)
Lemma scaled_again m1 m2 line line1 :
  scaled_line m1 line line1 ->
  exists line2, scaled_line m2 line1 line2 /\ scaled_twice m1 m2 line line2.
Proof.
  destruct 1 as [v | v counts Hc | line Hn Ha].
  - exists ("SystemName = " ++ Str.strip v ++ PyInt.str m1 ++ PyInt.str m2 ++ Str.nl).
    split; [|constructor].
    apply adjust_line_scaled.
    pose proof (adjust_system_name m2 (Str.strip v ++ PyInt.str m1)) as Hrun.
    rewrite strip_stripped, !append_assoc in Hrun. exact Hrun.
  - exists ("NumberOfAtoms = " ++
            Str.join " " (map PyInt.str (map (fun n => n * m1 * m2) counts)) ++ Str.nl).
    split; [|now constructor].
    apply adjust_line_scaled.
    pose proof (adjust_number_of_atoms m2 (map (fun n => n * m1) counts)) as Hrun.
    unfold number_of_atoms_of, scale_counts in Hrun.
    rewrite (map_map (fun n => n * m1) (fun count => count * m2)) in Hrun. exact Hrun.
  - exists line. split; now constructor.
Qed.

Lemma scaled_again_all m1 m2 lines lines1 :
  Forall2 (scaled_line m1) lines lines1 ->
  exists lines2, Forall2 (scaled_line m2) lines1 lines2 /\
                 Forall2 (scaled_twice m1 m2) lines lines2.
Proof.
  induction 1 as [|l l1 ls ls1 Hl _ (ls2 & H1 & H2)].
  - exists []. split; constructor.
  - destruct (scaled_again m1 m2 l l1 Hl) as (l2 & Hl1 & Hl2).
    exists (l2 :: ls2). split; now constructor.
Qed.

(** The scaler, run again on a file that it has scaled. *)
Lemma adjust_input_dat_again file_path m1 m2 w w1 :
  adjust_input_dat file_path m1 w = (Ok tt, w1) ->
  exists data new_lines,
    files w !! file_path = Some data /\
    Forall2 (scaled_twice m1 m2) (Str.splitlines (Fs.universal_newlines data)) new_lines /\
    adjust_input_dat file_path m2 w1
    = (Ok tt, World (<[file_path := Str.cat new_lines]> (files w)) (dirs w)
                    (undeletable w) (stdout w)).
Proof.
  rewrite adjust_input_dat_run.
  destruct (files w !! file_path) as [data|] eqn:Hdata; [|discriminate].
  destruct (adjust_text m1 (Fs.universal_newlines data)) as [text1|] eqn:Ha; [|discriminate].
  intros Hw. apply adjust_text_scaled in Ha as (lines1 & Hall & ->).
  destruct (scaled_again_all m1 m2 _ _ Hall) as (lines2 & Hall1 & Hall2).
  exists data, lines2. split; [reflexivity|]. split; [exact Hall2|].
  assert (well_lined lines1) as Hlined.
  { eapply scaled_well_lined; [|exact Hall].
    apply splitlines_well_lined, universal_newlines_no_cr. }
  unfold Fs.write_text, Fs.write in Hw.
  destruct (Fs.is_dir w file_path) eqn:Hd; [discriminate|].
  destruct (Fs.is_dir w (Path.parent file_path)) eqn:Hp;
    [|destruct (Fs.is_file w (Path.parent file_path)); discriminate].
  injection Hw as <-.
  rewrite adjust_input_dat_run. cbn [files]. rewrite lookup_insert_eq.
  rewrite (universal_newlines_id _ (well_lined_no_cr _ Hlined)).
  assert (adjust_text m2 (Str.cat lines1) = Ok (Str.cat lines2)) as ->.
  { apply adjust_text_scaled. exists lines2. split; [|reflexivity].
    now rewrite splitlines_of_lines. }
  unfold Fs.write_text, Fs.write, Fs.is_dir in *. cbn [dirs files undeletable stdout].
  rewrite Hd, Hp. now rewrite insert_insert_eq.
Qed.

End Twice.
(** ** The lookups of the area in 2D mode *)

Section AreaLookup.

(** [l.index(x)] is the first place of [x] in [l]. *)
Lemma list_index_first (l : list string) x :
  x ∈ l ->
  exists i, list_index l x = Ok i /\ nth_error l i = Some x /\
            forall j, (j < i)%nat -> nth_error l j <> Some x.
Proof.
  induction l as [|y l IH]; intros Hin; [inversion Hin|]. cbn [list_index].
  destruct (String.eqb y x) eqn:E.
  - apply String.eqb_eq in E as ->. exists O. repeat split. intros j Hj. lia.
  - apply elem_of_cons in Hin as [->|Hin]; [now rewrite String.eqb_refl in E|].
    destruct (IH Hin) as (i & -> & Hnth & Hfirst). exists (S i). repeat split; [exact Hnth|].
    intros [|j] Hj; cbn [nth_error].
    + intros [= ->]. now rewrite String.eqb_refl in E.
    + apply Hfirst. lia.
Qed.

Lemma max_key_empty : exists msg, max_key [] = Raise (ValueError msg).
Proof. eexists. reflexivity. Qed.

Lemma max_key_some (d : Dict.t F64.float) : d <> [] -> exists k, max_key d = Ok k.
Proof. destruct d as [|[k v] d]; [contradiction|]. eexists. reflexivity. Qed.

Context `{Runtime}.

(** The lookups behind the base area, for the map of a resolution of
    one element at least. *)
Lemma base_area_lookup (config : SetupConfig) (rwigs_values : Dict.t F64.float) :
  is_2d config = true ->
  Dict.keys rwigs_values = first_occurrences (elements config) ->
  elements config <> [] ->
  exists element radius i,
    max_key rwigs_values = Ok element /\
    Dict.get rwigs_values element = Some radius /\
    nth_error (elements config) i = Some element /\
    (forall j, (j < i)%nat -> nth_error (elements config) j <> Some element) /\
    base_area_of config rwigs_values =
      match nth_error (atom_counts config) i with
      | None => Raise (IndexError "list index out of range")
      | Some count =>
          rbind (F64.of_int count) (fun c =>
          rbind (float_pow radius 2) (fun sq =>
          Ok (Some (F64.mul (F64.mul c F64.pi) sq))))
      end /\
    ((length (elements config) <= length (atom_counts config))%nat ->
     is_Some (nth_error (atom_counts config) i)).
Proof.
  intros H2d Hkeys Hne.
  assert (rwigs_values <> []) as Hrw.
  { intros ->. destruct (elements config) as [|el els] eqn:He; [contradiction|].
    assert (el ∈ first_occurrences (el :: els)) as Hin
        by apply first_occurrences_elem, list_elem_of_here.
    rewrite <- Hkeys in Hin. inversion Hin. }
  destruct (max_key_some rwigs_values Hrw) as (element & Hmax).
  assert (NoDup (Dict.keys rwigs_values)) as Hnd
      by (rewrite Hkeys; apply first_occurrences_NoDup).
  destruct (max_key_largest rwigs_values element Hnd Hmax) as (radius & Hget & _).
  assert (element ∈ elements config) as Hel.
  { apply first_occurrences_elem. rewrite <- Hkeys. now apply (get_in_keys _ _ radius). }
  destruct (list_index_first _ _ Hel) as (i & Hidx & Hnth & Hfirst).
  exists element, radius, i. do 4 (split; [assumption|]). split.
  - unfold base_area_of, Dict.item, Str.index. rewrite H2d, Hmax. cbn [rbind].
    rewrite Hget. cbn [rbind]. rewrite Hidx. cbn [rbind].
    now destruct (nth_error (atom_counts config) i).
  - intros Hlen.
    assert (i < length (elements config))%nat as Hi
        by (apply nth_error_Some; now rewrite Hnth).
    destruct (nth_error (atom_counts config) i) as [count|] eqn:Hc; [now exists count|].
    apply nth_error_None in Hc. lia.
Qed.

(** Without an element the largest radius has nothing to choose from. *)
Lemma base_area_empty (config : SetupConfig) (rwigs_values : Dict.t F64.float) :
  is_2d config = true ->
  Dict.keys rwigs_values = first_occurrences (elements config) ->
  elements config = [] ->
  exists msg, base_area_of config rwigs_values = Raise (ValueError msg).
Proof.
  intros H2d Hk Hnil. rewrite Hnil in Hk. destruct rwigs_values; [|discriminate Hk].
  unfold base_area_of. rewrite H2d. eexists. reflexivity.
Qed.

End AreaLookup.
(** ** The prompt for a list of integers *)

Section PromptFacts.

Lemma rmap_int_ok tokens values :
  rmap PyInt.int tokens = Ok values <-> map PyInt.parse tokens = map Some values.
Proof.
  revert values. induction tokens as [|t ts IH]; intros values; cbn [rmap map].
  - split; [now intros [= <-] | destruct values; [reflexivity | discriminate]].
  - unfold PyInt.int at 1. destruct (PyInt.parse t) as [n|]; cbn [rbind].
    + destruct (rmap PyInt.int ts) as [vs|e] eqn:E; cbn [rbind].
      * split.
        -- intros [= <-]. cbn [map]. f_equal. now apply IH.
        -- destruct values as [|v vs']; [discriminate|]. cbn [map]. intros [= -> Hs].
           apply IH in Hs. now injection Hs as ->.
      * split; [discriminate|]. destruct values as [|v vs']; [discriminate|].
        cbn [map]. intros [= _ Hs]. apply IH in Hs. discriminate Hs.
    + split; [discriminate|]. destruct values; discriminate.
Qed.

Lemma rmap_int_raise tokens e :
  rmap PyInt.int tokens = Raise e -> exists token, token ∈ tokens /\ PyInt.parse token = None.
Proof.
  intros (token & Hin & Hraise)%rmap_raise. exists token. split; [exact Hin|].
  unfold PyInt.int in Hraise. now destruct (PyInt.parse token).
Qed.

Lemma parse_all_unique tokens values values' :
  map PyInt.parse tokens = map Some values -> map PyInt.parse tokens = map Some values' ->
  values' = values.
Proof.
  intros -> Heq. revert values' Heq.
  induction values as [|v vs IH]; intros [|v' vs']; cbn [map]; try discriminate; [reflexivity|].
  intros [= -> Hs]. f_equal. now apply IH.
Qed.

Lemma parse_all_none tokens values token :
  map PyInt.parse tokens = map Some values -> token ∈ tokens -> PyInt.parse token <> None.
Proof.
  revert values. induction tokens as [|t ts IH]; intros [|v vs] Hmap Hin;
    try discriminate Hmap; [inversion Hin|].
  cbn [map] in Hmap. injection Hmap as Ht Hts.
  apply elem_of_cons in Hin as [->|Hin]; [now rewrite Ht | now apply (IH vs)].
Qed.

(** The turn of the loop on a line: the line is accepted, with its
    values, or there is a complaint. *)
Lemma reply_accepts expected_len line values :
  Cli.int_list_reply expected_len line = inr values <-> accepts expected_len line values.
Proof.
  unfold Cli.int_list_reply, accepts.
  destruct (rmap PyInt.int (Str.split (Str.strip line))) as [vs|e] eqn:Hr.
  - apply rmap_int_ok in Hr. split.
    + intros Hreply.
      assert (vs = values /\ values <> [] /\
              forall n, expected_len = Some n -> length values = n) as (<- & Hne & Hlen).
      { destruct expected_len as [n|].
        - destruct (length vs =? n)%nat eqn:E; cbn [negb] in Hreply; [|discriminate].
          apply Nat.eqb_eq in E. destruct vs as [|v vs']; [discriminate|].
          injection Hreply as <-. repeat split; [discriminate|]. now intros ? [= <-].
        - destruct vs as [|v vs']; [discriminate|].
          injection Hreply as <-. repeat split; [discriminate|]. discriminate. }
      auto.
    + intros (Hmap & Hne & Hlen). rewrite (parse_all_unique _ _ _ Hmap Hr).
      destruct expected_len as [n|].
      * rewrite (Hlen n eq_refl), Nat.eqb_refl. cbn [negb].
        destruct values; [contradiction | reflexivity].
      * destruct values; [contradiction | reflexivity].
  - split; [discriminate|]. intros (Hmap & _). apply rmap_int_ok in Hmap.
    rewrite Hmap in Hr. discriminate Hr.
Qed.

Lemma reply_complains expected_len line complaint :
  Cli.int_list_reply expected_len line = inl complaint -> complains expected_len line complaint.
Proof.
  unfold Cli.int_list_reply.
  destruct (rmap PyInt.int (Str.split (Str.strip line))) as [vs|e] eqn:Hr.
  - apply rmap_int_ok in Hr. destruct expected_len as [n|].
    + destruct (length vs =? n)%nat eqn:E; cbn [negb].
      * apply Nat.eqb_eq in E. destruct vs as [|v vs']; [|discriminate].
        intros [= <-]. apply complains_nothing.
        -- now destruct (Str.split (Str.strip line)).
        -- intros ? [= <-]. now rewrite <- E.
      * apply Nat.eqb_neq in E. intros [= <-]. now apply (complains_wrong_count _ _ vs n).
    + destruct vs as [|v vs']; [|discriminate]. intros [= <-]. apply complains_nothing.
      * now destruct (Str.split (Str.strip line)).
      * discriminate.
  - apply rmap_int_raise in Hr as (token & Hin & Hnone). intros [= <-].
    now apply (complains_not_integers _ _ token).
Qed.

(** A line with a complaint is not accepted. *)
Lemma complains_rejected expected_len line complaint values :
  complains expected_len line complaint -> ~ accepts expected_len line values.
Proof.
  intros Hc (Hmap & Hne & Hlen). destruct Hc as [token Hin Hnone | vs n Hvs He Hn | Hnil _].
  - exact (parse_all_none _ _ _ Hmap Hin Hnone).
  - rewrite <- (parse_all_unique _ _ _ Hvs Hmap) in Hn. now apply Hn, Hlen.
  - rewrite Hnil in Hmap. now destruct values.
Qed.

(** The loop: the lines with a complaint are passed over, the first
    line without one is read. *)
Lemma prompt_int_list_loop_run prompt expected_len lines written :
  exists skipped complaints,
    Forall2 (complains expected_len) skipped complaints /\
    ((exists line values rest,
         lines = (skipped ++ line :: rest)%list /\ accepts expected_len line values /\
         Cli.prompt_int_list_loop prompt expected_len lines written
         = (Returned values, Console rest (written ++ asked prompt complaints))) \/
     (lines = skipped /\
      Cli.prompt_int_list_loop prompt expected_len lines written
      = (Stopped EOFError, Console [] (written ++ asked prompt complaints)))).
Proof.
  revert written. induction lines as [|line lines IH]; intros written.
  - exists [], []. split; [constructor|]. right. split; reflexivity.
  - cbn [Cli.prompt_int_list_loop].
    destruct (Cli.int_list_reply expected_len line) as [complaint|values] eqn:Hreply.
    + apply reply_complains in Hreply.
      destruct (IH (written ++ [prompt; (complaint ++ Str.nl)%string])%list)
        as (skipped & complaints & Hall & Hrun).
      exists (line :: skipped), (complaint :: complaints). split; [now constructor|].
      unfold asked in *. cbn [flat_map]. rewrite <- !app_assoc in *. cbn [app] in *.
      destruct Hrun as [(l & values & rest & -> & Hacc & ->)|[-> ->]].
      * left. exists l, values, rest. auto.
      * right. auto.
    + apply reply_accepts in Hreply. exists [], []. split; [constructor|].
      left. exists line, values, lines. auto.
Qed.

End PromptFacts.
(** ** The prompts of the layers and of the configuration *)

Section ConfigFacts.

Lemma cli_bind_returned {A B} (m : cli A) (f : A -> cli B) c b c' :
  (a ← m; f a) c = (Returned b, c') ->
  exists a c1, m c = (Returned a, c1) /\ f a c1 = (Returned b, c').
Proof.
  unfold mbind, cli_bind. destruct (m c) as [[a|s] c1]; [|discriminate].
  intros Hf. now exists a, c1.
Qed.

(** A prompt that returns has read the values of a line that it
    accepts, the last of the lines that it took. *)
Lemma prompt_int_list_returned prompt expected_len c values c' :
  Cli._prompt_int_list prompt expected_len c = (Returned values, c') ->
  exists skipped line,
    pending c = (skipped ++ line :: pending c')%list /\ accepts expected_len line values.
Proof.
  unfold Cli._prompt_int_list. intros Hrun.
  destruct (prompt_int_list_loop_run prompt expected_len (pending c) (shown c))
    as (skipped & complaints & _ & [(line & vs & rest & Hp & Hacc & Hloop)|[_ Hloop]]);
    rewrite Hloop in Hrun; [|discriminate Hrun].
  injection Hrun as <- <-. now exists skipped, line.
Qed.

Lemma prompt_int_list_accepted prompt expected_len line rest written values :
  accepts expected_len line values ->
  Cli._prompt_int_list prompt expected_len (Console (line :: rest) written)
  = (Returned values, Console rest (written ++ [prompt])).
Proof.
  intros Hacc%reply_accepts. unfold Cli._prompt_int_list. cbn [pending shown].
  cbn [Cli.prompt_int_list_loop]. now rewrite Hacc.
Qed.

(** The rows of the layers: one for every index, each the values of a
    line that is accepted, the lines in the order of the input. *)
Lemma layer_rows elements idxs acc c m c' :
  Cli.for_each (fun layer_matrix layer_idx =>
                  row ← Cli._prompt_int_list (Cli.layer_prompt layer_idx elements)
                          (Some (length elements));
                  mret (layer_matrix ++ [row])%list) idxs acc c = (Returned m, c') ->
  exists rows lines consumed,
    m = (acc ++ rows)%list /\ length rows = length idxs /\
    Forall2 (accepts (Some (length elements))) lines rows /\
    pending c = (consumed ++ pending c')%list /\ sublist lines consumed.
Proof.
  revert acc c. induction idxs as [|idx idxs IH]; intros acc c; cbn [Cli.for_each].
  - intros [= <- <-]. exists [], [], []. rewrite app_nil_r. repeat split; constructor.
  - intros (acc1 & c1 & Hstep & Hrest)%cli_bind_returned.
    apply cli_bind_returned in Hstep as (row & c0 & Hrow & Hret).
    injection Hret as <- <-.
    apply prompt_int_list_returned in Hrow as (skipped & line & Hp & Hacc).
    apply IH in Hrest as (rows & lines & consumed & -> & Hlen & Hall & Hp1 & Hsub).
    exists (row :: rows), (line :: lines), (skipped ++ line :: consumed)%list.
    rewrite <- !app_assoc. cbn [app length]. split; [reflexivity|]. split; [now rewrite Hlen|].
    split; [now constructor|]. split; [now rewrite Hp, Hp1|].
    apply sublist_inserts_l. now constructor.
Qed.

Lemma range_length start stop : length (Cli.range start stop) = Z.to_nat (stop - start).
Proof. unfold Cli.range. now rewrite length_map, length_seq. Qed.

Lemma accepts_row n line row : accepts (Some n) line row -> length row = n /\ row <> [].
Proof. intros (_ & Hne & Hlen). split; [now apply Hlen | exact Hne]. Qed.

End ConfigFacts.
Section ConfigRun.
Context `{Cli.System}.

(** What a configuration that the prompts return is made of. *)
Lemma prompt_config_returned args root calypso vasp c cfg c' :
  Cli.prompt_config args root calypso vasp c = (Returned cfg, c') ->
  exists counts multipliers two_d layers relax matrix,
    cfg = {| elements := Cli.arg_elements args;
             atom_counts := counts;
             formula_multipliers := multipliers;
             pressure_gpa := F64.zero;
             destination := Cli.resolve (Cli.arg_destination args);
             potcar_root := root;
             calypso_executable := calypso;
             vasp_executable := vasp;
             is_2d := two_d;
             num_layers := layers;
             relax_z := relax;
             layer_type_matrix := matrix |} /\
    (exists line, accepts (Some (length (Cli.arg_elements args))) line counts) /\
    (exists line, accepts None line multipliers) /\
    match matrix with
    | None => two_d = false /\ layers = 1 /\ relax = false
    | Some m =>
        two_d = true /\ length m = Z.to_nat layers /\
        exists lines, Forall2 (accepts (Some (length (Cli.arg_elements args)))) lines m
    end.
Proof.
  unfold Cli.prompt_config.
  intros (counts & c1 & Hcounts & Hrest)%cli_bind_returned.
  apply cli_bind_returned in Hrest as (answer & c2 & _ & Hrest).
  apply cli_bind_returned in Hrest as ([[layers relax] matrix] & c3 & Hmode & Hrest).
  apply cli_bind_returned in Hrest as (multipliers & c4 & Hmult & Hret).
  injection Hret as <- <-.
  apply prompt_int_list_returned in Hcounts as (_ & line1 & _ & Hacc1).
  apply prompt_int_list_returned in Hmult as (_ & line3 & _ & Hacc3).
  eexists counts, multipliers, _, layers, relax, matrix.
  split; [reflexivity|]. split; [now exists line1|]. split; [now exists line3|].
  destruct (Cli.member (Cli.lower (Str.strip answer)) ["y"; "yes"]) eqn:Hyes.
  - apply cli_bind_returned in Hmode as (reply & c5 & _ & Hmode).
    apply cli_bind_returned in Hmode as (n & c6 & _ & Hmode).
    apply cli_bind_returned in Hmode as (relax_reply & c7 & _ & Hmode).
    apply cli_bind_returned in Hmode as (m & c8 & Hm & Hret).
    injection Hret as <- <- <-.
    apply layer_rows in Hm as (rows & lines & consumed & -> & Hlen & Hall & _).
    cbn [app]. split; [exact Hyes|]. split.
    + rewrite Hlen, range_length. f_equal. lia.
    + now exists lines.
  - destruct (negb (Cli.member (Cli.lower (Str.strip answer)) ["n"; "no"])); [discriminate|].
    injection Hmode as <- <- <-. split; [exact Hyes|]. split; reflexivity.
Qed.

End ConfigRun.
Section Answers.
Context `{Cli.System}.

Lemma member_elem x l : Cli.member x l = true <-> x ∈ l.
Proof.
  unfold Cli.member. rewrite existsb_exists. split.
  - intros (y & Hin & ->%String.eqb_eq). now apply list_elem_of_In.
  - intros Hin. exists x. split; [now apply list_elem_of_In | apply String.eqb_refl].
Qed.

Lemma member_not_elem x l : Cli.member x l = false <-> x ∉ l.
Proof.
  rewrite <- member_elem. destruct (Cli.member x l); split; congruence.
Qed.

(** The configuration, from the answer to the first question on. *)
Lemma prompt_config_answer args root calypso vasp line answer rest written counts :
  accepts (Some (length (Cli.arg_elements args))) line counts ->
  Cli.prompt_config args root calypso vasp (Console (line :: answer :: rest) written) =
  (let is_2d_resp := Cli.lower (Str.strip answer) in
   let is_2d := Cli.member is_2d_resp ["y"; "yes"] in
   '(num_layers, relax_z, layer_matrix) ←
     (if is_2d then
        layers ← Cli.input "How many layers? ";
        num_layers ← Cli.uncaught (PyInt.int (Str.strip layers));
        relax ← Cli.input "Should the Z direction relax? (Y/N): ";
        let relax_z := Cli.member (Cli.lower (Str.strip relax)) ["y"; "yes"] in
        layer_matrix ← Cli._prompt_layer_matrix num_layers (Cli.arg_elements args);
        mret (num_layers, relax_z, Some layer_matrix)
      else if negb (Cli.member is_2d_resp ["n"; "no"]) then
        Cli.exit "Invalid response. Please answer Y or N."
      else mret (1, false, None));
   formula_multipliers ←
     Cli._prompt_int_list
       "How many formula values for the system? (space-separated integers): " None;
   mret {| elements := Cli.arg_elements args;
           atom_counts := counts;
           formula_multipliers := formula_multipliers;
           pressure_gpa := F64.zero;
           destination := Cli.resolve (Cli.arg_destination args);
           potcar_root := root;
           calypso_executable := calypso;
           vasp_executable := vasp;
           is_2d := is_2d;
           num_layers := num_layers;
           relax_z := relax_z;
           layer_type_matrix := layer_matrix |})
    (Console rest
       (written ++ [counts_prompt (Cli.arg_elements args);
                    "Is this a 2D structure search? (Y/N): "])%list).
Proof.
  intros Hacc. unfold Cli.prompt_config.
  unfold mbind at 1, cli_bind at 1.
  rewrite (prompt_int_list_accepted _ _ _ _ _ _ Hacc).
  unfold mbind at 1, cli_bind at 1. unfold Cli.input at 1. cbn [pending shown].
  rewrite <- app_assoc. reflexivity.
Qed.

End Answers.
(** ** How the prompts stop *)

Section Stops.
Context `{Cli.System}.

Lemma cli_bind_stopped {A B} (m : cli A) (f : A -> cli B) c s c' :
  (a ← m; f a) c = (Stopped s, c') ->
  m c = (Stopped s, c') \/ exists a c1, m c = (Returned a, c1) /\ f a c1 = (Stopped s, c').
Proof.
  unfold mbind, cli_bind. destruct (m c) as [[a|s0] c1]; [|left; congruence].
  intros Hf. right. now exists a, c1.
Qed.

Lemma prompt_int_list_stopped prompt expected_len c s c' :
  Cli._prompt_int_list prompt expected_len c = (Stopped s, c') -> s = EOFError.
Proof.
  unfold Cli._prompt_int_list. intros Hrun.
  destruct (prompt_int_list_loop_run prompt expected_len (pending c) (shown c))
    as (skipped & complaints & _ & [(line & vs & rest & _ & _ & Hloop)|[_ Hloop]]);
    rewrite Hloop in Hrun; [discriminate Hrun | now injection Hrun as <- _].
Qed.

Lemma layer_matrix_stopped num_layers elements c s c' :
  Cli._prompt_layer_matrix num_layers elements c = (Stopped s, c') -> s = EOFError.
Proof.
  unfold Cli._prompt_layer_matrix. generalize (Cli.range 1 (num_layers + 1)).
  intros idxs. generalize (@nil (list Z)) at 2. intros acc. revert acc c.
  induction idxs as [|idx idxs IH]; intros acc c; cbn [Cli.for_each]; [discriminate|].
  intros [Hstep|(acc1 & c1 & _ & Hrest)]%cli_bind_stopped; [|exact (IH _ _ Hrest)].
  apply cli_bind_stopped in Hstep as [Hrow|(row & c0 & _ & Hret)]; [|discriminate Hret].
  exact (prompt_int_list_stopped _ _ _ _ _ Hrow).
Qed.

End Stops.
(** ** The prompts, step by step *)

Section Steps.

Lemma cli_bind_assoc {A B C} (m : cli A) (f : A -> cli B) (g : B -> cli C) c :
  (b ← (a ← m; f a); g b) c = (a ← m; b ← f a; g b) c.
Proof. unfold mbind, cli_bind. now destruct (m c) as [[a|s] c1]. Qed.

Lemma cli_bind_input {B} prompt (f : string -> cli B) line rest written :
  (x ← Cli.input prompt; f x) (Console (line :: rest) written)
  = f line (Console rest (written ++ [prompt])).
Proof. reflexivity. Qed.

Lemma cli_bind_ret {A B} (a : A) (f : A -> cli B) c : (x ← mret a; f x) c = f a c.
Proof. reflexivity. Qed.

Lemma cli_bind_uncaught {A B} (r : result A) (f : A -> cli B) c :
  (x ← Cli.uncaught r; f x) c =
  match r with
  | Ok a => f a c
  | Raise e => (Stopped (Uncaught e), c)
  end.
Proof. now destruct r. Qed.

End Steps.
(** ** The files that a run touches *)

Section Touched.
Context `{Runtime}.

Lemma spares_for_each_elem {A S} (safe : path -> Prop) (body : S -> A -> io S) l s :
  (forall s x, x ∈ l -> spares safe (body s x)) -> spares safe (for_each body l s).
Proof.
  revert s. induction l as [|x l IH]; intros s Hbody; cbn [for_each].
  - apply spares_ret.
  - apply spares_bind; [apply Hbody, list_elem_of_here|].
    intros s'. apply IH. intros s0 y Hy. now apply Hbody, list_elem_of_further.
Qed.

Lemma name_of_child (dest : path) f : Path.name (dest ++ [f]) = f.
Proof. unfold Path.name. apply last_last. Qed.

Lemma spares_setup_directory_touched (safe : path -> Prop) config dest matrix min_latom_dis
    base_area created m :
  (forall q, safe q -> q <> (subdir dest m ++ ["input.dat"])%list) ->
  (forall q f, safe q -> f ∈ files_to_copy ->
               q <> (subdir dest m ++ [f])%list /\ q <> (subdir dest m ++ [f; f])%list) ->
  spares safe (setup_directory config dest matrix min_latom_dis base_area created m).
Proof.
  intros Hinput Hcopy. unfold setup_directory. fold (subdir dest m).
  apply spares_bind; [apply spares_mkdir_p|]. intros _.
  apply spares_bind; [now apply spares_create_input_dat|].
  intros _. apply spares_bind.
  { apply spares_for_each_elem. intros _ f Hf. apply spares_copy. intros q Hq.
    rewrite name_of_child, <- app_assoc. now apply Hcopy. }
  intros _. apply spares_bind; [apply spares_print|]. intros _. apply spares_ret.
Qed.

(** A run leaves every file that it does not touch as it was. *)
Lemma spares_untouched config :
  spares (fun p => ~ touched config p) (setup_calypso config).
Proof.
  unfold setup_calypso. set (dest := destination config).
  assert (forall f q, f ∈ files_to_copy -> ~ touched config q -> q <> (dest ++ [f])%list)
    as Hshared.
  { intros f q Hf Hq ->. apply Hq. left. now exists f. }
  assert (forall f, (bool_decide (f ∈ files_to_copy) = true) -> f ∈ files_to_copy) as Hdec
    by (intros f; apply bool_decide_eq_true_1).
  apply spares_bind; [apply spares_mkdir_p|]. intros _.
  apply spares_bind.
  { apply spares_find_potcar. intros q. now apply Hshared, Hdec. }
  intros [rw min_latom_dis].
  apply spares_bind; [apply spares_lift|]. intros pstress.
  do 5 (apply spares_bind;
        [apply spares_write; intros q; now apply Hshared, Hdec|]; intros _).
  apply spares_bind; [apply spares_lift|]. intros matrix.
  apply spares_bind; [apply spares_lift|]. intros base_area.
  apply spares_bind.
  { apply spares_for_each_elem. intros created m Hm. apply spares_setup_directory_touched.
    - intros q Hq ->. apply Hq. right. exists m. auto.
    - intros q f Hq Hf. split; intros ->; apply Hq; right; exists m; split; eauto. }
  intros created. apply spares_bind; [|intros _; apply spares_ret].
  apply spares_for_each_elem. intros u f Hf. apply spares_remove_shared. intros q.
  now apply Hshared.
Qed.

End Touched.
(** ** The directories that a run makes *)

Section Making.
Context `{Runtime}.

Lemma makes_same {A} made (m : io A) :
  (forall w, dirs (snd (m w)) = dirs w) -> makes made m.
Proof. intros Hm w d. rewrite Hm. auto. Qed.

Lemma makes_bind {A B} made (m : io A) (f : A -> io B) :
  makes made m -> (forall a, makes made (f a)) -> makes made (m ≫= f).
Proof.
  intros Hm Hf w d. rewrite bind_run. specialize (Hm w d).
  destruct (m w) as [[a|e] w1]; cbn [snd] in *; [|exact Hm].
  destruct (Hf a w1 d) as [Hin Hout]. split; [tauto|].
  intros [Hd|Hd]%Hout; [tauto | auto].
Qed.

Lemma makes_for_each {A S} made (body : S -> A -> io S) l s :
  (forall s x, x ∈ l -> makes made (body s x)) -> makes made (for_each body l s).
Proof.
  revert s. induction l as [|x l IH]; intros s Hbody; cbn [for_each].
  - now apply makes_same.
  - apply makes_bind; [apply Hbody, list_elem_of_here|].
    intros s'. apply IH. intros s0 y Hy. now apply Hbody, list_elem_of_further.
Qed.

Lemma makes_try_except {A} made (m : io A) handler :
  makes made m -> (forall e, makes made (handler e)) -> makes made (try_except m handler).
Proof.
  intros Hm Hh w d. unfold try_except. specialize (Hm w d).
  destruct (m w) as [[a|e] w1]; cbn [snd] in *; [exact Hm|].
  destruct (Hh e w1 d) as [Hin Hout]. split; [tauto|].
  intros [Hd|Hd]%Hout; [tauto | auto].
Qed.

Lemma makes_mkdir_p (made : path -> Prop) p :
  (forall d, d ∈ Path.parents p -> made d) -> makes made (Fs.mkdir_p p).
Proof.
  intros Hp w d. unfold Fs.mkdir_p. destruct (Fs.is_file w p); [cbn [snd]; auto|].
  destruct (find _ _); cbn [snd dirs]; [auto|].
  rewrite elem_of_union, elem_of_list_to_set. split; [auto|]. intros [?|?]; auto.
Qed.

Lemma makes_write made p data : makes made (Fs.write p data).
Proof.
  apply makes_same. intros w. unfold Fs.write. destruct (Fs.is_dir w p); [reflexivity|].
  destruct (Fs.is_dir w (Path.parent p)); [reflexivity|].
  now destruct (Fs.is_file w (Path.parent p)).
Qed.

Lemma makes_copy made src dst : makes made (Fs.copy src dst).
Proof.
  intros w d. unfold Fs.copy. destruct (files w !! src) as [data|]; [apply makes_write|].
  destruct (Fs.is_dir w src); cbn [snd]; auto.
Qed.

Lemma makes_unlink made p : makes made (Fs.unlink p).
Proof.
  apply makes_same. intros w. rewrite unlink_run. destruct (files w !! p); [|reflexivity].
  now case_bool_decide.
Qed.

Lemma makes_find_potcar (made : path -> Prop) elements dest root :
  (forall d, d ∈ Path.parents dest -> made d) -> makes made (find_potcar elements dest root).
Proof.
  intros Hp. unfold find_potcar.
  apply makes_bind; [now apply makes_mkdir_p|]. intros _.
  apply makes_bind.
  { apply makes_same. intros w. unfold Fs.subdir_names. destruct (Fs.is_dir w root); [reflexivity|].
    now destruct (Fs.is_file w root). }
  intros names. apply makes_bind.
  { apply makes_for_each. intros acc element _. apply makes_same. intros w.
    now destruct (find_potcar_step_frame root names acc element w) as (_ & -> & _). }
  intros [[content rw] picked].
  apply makes_bind; [apply makes_write|]. intros _. now apply makes_same.
Qed.

Lemma parents_child (dest : path) name d :
  d ∈ Path.parents (dest ++ [name]) -> d ∈ Path.parents dest \/ d = (dest ++ [name])%list.
Proof.
  revert d. induction dest as [|c dest IH]; intros d; cbn [app Path.parents map].
  - rewrite !elem_of_cons, elem_of_nil. intros [->|[->|[]]]; auto.
  - rewrite !elem_of_cons. intros [->|Hd]; [auto|].
    apply list_elem_of_In, in_map_iff in Hd as (d' & <- & Hd'%list_elem_of_In).
    destruct (IH d' Hd') as [Hin| ->]; [|auto].
    left. right. apply list_elem_of_In, in_map_iff. exists d'. split; [reflexivity|].
    now apply list_elem_of_In.
Qed.

Lemma makes_setup_directory (made : path -> Prop) config dest matrix min_latom_dis base_area
    created m :
  (forall d, d ∈ Path.parents (subdir dest m) -> made d) ->
  makes made (setup_directory config dest matrix min_latom_dis base_area created m).
Proof.
  intros Hp. unfold setup_directory. fold (subdir dest m).
  apply makes_bind; [now apply makes_mkdir_p|]. intros _.
  apply makes_bind.
  { unfold create_input_dat. apply makes_bind; [now apply makes_mkdir_p|]. intros _.
    apply makes_bind; [now apply makes_same|]. intros two_d. apply makes_write. }
  intros _. apply makes_bind.
  { apply makes_for_each. intros _ f _. apply makes_copy. }
  intros _. apply makes_bind; [now apply makes_same|]. intros _. now apply makes_same.
Qed.

(** A run removes no directory, and makes none but its destination,
    the directories above it and those of its multipliers. *)
Lemma makes_setup_calypso config : makes (made_by config) (setup_calypso config).
Proof.
  unfold setup_calypso. set (dest := destination config).
  assert (forall d, d ∈ Path.parents dest -> made_by config d) as Hdest by (intros d; now left).
  apply makes_bind; [now apply makes_mkdir_p|]. intros _.
  apply makes_bind; [now apply makes_find_potcar|]. intros [rw min_latom_dis].
  apply makes_bind; [now apply makes_same|]. intros pstress.
  do 5 (apply makes_bind; [apply makes_write|]; intros _).
  apply makes_bind; [now apply makes_same|]. intros matrix.
  apply makes_bind; [now apply makes_same|]. intros base_area.
  apply makes_bind.
  { apply makes_for_each. intros created m Hm. apply makes_setup_directory.
    intros d [Hd| ->]%parents_child; [now left|]. right. now exists m. }
  intros created. apply makes_bind; [|intros _; now apply makes_same].
  apply makes_for_each. intros u f _. unfold remove_shared. apply makes_try_except.
  - apply makes_unlink.
  - intros e. now apply makes_same.
Qed.

End Making.

Section Made.
Context `{Runtime}.

Lemma makes_kept {A} made (m : io A) w r w' d :
  makes made m -> m w = (r, w') -> d ∈ dirs w -> d ∈ dirs w'.
Proof. intros Hm Hrun Hd. destruct (Hm w d) as [Hin _]. rewrite Hrun in Hin. auto. Qed.

Lemma parents_self (p : path) : p ∈ Path.parents p.
Proof.
  induction p as [|c p IH]; cbn [Path.parents]; [apply list_elem_of_here|].
  apply list_elem_of_further, list_elem_of_In, in_map, list_elem_of_In, IH.
Qed.

(** A turn of the loop that ends well has made the directory of its
    multiplier. *)
Lemma setup_directory_made config dest matrix min_latom_dis base_area created m w created' w' :
  setup_directory config dest matrix min_latom_dis base_area created m w = (Ok created', w') ->
  subdir dest m ∈ dirs w'.
Proof.
  unfold setup_directory. fold (subdir dest m).
  intros ([] & wa & (_ & Hda & _)%mkdir_p_ok & Hrest)%bind_ok_inv.
  assert (subdir dest m ∈ dirs wa) as Hin.
  { rewrite Hda. apply elem_of_union_r, elem_of_list_to_set, parents_self. }
  refine (makes_kept (fun _ => True) _ _ _ _ _ _ Hrest Hin).
  apply makes_bind.
  { unfold create_input_dat. apply makes_bind; [now apply makes_mkdir_p|]. intros _.
    apply makes_bind; [now apply makes_same|]. intros two_d. apply makes_write. }
  intros _. apply makes_bind.
  { apply makes_for_each. intros _ f _. apply makes_copy. }
  intros _. apply makes_bind; [now apply makes_same|]. intros _. now apply makes_same.
Qed.

(** A run that ends well has made its destination, the directories
    above it and the directories of its multipliers. *)
Lemma setup_calypso_made config w created w' d :
  setup_calypso config w = (Ok created, w') -> made_by config d -> d ∈ dirs w'.
Proof.
  unfold setup_calypso. set (dest := destination config).
  intros ([] & w0 & (_ & Hd0 & _)%mkdir_p_ok & Hrest)%bind_ok_inv Hmade.
  apply bind_ok_inv in Hrest as ([rw min_latom_dis] & w1 & Hfind & Hrest).
  pose proof Hfind as (potcar & _ & Hd1 & _)%find_potcar_ok.
  apply bind_ok_inv in Hrest as (pstress & ? & (_ & ->)%lift_ok_inv & Hrest).
  apply bind_ok_inv in Hrest as ([] & wa & (_ & Hda & _)%write_ok & Hrest).
  apply bind_ok_inv in Hrest as ([] & wb & (_ & Hdb & _)%write_ok & Hrest).
  apply bind_ok_inv in Hrest as ([] & wc & (_ & Hdc & _)%write_ok & Hrest).
  apply bind_ok_inv in Hrest as ([] & wd & (_ & Hdd & _)%write_ok & Hrest).
  apply bind_ok_inv in Hrest as ([] & w2 & (_ & Hd2 & _)%write_ok & Hrest).
  apply bind_ok_inv in Hrest as (matrix & ? & (_ & ->)%lift_ok_inv & Hrest).
  apply bind_ok_inv in Hrest as (base_area & ? & (_ & ->)%lift_ok_inv & Hrest).
  apply bind_ok_inv in Hrest as (dirs3 & w3 & Hloop & Hrest).
  apply bind_ok_inv in Hrest as ([] & w4 & Hremove & Hret). injection Hret as _ <-.
  assert (forall d, d ∈ dirs w3 -> d ∈ dirs w4) as Hkept.
  { intros d0. refine (makes_kept (fun _ => True) _ _ _ _ _ _ Hremove).
    apply makes_for_each. intros u f _. unfold remove_shared. apply makes_try_except.
    - apply makes_unlink.
    - intros e. now apply makes_same. }
  apply Hkept.
  pose proof (for_each_ok (setup_directory config dest matrix min_latom_dis base_area)
                (fun done _ w => (forall d, d ∈ dirs w2 -> d ∈ dirs w) /\
                                 forall m, m ∈ done -> subdir dest m ∈ dirs w)
                (formula_multipliers config) [] w2 dirs3 w3) as Hinv.
  destruct Hinv as [Hold Hnew]; [| |exact Hloop|].
  - split; [auto|]. intros m Hm. inversion Hm.
  - intros done x s1 wx s2 wy _ [Hold Hnew] Hstep. split.
    + intros d0 Hd0'. apply Hold in Hd0'.
      refine (makes_kept (fun _ => True) _ _ _ _ _ _ Hstep Hd0').
      now apply makes_setup_directory.
    + intros m [Hm| ->%list_elem_of_singleton]%elem_of_app.
      * refine (makes_kept (fun _ => True) _ _ _ _ _ _ Hstep (Hnew m Hm)).
        now apply makes_setup_directory.
      * exact (setup_directory_made _ _ _ _ _ _ _ _ _ _ Hstep).
  - destruct Hmade as [Hp|(m & Hm & ->)]; [|now apply Hnew].
    apply Hold. rewrite Hd2, Hdd, Hdc, Hdb, Hda, Hd1, Hd0.
    apply elem_of_union_r, elem_of_list_to_set, Hp.
Qed.

End Made.

(** ** The texts of the descriptor *)

Section TemplateParts.

Lemma suffix_cut (s suf : string) :
  String.eqb (substring 0 (String.length s - String.length suf) s ++ suf) s = true ->
  exists pre, s = pre ++ suf.
Proof. intros Heq%String.eqb_eq. eexists. symmetry. exact Heq. Qed.

Lemma middle_cut (s pre suf : string) :
  String.eqb (pre ++ substring (String.length pre)
                       (String.length s - String.length pre - String.length suf) s ++ suf) s
  = true ->
  exists t, s = pre ++ t ++ suf.
Proof. intros Heq%String.eqb_eq. eexists. symmetry. exact Heq. Qed.

(** A text of six fields between seven fixed pieces, cut at the
    marks that end or begin its pieces. *)
Lemma fields_between (p1 p2 p3 p4 p5 p6 p7 m1 m4 m5 m6 : string) (b c : string) :
  (exists h, p1 = h ++ m1) -> (exists h, p4 = h ++ m4) -> (exists h, p5 = h ++ m5) ->
  (exists t, p6 = m6 ++ t) ->
  exists head mid1 mid2 mid3,
    forall a d e f,
      p1 ++ a ++ p2 ++ b ++ p3 ++ c ++ p4 ++ d ++ p5 ++ e ++ p6 ++ f ++ p7
      = head ++ m1 ++ a ++ mid1 ++ m4 ++ d ++ mid2 ++ m5 ++ e ++ m6 ++ mid3 ++ f ++ p7.
Proof.
  intros [h1 ->] [h4 ->] [h5 ->] [t6 ->].
  exists h1, (p2 ++ b ++ p3 ++ c ++ h4), h5, t6. intros a d e f.
  now rewrite !append_assoc.
Qed.

(** The descriptor: what is before, between and after the name, the
    counts and the block of the distances does not depend on them. *)
Lemma input_content_parts (number_of_species name_of_atoms : string) :
  exists head mid1 mid2 mid3,
    forall system_name number_of_atoms distance_of_ion_str two_d_parameters,
      Template.input_content system_name number_of_species name_of_atoms number_of_atoms
        distance_of_ion_str two_d_parameters
      = head ++ "SystemName = " ++ system_name ++ mid1 ++
        "NumberOfAtoms = " ++ number_of_atoms ++ mid2 ++
        ("@DistanceOfIon" ++ Str.nl) ++ distance_of_ion_str ++ (Str.nl ++ "@End" ++ Str.nl) ++
        mid3 ++ two_d_parameters ++ Str.nl.
Proof.
  unfold Template.input_content. apply fields_between.
  - apply suffix_cut. vm_compute. reflexivity.
  - apply suffix_cut. vm_compute. reflexivity.
  - apply suffix_cut. vm_compute. reflexivity.
  - eexists. vm_compute. reflexivity.
Qed.

Lemma fields_of_two_d (q1 q2 q3 q4 q5 q6 m2 m3 m4 m5 m5' m6 : string) (n dz : string) :
  (exists h, q2 = h ++ m2) -> (exists t, q3 = m3 ++ t) -> (exists h, q4 = h ++ m4) ->
  (exists t, q5 = m5 ++ t ++ m5') -> (exists t, q6 = m6 ++ t) ->
  exists t1 t2 t3 t4,
    forall area layers latom,
      q1 ++ n ++ q2 ++ area ++ q3 ++ dz ++ q4 ++ layers ++ q5 ++ latom ++ q6
      = t1 ++ m2 ++ area ++ m3 ++ t2 ++ m4 ++ layers ++ m5 ++ t3 ++ m5' ++ latom ++ m6 ++ t4.
Proof.
  intros [h2 ->] [t3 ->] [h4 ->] [t5 ->] [t6 ->].
  exists (q1 ++ n ++ h2), (t3 ++ dz ++ h4), t5, t6. intros area layers latom.
  now rewrite !append_assoc.
Qed.

(** The block of the 2D parameters: the lines of the area and of the
    least distance, and the block of the layers. *)
Lemma two_d_parameters_parts (num_layers delta_z : string) :
  exists t1 t2 t3 t4,
    forall adjusted_area layer_type_str latom_line,
      Template.two_d_parameters_text num_layers adjusted_area delta_z layer_type_str latom_line
      = t1 ++ (Str.nl ++ "Area = ") ++ adjusted_area ++ Str.nl ++ t2 ++
        ("@LayerType" ++ Str.nl) ++ layer_type_str ++ (Str.nl ++ "@End" ++ Str.nl) ++
        t3 ++ Str.nl ++ latom_line ++ Str.nl ++ t4.
Proof.
  unfold Template.two_d_parameters_text. apply fields_of_two_d.
  - apply suffix_cut. vm_compute. reflexivity.
  - eexists. vm_compute. reflexivity.
  - apply suffix_cut. vm_compute. reflexivity.
  - apply middle_cut. vm_compute. reflexivity.
  - eexists. vm_compute. reflexivity.
Qed.

(** The descriptor in 2D mode has the line of the area. *)
Lemma input_content_area (system_name number_of_species name_of_atoms number_of_atoms
    distance_of_ion_str num_layers adjusted_area delta_z layer_type_str latom_line : string) :
  exists before after,
    Template.input_content system_name number_of_species name_of_atoms number_of_atoms
      distance_of_ion_str
      (Template.two_d_parameters_text num_layers adjusted_area delta_z layer_type_str latom_line)
    = before ++ (Str.nl ++ "Area = ") ++ adjusted_area ++ Str.nl ++ after.
Proof.
  destruct (input_content_parts number_of_species name_of_atoms)
    as (head & mid1 & mid2 & mid3 & Hparts).
  destruct (two_d_parameters_parts num_layers delta_z) as (t1 & t2 & t3 & t4 & Htwo_d).
  rewrite Hparts, Htwo_d.
  exists (head ++ "SystemName = " ++ system_name ++ mid1 ++
          "NumberOfAtoms = " ++ number_of_atoms ++ mid2 ++
          ("@DistanceOfIon" ++ Str.nl) ++ distance_of_ion_str ++
          (Str.nl ++ "@End" ++ Str.nl) ++ mid3 ++ t1),
         (t2 ++ ("@LayerType" ++ Str.nl) ++ layer_type_str ++ (Str.nl ++ "@End" ++ Str.nl) ++
          t3 ++ Str.nl ++ latom_line ++ Str.nl ++ t4 ++ Str.nl).
  generalize ("@DistanceOfIon" ++ Str.nl) (Str.nl ++ "@End" ++ Str.nl)
             ("@LayerType" ++ Str.nl) (Str.nl ++ "Area = ") Str.nl.
  intros a b c d e. generalize "SystemName = " "NumberOfAtoms = ". intros f g.
  now rewrite !append_assoc.
Qed.

End TemplateParts.

(** * The claims *)


(** ** C9: what the in-place scaler leaves alone *)



(** ** C4: the distance-of-ion matrix *)

(** C4, as stated, fails on the diagonal: for the radius 1e308 the sum
    of the radius with itself overflows, and the entry is infinite,
    while 1.2 times the radius is finite. *)
Lemma diagonal_overflows :
  ~ (forall (rwigs_values : Dict.t F64.float) matrix i ki ri,
       NoDup (Dict.keys rwigs_values) ->
       calculate_distance_of_ion rwigs_values = Ok matrix ->
       rwigs_values !! i = Some (ki, ri) -> F64.valid ri = true ->
       at_ matrix i i = Some (F64.mul c1_2 ri)).
Proof.
  intros Hclaim.
  specialize (Hclaim huge_radius [[S754_infinity false]] 0%nat "Fe"
                (F64.of_ratio false (10 ^ 308) 1)).
  assert (NoDup (Dict.keys huge_radius)) as Hnd
    by (refine (bool_decide_unpack (NoDup _) _); vm_compute; exact I).
  specialize (Hclaim Hnd).
  assert (calculate_distance_of_ion huge_radius = Ok [[S754_infinity false]]) as Hm
    by (vm_compute; reflexivity).
  specialize (Hclaim Hm eq_refl).
  assert (F64.valid (F64.of_ratio false (10 ^ 308) 1) = true) as Hv
    by (vm_compute; reflexivity).
  specialize (Hclaim Hv). vm_compute in Hclaim. discriminate Hclaim.
Qed.

(** C4, as amended: for every radius map the matrix is square, of the
    size of the map; its entry in row [i] and column [j] is the sum of
    the radii [i] and [j] times 0.6; it is symmetric; and its diagonal
    entry [i] is 1.2 times the radius [i] whenever the radius is not
    finite or its double is (no overflow). *)
Theorem distance_of_ion_matrix (rwigs_values : Dict.t F64.float) :
  NoDup (Dict.keys rwigs_values) ->
  exists matrix,
    calculate_distance_of_ion rwigs_values = Ok matrix /\
    length matrix = length rwigs_values /\
    Forall (fun row => length row = length rwigs_values) matrix /\
    (forall i j ki kj ri rj,
        rwigs_values !! i = Some (ki, ri) -> rwigs_values !! j = Some (kj, rj) ->
        at_ matrix i j = Some (F64.mul (F64.add ri rj) F64.c0_6)) /\
    (forall i j, at_ matrix i j = at_ matrix j i) /\
    (forall i ki ri,
        rwigs_values !! i = Some (ki, ri) -> F64.valid ri = true ->
        F64.is_finite ri = false \/ F64.is_finite (F64.add ri ri) = true ->
        at_ matrix i i = Some (F64.mul c1_2 ri)).
Proof.
  intros Hnd. eexists. split; [apply calculate_distance_of_ion_eq|].
  assert (forall i j ki kj ri rj,
             rwigs_values !! i = Some (ki, ri) -> rwigs_values !! j = Some (kj, rj) ->
             at_ (map (fun ki => map (fun kj => entry rwigs_values ki kj)
                                   (Dict.keys rwigs_values)) (Dict.keys rwigs_values)) i j
             = Some (F64.mul (F64.add ri rj) F64.c0_6)) as Hentry.
  { intros i j ki kj ri rj Hi Hj. rewrite at_matrix.
    rewrite (keys_nth _ _ _ _ Hi), (keys_nth _ _ _ _ Hj). unfold entry, radius.
    now rewrite (get_nth _ _ _ _ Hnd Hi), (get_nth _ _ _ _ Hnd Hj). }
  repeat split.
  - unfold Dict.keys. now rewrite !length_map.
  - apply Forall_forall. intros row Hrow. apply list_elem_of_In, in_map_iff in Hrow as (k & <- & _).
    unfold Dict.keys. now rewrite !length_map.
  - exact Hentry.
  - intros i j. rewrite !at_matrix.
    destruct (Dict.keys rwigs_values !! i), (Dict.keys rwigs_values !! j); try reflexivity.
    now rewrite entry_sym.
  - intros i ki ri Hi Hv Hfin. rewrite (Hentry i i ki ki ri ri Hi Hi).
    now rewrite mul_double.
Qed.

Lemma distance_of_ion_matrix_witness :
  NoDup (Dict.keys fe_o_radii) /\
  exists matrix,
    calculate_distance_of_ion fe_o_radii = Ok matrix /\
    at_ matrix 0 1 = at_ matrix 1 0 /\
    at_ matrix 1 1 = Some (F64.mul c1_2 (F64.of_ratio false 2 1)).
Proof.
  assert (NoDup (Dict.keys fe_o_radii)) as Hnd
    by (refine (bool_decide_unpack (NoDup _) _); vm_compute; exact I).
  split; [exact Hnd|].
  destruct (distance_of_ion_matrix fe_o_radii Hnd)
    as (matrix & Hm & _ & _ & _ & Hsym & Hdiag).
  exists matrix. split; [exact Hm|]. split; [apply Hsym|].
  apply (Hdiag 1%nat "O"); [reflexivity | vm_compute; reflexivity | right; vm_compute; reflexivity].
Defined.

(** ** C2: the direct rendering and the in-place scaler *)

(** C2, as stated, fails for the system name: rendered from the
    scaled counts it is Fe3O3, scaled in place it is Fe1O13. *)
Lemma direct_and_scaled_names_differ :
  ~ (field_lines "SystemName = " (content direct_render ["run"; "input.dat"]) =
     field_lines "SystemName = " (content render_then_scale ["run"; "input.dat"])).
Proof.
  assert (field_lines "SystemName = " (content direct_render ["run"; "input.dat"])
          = ["SystemName = Fe3O3" ++ Str.nl]) as -> by (vm_compute; reflexivity).
  assert (field_lines "SystemName = " (content render_then_scale ["run"; "input.dat"])
          = ["SystemName = Fe1O13" ++ Str.nl]) as -> by (vm_compute; reflexivity).
  discriminate.
Qed.

(** C2, as amended: for every element list, base counts and
    multiplier, the line of the atom counts rendered from the base
    counts and scaled in place is the line rendered from the counts
    scaled beforehand; the system names differ by design: scaled in
    place, the line of the name carries the base name with the
    multiplier appended, rendered directly it carries every element
    with its scaled count. *)
Theorem scaler_and_direct_render (elements : list string) (counts : list Z) (multiplier : Z) :
  adjust_line multiplier ("NumberOfAtoms = " ++ number_of_atoms_of counts ++ Str.nl)
  = Ok ("NumberOfAtoms = " ++ number_of_atoms_of (scale_counts multiplier counts) ++ Str.nl) /\
  adjust_line multiplier ("SystemName = " ++ system_name_of elements counts ++ Str.nl)
  = Ok ("SystemName = " ++ Str.strip (system_name_of elements counts) ++
        PyInt.str multiplier ++ Str.nl) /\
  system_name_of elements (scale_counts multiplier counts)
  = Str.cat (zip_with (fun el count => el ++ PyInt.str (count * multiplier)) elements counts).
Proof.
  split; [apply adjust_number_of_atoms|]. split; [apply adjust_system_name|].
  unfold system_name_of, scale_counts. f_equal.
  revert counts. induction elements as [|el els IH]; intros [|c cs]; simpl; f_equal; auto.
Qed.

(** ** C10: the entries of the radius map *)

(** C10, as stated, fails for a repeated symbol: for the elements Fe
    and Fe the map has one entry, and the matrix has one row, while the
    list has two elements. *)
Lemma repeated_symbol_has_one_entry :
  ~ (forall elements destination root w rwigs_values min_latom_dis w' matrix,
       find_potcar elements destination root w = (Ok (rwigs_values, min_latom_dis), w') ->
       calculate_distance_of_ion rwigs_values = Ok matrix ->
       length matrix = length elements).
Proof.
  intros Hclaim.
  assert (exists rwigs_values min_latom_dis w',
             find_potcar ["Fe"; "Fe"] ["run"] ["pot"] potcar_world
             = (Ok (rwigs_values, min_latom_dis), w') /\
             exists matrix, calculate_distance_of_ion rwigs_values = Ok matrix /\
                            length matrix = 1%nat)
    as (rwigs_values & min_latom_dis & w' & Hrun & matrix & Hmatrix & Hlen).
  { vm_compute. do 3 eexists. split; [reflexivity|]. eexists. split; reflexivity. }
  specialize (Hclaim _ _ _ _ _ _ _ _ Hrun Hmatrix). rewrite Hlen in Hclaim. discriminate Hclaim.
Qed.

(** C10, as amended: the keys of the returned radius map are the
    distinct requested elements, each at the place of its first
    occurrence; every requested element has an entry; the distance
    matrix built from the map is square of the size of the map, which
    is the length of the element list exactly when no symbol is
    repeated (then the keys are the element list itself), and is less
    otherwise. *)
Theorem radius_map_entries (elements : list string) (destination root : path) (w w' : world)
    (rwigs_values : Dict.t F64.float) (min_latom_dis : option F64.float) :
  find_potcar elements destination root w = (Ok (rwigs_values, min_latom_dis), w') ->
  Dict.keys rwigs_values = first_occurrences elements /\
  NoDup (Dict.keys rwigs_values) /\
  (forall element, element ∈ elements -> is_Some (Dict.get rwigs_values element)) /\
  (forall element, element ∈ Dict.keys rwigs_values -> element ∈ elements) /\
  (NoDup elements -> Dict.keys rwigs_values = elements) /\
  exists matrix,
    calculate_distance_of_ion rwigs_values = Ok matrix /\
    length matrix = length rwigs_values /\
    Forall (fun row => length row = length rwigs_values) matrix /\
    (length matrix <= length elements)%nat /\
    (length matrix = length elements <-> NoDup elements).
Proof.
  intros (potcar & _ & _ & _ & Hkeys)%find_potcar_ok.
  assert (length rwigs_values = length (first_occurrences elements)) as Hlen
    by (rewrite <- Hkeys; unfold Dict.keys; now rewrite length_map).
  split; [exact Hkeys|]. split; [rewrite Hkeys; apply first_occurrences_NoDup|].
  split; [intros e He; apply get_key; rewrite Hkeys; now apply first_occurrences_elem|].
  split; [intros e He; rewrite Hkeys in He; now apply first_occurrences_elem|].
  split; [intros Hnd; rewrite Hkeys; now apply first_occurrences_id|].
  eexists. split; [apply calculate_distance_of_ion_eq|].
  assert (length (map (fun ki => map (fun kj => entry rwigs_values ki kj)
                                  (Dict.keys rwigs_values)) (Dict.keys rwigs_values))
          = length rwigs_values) as Hm by (unfold Dict.keys; now rewrite !length_map).
  split; [exact Hm|]. split.
  { apply Forall_forall. intros row Hrow.
    apply list_elem_of_In, in_map_iff in Hrow as (k & <- & _).
    unfold Dict.keys. now rewrite !length_map. }
  rewrite Hm, Hlen. split; [apply first_occurrences_length|].
  symmetry. apply first_occurrences_distinct.
Qed.

Lemma radius_map_entries_witness :
  exists rwigs_values min_latom_dis w',
    find_potcar ["Fe"; "O"] ["run"] ["pot"] potcar_world
    = (Ok (rwigs_values, min_latom_dis), w') /\
    Dict.keys rwigs_values = ["Fe"; "O"] /\
    exists matrix,
      calculate_distance_of_ion rwigs_values = Ok matrix /\ length matrix = 2%nat.
Proof.
  assert (exists rwigs_values min_latom_dis w',
             find_potcar ["Fe"; "O"] ["run"] ["pot"] potcar_world
             = (Ok (rwigs_values, min_latom_dis), w'))
    as (rwigs_values & min_latom_dis & w' & Hrun).
  { vm_compute. do 3 eexists. reflexivity. }
  exists rwigs_values, min_latom_dis, w'. split; [exact Hrun|].
  destruct (radius_map_entries _ _ _ _ _ _ _ Hrun)
    as (_ & _ & _ & _ & Hdistinct & matrix & Hmatrix & _ & _ & _ & Hlen).
  assert (NoDup ["Fe"; "O"]) as Hnd
    by (refine (bool_decide_unpack (NoDup _) _); vm_compute; exact I).
  split; [now apply Hdistinct|]. exists matrix. split; [exact Hmatrix|]. now apply Hlen.
Defined.
(** ** C8: what the descriptors of one run share *)

(** C8: a run that ends well has resolved the radii once, in the
    world that it found with its destination made, and built one
    distance matrix from them.  The descriptors of its multipliers are
    one text but for the fields that the multiplier scales: whatever
    the multiplier, the same text stands before the system name,
    between the name and the atom counts, between the counts and the
    block [@DistanceOfIon], and after that block, which holds the rows
    of the one matrix, six decimals to an entry.  In 2D mode the same
    holds of the block of the 2D parameters, with the same line of the
    least radius, around the area and the layer composition, which
    are scaled; otherwise that block is empty. *)
Theorem descriptors_share_matrix `{Runtime} (config : SetupConfig) (w w' : world)
    (created : list path) :
  setup_calypso config w = (Ok created, w') ->
  exists rwigs_values min_latom_dis matrix base_area,
    (exists w0 w1,
        Fs.mkdir_p (destination config) w = (Ok tt, w0) /\
        find_potcar (elements config) (destination config) (potcar_root config) w0
        = (Ok (rwigs_values, min_latom_dis), w1)) /\
    calculate_distance_of_ion rwigs_values = Ok matrix /\
    base_area_of config rwigs_values = Ok base_area /\
    exists head mid1 mid2 mid3 t1 t2 t3 t4,
      forall m, m ∈ formula_multipliers config ->
        exists two_d_parameters,
          files w' !! (subdir (destination config) m ++ ["input.dat"])%list =
          Some (head ++ "SystemName = " ++
                Str.cat (zip_with (fun el count => el ++ PyInt.str count) (elements config)
                           (map (fun count => count * m) (atom_counts config))) ++
                mid1 ++ "NumberOfAtoms = " ++
                Str.join " " (map PyInt.str (map (fun count => count * m) (atom_counts config))) ++
                mid2 ++ ("@DistanceOfIon" ++ Str.nl) ++
                Str.join Str.nl (map (fun row => Str.join " " (map Fmt.fixed6 row)) matrix) ++
                (Str.nl ++ "@End" ++ Str.nl) ++
                mid3 ++ two_d_parameters ++ Str.nl) /\
          (is_2d config = false -> two_d_parameters = EmptyString) /\
          (is_2d config = true ->
           exists area fm,
             base_area = Some area /\ F64.of_int m = Ok fm /\
             two_d_parameters =
             t1 ++ (Str.nl ++ "Area = ") ++ float_repr (F64.mul area fm) ++ Str.nl ++ t2 ++
             ("@LayerType" ++ Str.nl) ++
             layer_type_str_of (adjusted_layer_type_matrix_of config m) ++
             (Str.nl ++ "@End" ++ Str.nl) ++
             t3 ++ Str.nl ++ latom_line_of min_latom_dis ++ Str.nl ++ t4).
Proof.
  intros (w0 & rw & min_latom_dis & w1 & pstress & potcar & matrix & base_area &
          Hmk & Hfind & _ & Hmatrix & Hbase & _ & _ & Hinput & _)%setup_calypso_ok.
  exists rw, min_latom_dis, matrix, base_area.
  split; [eauto|]. split; [exact Hmatrix|]. split; [exact Hbase|].
  destruct (input_content_parts (PyInt.str (Z.of_nat (length (elements config))))
              (name_of_atoms_of (elements config)))
    as (head & mid1 & mid2 & mid3 & Hparts).
  destruct (two_d_parameters_parts (PyInt.str (num_layers config))
              (float_repr (delta_z_of (relax_z config))))
    as (t1 & t2 & t3 & t4 & Htwo_d).
  exists head, mid1, mid2, mid3, t1, t2, t3, t4.
  intros m Hm. destruct (Hinput m Hm) as (input & Hrender & Hfile).
  unfold render_input_dat in Hrender.
  destruct (two_d_parameters_of _ _ _ _ _ _ _) as [two_d|e] eqn:Htwo; [|discriminate].
  injection Hrender as <-. exists two_d. split.
  { rewrite Hfile, Hparts. reflexivity. }
  unfold two_d_parameters_of in Htwo. split.
  - intros E. rewrite E in Htwo. now injection Htwo.
  - intros E. rewrite E in Htwo. destruct base_area as [area|]; [|discriminate].
    destruct (F64.of_int m) as [fm|] eqn:Hfm; [|discriminate].
    injection Htwo as <-. exists area, fm. split; [reflexivity|]. split; [reflexivity|].
    apply Htwo_d.
Qed.

Lemma descriptors_share_matrix_witness :
  exists matrix head mid1 mid2 mid3,
    forall m, m ∈ [1; 2] ->
      exists two_d_parameters,
        files (snd (@setup_calypso reference_runtime fe_o_config potcar_world))
          !! (["run"; PyInt.str m; "input.dat"]) =
        Some (head ++ "SystemName = " ++
              Str.cat (zip_with (fun el count => el ++ PyInt.str count) ["Fe"; "O"]
                         (map (fun count => count * m) [1; 1])) ++
              mid1 ++ "NumberOfAtoms = " ++
              Str.join " " (map PyInt.str (map (fun count => count * m) [1; 1])) ++
              mid2 ++ ("@DistanceOfIon" ++ Str.nl) ++
              Str.join Str.nl (map (fun row => Str.join " " (map Fmt.fixed6 row)) matrix) ++
              (Str.nl ++ "@End" ++ Str.nl) ++
              mid3 ++ two_d_parameters ++ Str.nl).
Proof.
  assert (exists created w',
             @setup_calypso reference_runtime fe_o_config potcar_world = (Ok created, w') /\
             w' = snd (@setup_calypso reference_runtime fe_o_config potcar_world))
    as (created & w' & Hrun & <-).
  { vm_compute. do 2 eexists. split; reflexivity. }
  destruct (@descriptors_share_matrix reference_runtime _ _ _ _ Hrun)
    as (rw & min_latom_dis & matrix & base_area & _ & _ & _ &
        head & mid1 & mid2 & mid3 & t1 & t2 & t3 & t4 & Hfiles).
  exists matrix, head, mid1, mid2, mid3. intros m Hm.
  destruct (Hfiles m Hm) as (two_d & Hfile & _).
  exists two_d. exact Hfile.
Defined.
(** ** C6: the area in 2D mode *)

(** C6: in a run in 2D mode that ends well, the base area is the atom
    count, among the unscaled counts, of an element whose radius no
    radius of the map exceeds, times pi, times the square of that
    radius; the map is that of the resolver, run in the world that the
    run found, its destination made.  The descriptor of every
    multiplier has the line [Area = ] with the text of the base area
    times the multiplier.  The renderer asked for 2D mode without an
    area raises, a [ValueError] once its directory is made, and writes
    no file. *)
Theorem two_d_area `{Runtime} (config : SetupConfig) :
  (forall w created w',
      setup_calypso config w = (Ok created, w') -> is_2d config = true ->
      exists rwigs_values min_latom_dis matrix element radius i count c square,
        (exists w0 w1,
            Fs.mkdir_p (destination config) w = (Ok tt, w0) /\
            find_potcar (elements config) (destination config) (potcar_root config) w0
            = (Ok (rwigs_values, min_latom_dis), w1)) /\
        max_key rwigs_values = Ok element /\
        Dict.get rwigs_values element = Some radius /\
        (forall k v, Dict.get rwigs_values k = Some v -> F64.ltb radius v = false) /\
        list_index (elements config) element = Ok i /\
        nth_error (atom_counts config) i = Some count /\
        F64.of_int count = Ok c /\
        float_pow radius 2 = Ok square /\
        base_area_of config rwigs_values = Ok (Some (F64.mul (F64.mul c F64.pi) square)) /\
        forall m, m ∈ formula_multipliers config ->
          exists fm,
            F64.of_int m = Ok fm /\
            files w' !! (subdir (destination config) m ++ ["input.dat"])%list =
            Some (Template.input_content
                    (system_name_of (elements config) (scale_counts m (atom_counts config)))
                    (PyInt.str (Z.of_nat (length (elements config))))
                    (name_of_atoms_of (elements config))
                    (number_of_atoms_of (scale_counts m (atom_counts config)))
                    (distance_of_ion_str_of matrix)
                    (Template.two_d_parameters_text (PyInt.str (num_layers config))
                       (float_repr (F64.mul (F64.mul (F64.mul c F64.pi) square) fm))
                       (float_repr (delta_z_of (relax_z config)))
                       (layer_type_str_of (adjusted_layer_type_matrix_of config m))
                       (latom_line_of min_latom_dis))) /\
            exists before after,
              files w' !! (subdir (destination config) m ++ ["input.dat"])%list =
              Some (before ++ (Str.nl ++ "Area = ") ++
                    float_repr (F64.mul (F64.mul (F64.mul c F64.pi) square) fm) ++
                    Str.nl ++ after)) /\
  (forall directory elements atom_counts matrix min_latom_dis num_layers relax_z
          layer_type_matrix formula_value w,
      let out := create_input_dat directory elements atom_counts matrix min_latom_dis
                   true num_layers relax_z None layer_type_matrix formula_value w in
      files (snd out) = files w /\
      (exists e, fst out = Raise e) /\
      (forall w1, Fs.mkdir_p directory w = (Ok tt, w1) ->
                  fst out = Raise (ValueError "base_area must be provided for 2D calculations"))).
Proof.
  split.
  - intros w created w'
      (w0 & rw & min_latom_dis & w1 & pstress & potcar & matrix & base_area &
       Hmk & Hfind & _ & Hmatrix & Hbase & _ & _ & Hinput & _)%setup_calypso_ok E.
    pose proof Hfind as (_ & _ & _ & _ & Hkeys)%find_potcar_ok.
    assert (NoDup (Dict.keys rw)) as Hnd by (rewrite Hkeys; apply first_occurrences_NoDup).
    pose proof Hbase as Hbase'. unfold base_area_of in Hbase. rewrite E in Hbase.
    destruct (max_key rw) as [element|] eqn:Hmax; [|discriminate]. cbn [rbind] in Hbase.
    destruct (max_key_largest rw element Hnd Hmax) as (radius & Hget & Hlargest).
    unfold Dict.item in Hbase. rewrite Hget in Hbase. cbn [rbind] in Hbase.
    destruct (list_index (elements config) element) as [i|] eqn:Hi; [|discriminate].
    cbn [rbind] in Hbase. unfold Str.index in Hbase.
    destruct (nth_error (atom_counts config) i) as [count|] eqn:Hcount; [|discriminate].
    cbn [rbind] in Hbase.
    destruct (F64.of_int count) as [c|] eqn:Hc; [|discriminate]. cbn [rbind] in Hbase.
    destruct (float_pow radius 2) as [square|] eqn:Hsq; [|discriminate]. cbn [rbind] in Hbase.
    injection Hbase as <-.
    exists rw, min_latom_dis, matrix, element, radius, i, count, c, square.
    split; [eauto|]. do 7 (split; [assumption|]). split; [exact Hbase'|].
    intros m Hm. destruct (Hinput m Hm) as (input & Hrender & Hfile).
    unfold render_input_dat, two_d_parameters_of in Hrender. rewrite E in Hrender.
    destruct (F64.of_int m) as [fm|] eqn:Hfm; [|discriminate].
    injection Hrender as <-. exists fm. split; [reflexivity|]. split; [exact Hfile|].
    rewrite Hfile.
    destruct (input_content_area
                (system_name_of (elements config) (scale_counts m (atom_counts config)))
                (PyInt.str (Z.of_nat (length (elements config))))
                (name_of_atoms_of (elements config))
                (number_of_atoms_of (scale_counts m (atom_counts config)))
                (distance_of_ion_str_of matrix)
                (PyInt.str (num_layers config))
                (float_repr (F64.mul (F64.mul (F64.mul c F64.pi) square) fm))
                (float_repr (delta_z_of (relax_z config)))
                (layer_type_str_of (adjusted_layer_type_matrix_of config m))
                (latom_line_of min_latom_dis))
      as (before & after & Harea).
    exists before, after. f_equal. exact Harea.
  - intros directory els counts matrix min_latom_dis layers relax layer_matrix m w out.
    subst out. unfold create_input_dat. rewrite bind_run.
    destruct (Fs.mkdir_p directory w) as [[[]|e] w1] eqn:Hmk.
    + apply mkdir_p_ok in Hmk as (Hf & _). rewrite bind_run. cbn [two_d_parameters_of lift fst snd].
      split; [exact Hf|]. split; [eauto|]. intros _ _. reflexivity.
    + cbn [fst snd]. split; [|split; [eauto | intros ? [=]]].
      unfold Fs.mkdir_p in Hmk. destruct (Fs.is_file w directory); [now injection Hmk as _ <-|].
      destruct (find _ _); [now injection Hmk as _ <-|discriminate].
Qed.

Lemma two_d_area_witness :
  exists area,
    forall m, m ∈ [1; 2] ->
      exists fm system_name number_of_atoms block delta layers latom_line,
        F64.of_int m = Ok fm /\
        files (snd (@setup_calypso reference_runtime fe_o_config potcar_world))
          !! (["run"; PyInt.str m; "input.dat"]) =
        Some (Template.input_content system_name "2" "Fe O" number_of_atoms block
                (Template.two_d_parameters_text "1" (Fmt.repr (F64.mul area fm)) delta
                   layers latom_line)).
Proof.
  assert (exists created w',
             @setup_calypso reference_runtime fe_o_config potcar_world = (Ok created, w') /\
             w' = snd (@setup_calypso reference_runtime fe_o_config potcar_world))
    as (created & w' & Hrun & <-).
  { vm_compute. do 2 eexists. split; reflexivity. }
  destruct (@two_d_area reference_runtime fe_o_config) as [Harea _].
  destruct (Harea _ _ _ Hrun eq_refl)
    as (rw & min_latom_dis & matrix & element & radius & i & count & c & square &
        _ & _ & _ & _ & _ & _ & _ & _ & _ & Hfiles).
  exists (F64.mul (F64.mul c F64.pi) square). intros m Hm.
  destruct (Hfiles m Hm) as (fm & Hfm & Hfile & _).
  exists fm. do 6 eexists. split; [exact Hfm | exact Hfile].
Defined.
(** ** C5: the shared files after a run *)

(** C5, as stated, fails: in a world where [INCAR_1] of the
    destination may not be deleted the run ends well, and the file is
    still at the root of the destination. *)
Lemma undeletable_file_remains :
  ~ (forall config w created w' file_name,
        @setup_calypso reference_runtime config w = (Ok created, w') ->
        file_name ∈ files_to_copy ->
        files w' !! (destination config ++ [file_name])%list = None).
Proof.
  intros Hclaim.
  assert (exists created w',
             @setup_calypso reference_runtime fe_o_config locked_world = (Ok created, w') /\
             files w' !! ["run"; "INCAR_1"] <> None) as (created & w' & Hrun & Hfile).
  { vm_compute. do 2 eexists. split; [reflexivity|]. discriminate. }
  apply Hfile. apply (Hclaim fe_o_config locked_world created w' "INCAR_1" Hrun).
  apply list_elem_of_here.
Qed.

(** C5, as amended: the shared files are six, the two relaxation
    files, the concatenated POTCAR and three job scripts.  After a run
    that ends well every directory of a multiplier holds a copy of each
    of them, under its name or, where a directory of that name was
    there before the run, inside that directory; and each of them is
    gone from the root of the destination unless its deletion fails;
    then it stays, a line that names the file and gives the text of
    the error is printed, and the run ends as it does when every
    deletion succeeds, returning the directories of the multipliers in
    their order. *)
Theorem shared_files_after_run `{Runtime} (config : SetupConfig) (w w' : world)
    (created : list path) :
  setup_calypso config w = (Ok created, w') ->
  files_to_copy
  = ["INCAR_1"; "INCAR_2"; "POTCAR"; "calypso_fullnode.sh"; "calypso.sh"; "submit.sh"] /\
  created = map (subdir (destination config)) (formula_multipliers config) /\
  (forall u, fst (setup_calypso config (with_undeletable u w)) = Ok created) /\
  exists pstress potcar,
    _format_pstress_kbar (pressure_gpa config) = Ok pstress /\
    (forall m file_name,
        m ∈ formula_multipliers config -> file_name ∈ files_to_copy ->
        (subdir (destination config) m ++ [file_name])%list ∉ dirs w ->
        files w' !! (subdir (destination config) m ++ [file_name])%list
        = Some (shared_text config pstress potcar file_name)) /\
    (forall m file_name,
        m ∈ formula_multipliers config -> file_name ∈ files_to_copy ->
        (subdir (destination config) m ++ [file_name])%list ∈ dirs w ->
        files w' !! (subdir (destination config) m ++ [file_name; file_name])%list
        = Some (shared_text config pstress potcar file_name)) /\
    (forall file_name,
        file_name ∈ files_to_copy ->
        (destination config ++ [file_name])%list ∉ undeletable w ->
        files w' !! (destination config ++ [file_name])%list = None) /\
    (forall file_name,
        file_name ∈ files_to_copy ->
        (destination config ++ [file_name])%list ∈ undeletable w ->
        files w' !! (destination config ++ [file_name])%list
        = Some (shared_text config pstress potcar file_name) /\
        exists text,
          ("Error occurred while deleting " ++
           Path.str (destination config ++ [file_name])%list ++ ": " ++ text) ∈ stdout w').
Proof.
  intros Hrun. split; [reflexivity|].
  pose proof Hrun as
    (w0 & rw & min_latom_dis & w1 & pstress & potcar & matrix & base_area &
     _ & _ & Hpstress & _ & _ & _ & Hcreated & _ & Hcopies & Hgone & Hstay & Hnested)
      %setup_calypso_ok.
  split; [exact Hcreated|]. split.
  { intros u. now rewrite setup_calypso_outcome, Hrun. }
  exists pstress, potcar. split; [exact Hpstress|]. split; [exact Hcopies|]. split.
  { intros m f Hm Hf Hdir. specialize (Hnested m f Hm Hf Hdir).
    now rewrite <- app_assoc in Hnested. }
  split; [exact Hgone|].
  intros f Hf Hu. destruct (Hstay f Hf Hu) as [Hfile Hline]. split; [exact Hfile|].
  eexists. exact Hline.
Qed.

Lemma shared_files_after_run_witness :
  exists created w',
    @setup_calypso reference_runtime fe_o_config locked_world = (Ok created, w') /\
    created = [["run"; "1"]; ["run"; "2"]] /\
    files w' !! ["run"; "INCAR_2"] = None /\
    is_Some (files w' !! ["run"; "INCAR_1"]) /\
    files w' !! ["run"; "2"; "INCAR_1"] = files w' !! ["run"; "INCAR_1"].
Proof.
  assert (exists created w',
             @setup_calypso reference_runtime fe_o_config locked_world = (Ok created, w'))
    as (created & w' & Hrun).
  { vm_compute. do 2 eexists. reflexivity. }
  exists created, w'. split; [exact Hrun|].
  destruct (@shared_files_after_run reference_runtime _ _ _ _ Hrun)
    as (_ & Hcreated & _ & pstress & potcar & _ & Hcopies & _ & Hgone & Hstay).
  split; [exact Hcreated|]. split.
  { apply (Hgone "INCAR_2"); [apply list_elem_of_further, list_elem_of_here|].
    refine (bool_decide_unpack (_ ∉ _) _). vm_compute. exact I. }
  destruct (Hstay "INCAR_1") as [Hfile _]; [apply list_elem_of_here | |].
  { refine (bool_decide_unpack (_ ∈ _) _). vm_compute. exact I. }
  change (files w' !! ["run"; "INCAR_1"]
          = Some (shared_text fe_o_config pstress potcar "INCAR_1")) in Hfile.
  rewrite Hfile. split; [eauto|]. apply (Hcopies 2 "INCAR_1").
  - apply list_elem_of_further, list_elem_of_here.
  - apply list_elem_of_here.
  - refine (bool_decide_unpack (_ ∉ _) _). vm_compute. exact I.
Defined.
(** ** C7: the variant of an element, and an element without one *)


(** ** C3: the radius resolved in the text of a POTCAR file *)

(** C3: when the paired pattern matches in the text, the radius is
    the lesser of the two numbers of the leftmost pair; when it does
    not and the single pattern matches, the radius is the least of the
    numbers of all its occurrences; when the single pattern does not
    match, the resolution raises the [ValueError] of a text without a
    radius.  The text [RWIGS = 1.20; RWIGS = 1.10] resolves to 1.10. *)
Theorem rwigs_choice (text : string) (potcar_path : path) :
  (occurs Re.pair_re text ->
   exists g1 g2 a b before rest tail,
     Re.search Re.pair_re text = Some [g1; g2] /\
     text = before ++ rest /\ Re.match_here Re.pair_re rest = Some ([g1; g2], tail) /\
     (forall b1 m1 a1 c1, text = b1 ++ m1 ++ a1 -> matches Re.pair_re m1 c1 ->
                          (String.length before <= String.length b1)%nat) /\
     PyFloat.parse g1 = Ok a /\ PyFloat.parse g2 = Ok b /\
     choose_rwigs text potcar_path = Ok (F64.min2 a b) /\
     (F64.min2 a b = a \/ F64.min2 a b = b) /\
     F64.ltb a (F64.min2 a b) = false /\ F64.ltb b (F64.min2 a b) = false) /\
  (~ occurs Re.pair_re text -> occurs Re.single_re text ->
   exists v vs,
     Forall2 (fun g x => PyFloat.parse g = Ok x) (Re.findall Re.single_re text) (v :: vs) /\
     choose_rwigs text potcar_path = Ok (F64.min_list v vs) /\
     In (F64.min_list v vs) (v :: vs) /\
     forall x, In x (v :: vs) -> F64.ltb x (F64.min_list v vs) = false) /\
  (~ occurs Re.single_re text ->
   choose_rwigs text potcar_path
   = Raise (ValueError ("No RWIGS entry found in " ++ Path.str potcar_path))) /\
  (PyFloat.parse "1.10" = Ok (F64.of_ratio false 110 100) /\
   choose_rwigs "RWIGS = 1.20; RWIGS = 1.10" potcar_path = Ok (F64.of_ratio false 110 100)).
Proof.
  split; [|split; [|split]].
  - intros [caps Hsearch]%search_complete.
    pose proof Hsearch as (before & rest & tail & Htext & Hhere & Hleft)%search_leftmost.
    pose proof Hhere as (mid & _ & Hm)%match_here_sound.
    apply matches_pair in Hm as (g1 & g2 & _ & _ & -> & Hg1 & Hg2 & _).
    destruct (number_parses g1 Hg1) as [a Ha]. destruct (number_parses g2 Hg2) as [b Hb].
    exists g1, g2, a, b, before, rest, tail.
    do 6 (split; [assumption|]). split.
    + unfold choose_rwigs. rewrite Hsearch, Ha, Hb. reflexivity.
    + apply min2_lesser.
  - intros Hpair%search_none Hsingle.
    assert (Re.findall Re.single_re text <> []) as Hne.
    { intros Hnil%findall_nil. now apply search_none in Hnil. }
    destruct (rmap_parse_numbers _ (findall_single_numbers text)) as (vals & Hvals & Hall).
    destruct vals as [|v vs]; [inversion Hall as [Hnil|]; now symmetry in Hnil|].
    exists v, vs. split; [exact Hall|]. split.
    + unfold choose_rwigs. rewrite Hpair, Hvals. reflexivity.
    + apply min_list_least.
  - intros Hnone. unfold choose_rwigs.
    assert (Re.search Re.pair_re text = None) as ->.
    { apply search_none. intros Hpair. now apply Hnone, pair_occurs_single. }
    assert (Re.findall Re.single_re text = []) as -> by now apply findall_nil, search_none.
    reflexivity.
  - split; [vm_compute; reflexivity|]. unfold choose_rwigs.
    assert (Re.search Re.pair_re "RWIGS = 1.20; RWIGS = 1.10" = Some ["1.20"; "1.10"]) as ->
      by (vm_compute; reflexivity).
    vm_compute. reflexivity.
Qed.

Lemma rwigs_choice_witness :
  exists v vs,
    Forall2 (fun g x => PyFloat.parse g = Ok x) ["1.55"; ".82"] (v :: vs) /\
    choose_rwigs ("rwigs = 1.55" ++ Str.nl ++ "RWIGS = .82" ++ Str.nl) ["pot"; "O"; "POTCAR"]
    = Ok (F64.min_list v vs).
Proof.
  destruct (rwigs_choice ("rwigs = 1.55" ++ Str.nl ++ "RWIGS = .82" ++ Str.nl)
              ["pot"; "O"; "POTCAR"]) as (_ & Hsingle & _).
  destruct Hsingle as (v & vs & Hall & Hchoice & _).
  - apply search_none. vm_compute. reflexivity.
  - assert (Re.search Re.single_re ("rwigs = 1.55" ++ Str.nl ++ "RWIGS = .82" ++ Str.nl)
            = Some ["1.55"]) as Hs by (vm_compute; reflexivity).
    apply search_sound in Hs as (before & mid & after & Htext & Hm).
    exists before, mid, after, ["1.55"]. auto.
  - exists v, vs. split; [exact Hall | exact Hchoice].
Defined.
(** ** C1: the pressure field of the INCAR files *)

(** C1, as stated, fails: for the pressure 1.234 the field is 12.34,
    which is not an integer and has four significant digits. *)
Lemma pressure_field_has_four_digits :
  ~ (forall pressure_gpa text r rf,
        F64.ltb pressure_gpa F64.zero = false ->
        _format_pstress_kbar pressure_gpa = Ok text ->
        F64.round (F64.mul pressure_gpa F64.c10_0) = Ok r ->
        F64.of_int r = Ok rf ->
        if F64.ltb (F64.abs (F64.sub (F64.mul pressure_gpa F64.c10_0) rf)) F64.c1e_9
        then text = PyInt.str r
        else (6 <= Fmt.significant_digits text)%nat).
Proof.
  intros Hclaim.
  specialize (Hclaim pressure_1_234 "12.34" 12 (F64.of_Z 12)).
  assert (F64.ltb pressure_1_234 F64.zero = false) as H1 by (vm_compute; reflexivity).
  assert (_format_pstress_kbar pressure_1_234 = Ok "12.34") as H2 by (vm_compute; reflexivity).
  assert (F64.round (F64.mul pressure_1_234 F64.c10_0) = Ok 12) as H3
    by (vm_compute; reflexivity).
  assert (F64.of_int 12 = Ok (F64.of_Z 12)) as H4 by (vm_compute; reflexivity).
  specialize (Hclaim H1 H2 H3 H4). vm_compute in Hclaim. lia.
Qed.

(** C1, as amended: ten times a negative pressure is negative, and
    the renderer raises the [ValueError] of a negative pressure; for a
    pressure that is not negative and whose tenfold is finite the field
    is the nearest integer of the tenfold when the two differ by less
    than 1e-9, and otherwise the tenfold in the format [.6g], which has
    six significant digits at most; when the tenfold is infinite or not
    a number the renderer raises the error of [round].  A run writes the
    field into both INCAR files. *)
Theorem pressure_field `{Runtime} (pressure : F64.float) :
  F64.valid pressure = true ->
  let pstress_kbar := F64.mul pressure F64.c10_0 in
  (F64.ltb pressure F64.zero = true ->
   _format_pstress_kbar pressure = Raise (ValueError "Pressure must be non-negative.")) /\
  (F64.ltb pressure F64.zero = false -> F64.is_finite pstress_kbar = true ->
   exists r rf,
     F64.round pstress_kbar = Ok r /\ F64.of_int r = Ok rf /\
     _format_pstress_kbar pressure =
     Ok (if F64.ltb (F64.abs (F64.sub pstress_kbar rf)) F64.c1e_9
         then PyInt.str r else Fmt.general6 pstress_kbar)) /\
  (F64.ltb pressure F64.zero = false -> F64.is_finite pstress_kbar = false ->
   _format_pstress_kbar pressure =
   Raise (if F64.is_nan pressure
          then ValueError "cannot convert float NaN to integer"
          else OverflowError "cannot convert float infinity to integer")) /\
  (Fmt.significant_digits (Fmt.general6 pstress_kbar) <= 6)%nat /\
  (forall config w created w' m name,
      pressure = pressure_gpa config ->
      setup_calypso config w = (Ok created, w') ->
      m ∈ formula_multipliers config ->
      (subdir (destination config) m ++ [name])%list ∉ dirs w ->
      exists text,
        _format_pstress_kbar pressure = Ok text /\
        (name = "INCAR_1" ->
         files w' !! (subdir (destination config) m ++ [name])%list
         = Some (Template.incar_1_content text)) /\
        (name = "INCAR_2" ->
         files w' !! (subdir (destination config) m ++ [name])%list
         = Some (Template.incar_2_content text))).
Proof.
  intros Hv x. split; [|split; [|split; [|split]]].
  - intros Hneg. unfold _format_pstress_kbar.
    now rewrite (negative_times_ten _ Hv Hneg).
  - intros Hneg Hfin. destruct (finite_times_ten _ Hv Hfin) as (r & rf & Hr & Hrf).
    exists r, rf. split; [exact Hr|]. split; [exact Hrf|].
    unfold _format_pstress_kbar. rewrite (nonnegative_times_ten _ Hv Hneg).
    fold x in Hr |- *. rewrite Hr. cbn [rbind]. rewrite Hrf. cbn [rbind].
    now destruct (F64.ltb _ F64.c1e_9).
  - intros Hneg Hfin. unfold _format_pstress_kbar.
    rewrite (nonnegative_times_ten _ Hv Hneg), (infinite_times_ten _ Hv Hneg Hfin).
    now destruct (F64.is_nan pressure).
  - apply general6_digits.
  - intros config w created w' m name -> Hrun Hm Hdir.
    apply setup_calypso_ok in Hrun
      as (w0 & rw & min_latom_dis & w1 & pstress & potcar & matrix & base_area &
          _ & _ & Hp & _ & _ & _ & _ & _ & Hcopies & _).
    exists pstress. split; [exact Hp|]. split; intros ->.
    + apply (Hcopies m "INCAR_1" Hm); [apply list_elem_of_here | exact Hdir].
    + apply (Hcopies m "INCAR_2" Hm); [apply list_elem_of_further, list_elem_of_here | exact Hdir].
Qed.

Lemma pressure_field_witness :
  _format_pstress_kbar (F64.of_Z 25) = Ok "250" /\
  _format_pstress_kbar (F64.of_ratio true 1 2)
  = Raise (ValueError "Pressure must be non-negative.").
Proof.
  assert (F64.valid (F64.of_Z 25) = true) as Hv by (vm_compute; reflexivity).
  assert (F64.valid (F64.of_ratio true 1 2) = true) as Hv' by (vm_compute; reflexivity).
  destruct (@pressure_field reference_runtime (F64.of_Z 25) Hv) as (_ & Hok & _).
  destruct (@pressure_field reference_runtime (F64.of_ratio true 1 2) Hv') as (Hneg & _).
  split.
  - destruct Hok as (r & rf & Hr & Hrf & ->); [vm_compute; reflexivity..|].
    vm_compute in Hr. injection Hr as <-.
    vm_compute in Hrf. injection Hrf as <-. vm_compute. reflexivity.
  - apply Hneg. vm_compute. reflexivity.
Defined.
(** * Further properties of the builder *)

(** ** The files that a run and the resolver write *)

(** X1: whatever its outcome, a run leaves every file that is not at
    or below its destination as it was; the library of POTCAR files
    that it reads is never modified. *)
Theorem run_writes_under_destination `{Runtime} (config : SetupConfig) (w : world) (p : path) :
  (forall k, p <> (destination config ++ k)%list) ->
  files (snd (setup_calypso config w)) !! p = files w !! p.
Proof. intros Hp. now apply spares_setup_calypso. Qed.

Lemma run_writes_under_destination_witness :
  files (snd (@setup_calypso reference_runtime fe_o_config potcar_world))
    !! ["pot"; "Fe_pv"; "POTCAR"]
  = files potcar_world !! ["pot"; "Fe_pv"; "POTCAR"].
Proof.
  apply (@run_writes_under_destination reference_runtime fe_o_config potcar_world).
  intros k Heq. discriminate Heq.
Defined.

(** X2: the resolver writes one file at most, the POTCAR of the
    destination, and writes it last: when it raises, for a missing
    variant, a missing file or a text without a radius, every file is
    as it was. *)
Theorem resolver_writes_last (elements : list string) (dest root : path) (w : world) :
  (forall p, p <> (dest ++ ["POTCAR"])%list ->
             files (snd (find_potcar elements dest root w)) !! p = files w !! p) /\
  (forall e w', find_potcar elements dest root w = (Raise e, w') -> files w' = files w).
Proof.
  split.
  - intros p Hp. now apply (spares_find_potcar (fun q => q <> (dest ++ ["POTCAR"])%list)).
  - intros e w' Hrun. apply map_eq. intros p.
    now apply (find_potcar_fails elements dest root w e w' p Hrun).
Qed.

Lemma resolver_writes_last_witness :
  exists e w',
    find_potcar ["Fe"; "Xx"] ["run"] ["pot"] potcar_world = (Raise e, w') /\
    files w' = files potcar_world.
Proof.
  assert (exists e w', find_potcar ["Fe"; "Xx"] ["run"] ["pot"] potcar_world = (Raise e, w'))
    as (e & w' & Hrun).
  { vm_compute. do 2 eexists. reflexivity. }
  exists e, w'. split; [exact Hrun|].
  destruct (resolver_writes_last ["Fe"; "Xx"] ["run"] ["pot"] potcar_world) as [_ Hfail].
  exact (Hfail e w' Hrun).
Defined.

(** X3: nothing is rolled back.  Once the resolver has written the
    concatenated POTCAR, a run that raises leaves that file at the
    destination; a negative pressure is found only then, and the run
    stops in the very state that the resolver left. *)
Theorem failed_run_leaves_potcar `{Runtime} (config : SetupConfig) (w w0 w1 : world)
    (rwigs_values : Dict.t F64.float) (min_latom_dis : option F64.float) :
  Fs.mkdir_p (destination config) w = (Ok tt, w0) ->
  find_potcar (elements config) (destination config) (potcar_root config) w0
  = (Ok (rwigs_values, min_latom_dis), w1) ->
  (forall e w',
      setup_calypso config w = (Raise e, w') ->
      is_Some (files w' !! (destination config ++ ["POTCAR"])%list) /\
      files w' !! (destination config ++ ["POTCAR"])%list
      = files w1 !! (destination config ++ ["POTCAR"])%list) /\
  (forall e,
      _format_pstress_kbar (pressure_gpa config) = Raise e ->
      setup_calypso config w = (Raise e, w1)).
Proof.
  intros Hmk Hfind.
  pose proof Hfind as (potcar & Hfiles & _)%find_potcar_ok.
  assert (files w1 !! (destination config ++ ["POTCAR"])%list = Some potcar) as Hpotcar
    by (rewrite Hfiles; apply lookup_insert_eq).
  split.
  - intros e w' Hrun. unfold setup_calypso in Hrun.
    rewrite bind_run, Hmk, bind_run, Hfind in Hrun.
    pose proof (after_resolver_fails config rwigs_values min_latom_dis w1 e w'
                  (destination config ++ ["POTCAR"])%list) as Hkeep.
    cbv zeta in Hkeep. specialize (Hkeep Hrun). specialize (Hkeep eq_refl).
    rewrite Hkeep, Hpotcar. eauto.
  - intros e He. unfold setup_calypso.
    rewrite bind_run, Hmk, bind_run, Hfind, bind_run. unfold lift. rewrite He. reflexivity.
Qed.

Lemma failed_run_leaves_potcar_witness :
  exists w',
    @setup_calypso reference_runtime negative_pressure_config potcar_world
    = (Raise (ValueError "Pressure must be non-negative."), w') /\
    is_Some (files w' !! ["run"; "POTCAR"]).
Proof.
  assert (Fs.mkdir_p ["run"] potcar_world = (Ok tt, snd (Fs.mkdir_p ["run"] potcar_world)))
    as Hmk by (vm_compute; reflexivity).
  assert (exists rw min_latom_dis w1,
             find_potcar ["Fe"; "O"] ["run"] ["pot"] (snd (Fs.mkdir_p ["run"] potcar_world))
             = (Ok (rw, min_latom_dis), w1))
    as (rw & min_latom_dis & w1 & Hfind).
  { vm_compute. do 3 eexists. reflexivity. }
  destruct (@failed_run_leaves_potcar reference_runtime negative_pressure_config
              potcar_world _ w1 rw min_latom_dis Hmk Hfind) as [Hkeep Hneg].
  assert (@setup_calypso reference_runtime negative_pressure_config potcar_world
          = (Raise (ValueError "Pressure must be non-negative."), w1)) as Hrun.
  { apply Hneg. vm_compute. reflexivity. }
  exists w1. split; [exact Hrun|]. exact (proj1 (Hkeep _ _ Hrun)).
Defined.
(** ** The least radius of a resolution *)

(** X4: the least radius that the resolver returns is [None] exactly
    for an empty list of elements, with an empty map; otherwise it is
    the radius of one of the elements, and no radius in the map is less
    than it. *)
Theorem least_radius_of_map (elements : list string) (dest root : path) (w w1 : world)
    (rwigs_values : Dict.t F64.float) (min_latom_dis : option F64.float) :
  find_potcar elements dest root w = (Ok (rwigs_values, min_latom_dis), w1) ->
  (elements = [] -> rwigs_values = [] /\ min_latom_dis = None) /\
  (elements <> [] ->
   exists r element,
     min_latom_dis = Some r /\ element ∈ elements /\
     Dict.get rwigs_values element = Some r /\
     forall k v, Dict.get rwigs_values k = Some v -> F64.ltb v r = false).
Proof.
  intros Hrun. pose proof Hrun as (picked & Hall & Hmin)%find_potcar_picked.
  pose proof Hrun as (_ & _ & _ & _ & Hkeys)%find_potcar_ok.
  split.
  - intros ->. inversion Hall; subst. split; [|reflexivity].
    cbn in Hkeys. now destruct rwigs_values.
  - intros Hne. destruct picked as [|v vs].
    { inversion Hall; subst. contradiction. }
    destruct (min_list_least v vs) as [Hin Hleast].
    apply list_elem_of_In in Hin.
    destruct (Forall2_right_elem _ _ _ _ Hall Hin) as (element & Hel & Hget).
    exists (F64.min_list v vs), element. do 3 (split; [assumption|]).
    intros k x Hk.
    assert (k ∈ elements) as Hkel.
    { apply first_occurrences_elem. rewrite <- Hkeys. now apply (get_in_keys _ _ x). }
    destruct (Forall2_left_elem _ _ _ _ Hall Hkel) as (y & Hy & Hgy).
    rewrite Hk in Hgy. injection Hgy as ->. now apply Hleast, list_elem_of_In.
Qed.

Lemma least_radius_of_map_witness :
  exists rwigs_values r w1,
    find_potcar ["Fe"; "O"] ["run"] ["pot"] potcar_world = (Ok (rwigs_values, Some r), w1) /\
    forall k v, Dict.get rwigs_values k = Some v -> F64.ltb v r = false.
Proof.
  assert (exists rw r w1,
             find_potcar ["Fe"; "O"] ["run"] ["pot"] potcar_world = (Ok (rw, Some r), w1))
    as (rw & r & w1 & Hrun).
  { vm_compute. do 3 eexists. reflexivity. }
  exists rw, r, w1. split; [exact Hrun|].
  destruct (least_radius_of_map _ _ _ _ _ _ _ Hrun) as [_ Hleast].
  destruct Hleast as (r' & element & Hr & _ & _ & Hall); [discriminate|].
  injection Hr as <-. exact Hall.
Defined.
(** ** The in-place scaler: failures and repetition *)

(** X5: a scaler that raises has changed nothing: it reads the whole
    file and scales every line before it writes.  It raises for a path
    that is a directory, for a file that is not in its directory, and,
    the file being of ASCII characters, for a line of atom counts with
    a word that [int] refuses, with a [ValueError]. *)
Theorem scaler_failure (file_path : path) (multiplier : Z) (w : world) :
  (forall e w', adjust_input_dat file_path multiplier w = (Raise e, w') -> w' = w) /\
  (Fs.is_dir w file_path = true -> files w !! file_path = None ->
   exists name,
     adjust_input_dat file_path multiplier w = (Raise (IsADirectoryError name), w)) /\
  (Fs.is_dir w file_path = false -> Fs.is_dir w (Path.parent file_path) = true ->
   files w !! file_path = None ->
   exists name,
     adjust_input_dat file_path multiplier w = (Raise (FileNotFoundError name), w)) /\
  (forall data v token,
      files w !! file_path = Some data ->
      all_chars is_ascii data = true ->
      ("NumberOfAtoms = " ++ v) ∈ Str.splitlines (Fs.universal_newlines data) ->
      token ∈ Str.split (Str.strip v) -> PyInt.parse token = None ->
      exists msg,
        adjust_input_dat file_path multiplier w = (Raise (ValueError msg), w)).
Proof.
  split; [intros e w'; apply adjust_input_dat_raise|]. split; [|split].
  - intros Hdir Hnone. rewrite adjust_input_dat_run, Hnone, Hdir. eexists. reflexivity.
  - intros Hdir _ Hnone. rewrite adjust_input_dat_run, Hnone, Hdir. eexists. reflexivity.
  - intros data v token Hdata _ Hline Htoken Hparse.
    rewrite adjust_input_dat_run, Hdata.
    destruct (adjust_text multiplier (Fs.universal_newlines data)) as [new_text|e] eqn:Ha.
    + exfalso. apply adjust_text_scaled in Ha as (new_lines & Hall & _).
      destruct (Forall2_left_elem _ _ _ _ Hall Hline) as (line' & _ & Hs).
      exact (bad_count_unscaled multiplier v token line' Htoken Hparse Hs).
    + apply adjust_text_raise in Ha as (line & _ & Hl).
      apply adjust_line_raise in Hl as (v' & bad & _ & _ & Hbad & ->). eauto.
Qed.

Lemma scaler_failure_witness :
  exists msg,
    adjust_input_dat ["run"; "input.dat"] 3 bad_count_world
    = (Raise (ValueError msg), bad_count_world).
Proof.
  destruct (scaler_failure ["run"; "input.dat"] 3 bad_count_world) as (_ & _ & _ & Hbad).
  apply (Hbad ("SystemName = Fe1O1" ++ Str.nl ++ "NumberOfAtoms = 1 x" ++ Str.nl)
           ("1 x" ++ Str.nl) "x").
  - reflexivity.
  - reflexivity.
  - vm_compute. apply list_elem_of_further, list_elem_of_here.
  - vm_compute. apply list_elem_of_further, list_elem_of_here.
  - reflexivity.
Defined.

(** X6: the scaler can be run again on a file that it has scaled.
    For a file of ASCII characters whose numbers, multiplied by the
    two multipliers [m1] and [m2], stay within the limit of the
    interpreter on conversions, the second run cannot fail: after it
    every count is the old one times [m1] times [m2], the system name
    has the digits of [m1] and then those of [m2] appended, every
    other line and every other file is as it was. *)
Theorem scaler_twice (file_path : path) (m1 m2 : Z) (w w1 : world) (data : string) :
  files w !! file_path = Some data ->
  all_chars is_ascii data = true ->
  within_int_limit m1 (Fs.universal_newlines data) = true ->
  within_int_limit (m1 * m2) (Fs.universal_newlines data) = true ->
  convertible m2 = true ->
  adjust_input_dat file_path m1 w = (Ok tt, w1) ->
  exists new_lines w2,
    adjust_input_dat file_path m2 w1 = (Ok tt, w2) /\
    Forall2 (scaled_twice m1 m2) (Str.splitlines (Fs.universal_newlines data)) new_lines /\
    files w2 = <[file_path := Str.cat new_lines]> (files w) /\
    dirs w2 = dirs w.
Proof.
  intros Hdata _ _ _ _ Hrun.
  destruct (adjust_input_dat_again file_path m1 m2 w w1 Hrun)
    as (data' & new_lines & Hd & Hall & H2).
  rewrite Hdata in Hd. injection Hd as <-.
  exists new_lines. eexists. split; [exact H2|].
  split; [exact Hall|]. split; reflexivity.
Qed.

Lemma scaler_twice_witness :
  exists new_lines w2,
    adjust_input_dat ["run"; "input.dat"] 3
      (snd (adjust_input_dat ["run"; "input.dat"] 2 scaler_world)) = (Ok tt, w2) /\
    Forall2 (scaled_twice 2 3) (Str.splitlines (Fs.universal_newlines scaler_text)) new_lines /\
    files w2 = <[ ["run"; "input.dat"] := Str.cat new_lines ]> (files scaler_world) /\
    dirs w2 = dirs scaler_world.
Proof.
  apply (scaler_twice ["run"; "input.dat"] 2 3 scaler_world _ scaler_text).
  - reflexivity.
  - reflexivity.
  - vm_compute. reflexivity.
  - vm_compute. reflexivity.
  - vm_compute. reflexivity.
  - vm_compute. reflexivity.
Defined.
(** ** The concatenated POTCAR *)

(** X7: the POTCAR file that the resolver writes is the texts of the
    files of the requested elements, in the order of the request and
    one for every request, so that the text of an element requested
    twice is there twice.  Every text is that of the first variant of
    its element, and is stored as it was read, a carriage return as a
    line feed. *)
Theorem potcar_concatenation (elements : list string) (dest root : path) (w w1 : world)
    (rwigs_values : Dict.t F64.float) (min_latom_dis : option F64.float) :
  find_potcar elements dest root w = (Ok (rwigs_values, min_latom_dis), w1) ->
  exists texts,
    Forall2 (fun element text =>
               exists suffix data,
                 variant_of (dirs w ∪ list_to_set (Path.parents dest)) root element
                 = Some suffix /\
                 files w !! potcar_path_of root element suffix = Some data /\
                 text = Fs.universal_newlines data)
            elements texts /\
    files w1 !! (dest ++ ["POTCAR"])%list = Some (Str.cat texts).
Proof.
  intros (texts & picked & Hall & Hlt & Hlp & Hfile & _)%find_potcar_resolved.
  exists texts. split; [|exact Hfile].
  rewrite <- (fst_zip texts picked) by lia.
  apply Forall2_fmap_r. eapply Forall2_impl; [exact Hall|].
  intros element tr [(suffix & data & Hv & Hf & Ht & _) _]. now exists suffix, data.
Qed.

Lemma potcar_concatenation_witness :
  exists texts w1,
    Forall2 (fun element text =>
               exists suffix data,
                 variant_of (dirs potcar_world ∪ list_to_set (Path.parents ["run"]))
                   ["pot"] element = Some suffix /\
                 files potcar_world !! potcar_path_of ["pot"] element suffix = Some data /\
                 text = Fs.universal_newlines data)
            ["Fe"; "Fe"] texts /\
    files w1 !! ["run"; "POTCAR"] = Some (Str.cat texts).
Proof.
  assert (exists rw r w1,
             find_potcar ["Fe"; "Fe"] ["run"] ["pot"] potcar_world = (Ok (rw, r), w1))
    as (rw & r & w1 & Hrun).
  { vm_compute. do 3 eexists. reflexivity. }
  destruct (potcar_concatenation _ _ _ _ _ _ _ Hrun) as (texts & Hall & Hfile).
  exists texts, w1. split; [exact Hall | exact Hfile].
Defined.
(** ** The area in 2D mode: what can fail *)

(** X8: the lookups behind the base area of a run in 2D mode, once the
    resolver has returned its map.  For no element at all the largest
    radius has nothing to choose from, a [ValueError], so that a run in
    2D mode for no element never ends well.  Otherwise the element of
    the largest radius is found in the map and in the list of the
    elements, at its first place there, and the one lookup that can
    fail is that of the atom count at that place, an [IndexError] when
    the counts are fewer; with a count for every element it is
    found. *)
Theorem two_d_area_lookups `{Runtime} (config : SetupConfig) (w0 w1 : world)
    (rwigs_values : Dict.t F64.float) (min_latom_dis : option F64.float) :
  is_2d config = true ->
  find_potcar (elements config) (destination config) (potcar_root config) w0
  = (Ok (rwigs_values, min_latom_dis), w1) ->
  (elements config = [] ->
   (exists msg, base_area_of config rwigs_values = Raise (ValueError msg)) /\
   forall w created w', setup_calypso config w <> (Ok created, w')) /\
  (elements config <> [] ->
   exists element radius i,
     max_key rwigs_values = Ok element /\
     Dict.get rwigs_values element = Some radius /\
     nth_error (elements config) i = Some element /\
     (forall j, (j < i)%nat -> nth_error (elements config) j <> Some element) /\
     base_area_of config rwigs_values =
       match nth_error (atom_counts config) i with
       | None => Raise (IndexError "list index out of range")
       | Some count =>
           rbind (F64.of_int count) (fun c =>
           rbind (float_pow radius 2) (fun sq =>
           Ok (Some (F64.mul (F64.mul c F64.pi) sq))))
       end /\
     ((length (elements config) <= length (atom_counts config))%nat ->
      is_Some (nth_error (atom_counts config) i))).
Proof.
  intros H2d Hrun. pose proof Hrun as (_ & _ & _ & _ & Hkeys)%find_potcar_ok. split.
  - intros Hnil. split; [now apply base_area_empty|].
    intros w created w' Hok.
    apply setup_calypso_ok in Hok
      as (wa & rw & ml & wb & ps & pc & mx & ba & _ & Hfind & _ & _ & Hb & _).
    apply find_potcar_ok in Hfind as (_ & _ & _ & _ & Hk).
    destruct (base_area_empty config rw H2d Hk Hnil) as (msg & Hmsg).
    rewrite Hmsg in Hb. discriminate Hb.
  - now apply base_area_lookup.
Qed.

Lemma two_d_area_lookups_witness :
  exists rwigs_values element i,
    (exists min_latom_dis w1,
        find_potcar (elements fe_o_config) (destination fe_o_config) (potcar_root fe_o_config)
          potcar_world = (Ok (rwigs_values, min_latom_dis), w1)) /\
    max_key rwigs_values = Ok element /\
    nth_error (elements fe_o_config) i = Some element /\
    is_Some (nth_error (atom_counts fe_o_config) i).
Proof.
  assert (exists rw r w1,
             find_potcar (elements fe_o_config) (destination fe_o_config)
               (potcar_root fe_o_config) potcar_world = (Ok (rw, r), w1))
    as (rw & r & w1 & Hrun).
  { vm_compute. do 3 eexists. reflexivity. }
  destruct (@two_d_area_lookups reference_runtime fe_o_config potcar_world w1 rw r eq_refl Hrun)
    as [_ Hsome].
  destruct Hsome as (element & radius & i & Hmax & _ & Hnth & _ & _ & Hcount); [discriminate|].
  exists rw, element, i. split; [now exists r, w1|]. split; [exact Hmax|].
  split; [exact Hnth|]. apply Hcount. simpl. lia.
Defined.
(** ** The prompts of the command line *)

(** X9: the prompt for a list of integers reads lines until one is
    accepted and returns the values of that line; the lines before it
    are those that it complains about, and none of them is accepted.
    The prompt is written before every line that is read, and each
    complaint after its line.  When the input ends before a line is
    accepted, the prompt has been written once more and the program
    stops with [EOFError]. *)
Theorem prompt_int_list_reads (prompt : string) (expected_len : option nat) (c : console) :
  exists skipped complaints,
    Forall2 (complains expected_len) skipped complaints /\
    (forall line values, line ∈ skipped -> ~ accepts expected_len line values) /\
    ((exists line values rest,
         pending c = (skipped ++ line :: rest)%list /\ accepts expected_len line values /\
         Cli._prompt_int_list prompt expected_len c
         = (Returned values, Console rest (shown c ++ asked prompt complaints))) \/
     (pending c = skipped /\
      Cli._prompt_int_list prompt expected_len c
      = (Stopped EOFError, Console [] (shown c ++ asked prompt complaints)))).
Proof.
  destruct (prompt_int_list_loop_run prompt expected_len (pending c) (shown c))
    as (skipped & complaints & Hall & Hrun).
  exists skipped, complaints. split; [exact Hall|]. split; [|exact Hrun].
  intros line values Hin.
  destruct (Forall2_left_elem _ _ _ _ Hall Hin) as (complaint & _ & Hc).
  now apply (complains_rejected _ _ complaint).
Qed.

(** X10: asked for exactly no value, the prompt accepts no line at
    all: it reads the input to its end and stops with [EOFError].  So
    do the prompt for the rows of one layer or more of no element, and
    the prompts of a configuration for no element. *)
Theorem prompt_for_no_value `{Cli.System} (c : console) :
  (forall prompt,
      exists written,
        Cli._prompt_int_list prompt (Some 0%nat) c = (Stopped EOFError, Console [] written)) /\
  (forall num_layers, 0 < num_layers ->
      exists written,
        Cli._prompt_layer_matrix num_layers [] c = (Stopped EOFError, Console [] written)) /\
  (forall args root calypso vasp, Cli.arg_elements args = [] ->
      exists written,
        Cli.prompt_config args root calypso vasp c = (Stopped EOFError, Console [] written)).
Proof.
  assert (forall prompt c0,
             exists written,
               Cli._prompt_int_list prompt (Some 0%nat) c0
               = (Stopped EOFError, Console [] written)) as Hnone.
  { intros prompt c0.
    destruct (prompt_int_list_loop_run prompt (Some 0%nat) (pending c0) (shown c0))
      as (skipped & complaints & _ & [(line & vs & rest & _ & Hacc & _)|[_ Hloop]]).
    - destruct Hacc as (_ & Hne & Hlen). specialize (Hlen _ eq_refl).
      destruct vs; [contradiction | discriminate].
    - eexists. exact Hloop. }
  split; [intros prompt; apply Hnone|]. split.
  - intros num_layers Hpos. unfold Cli._prompt_layer_matrix, Cli.range.
    replace (Z.to_nat (num_layers + 1 - 1)) with (S (Z.to_nat (num_layers - 1))) by lia.
    cbn [seq map Cli.for_each length]. unfold mbind, cli_bind.
    destruct (Hnone (Cli.layer_prompt (1 + Z.of_nat 0) []) c) as (written & ->).
    now exists written.
  - intros args root calypso vasp Hnil. unfold Cli.prompt_config. rewrite Hnil.
    cbn [length]. unfold mbind at 1, cli_bind at 1.
    destruct (Hnone ("How many atoms of each species (" ++ Str.join ", " [] ++ ")? ") c)
      as (written & ->).
    now exists written.
Qed.

(** X11: the rows that the prompt for the layers returns are as many
    as the layers, none for a number of layers of zero or less, when
    nothing is asked; each row is the values of a line that is
    accepted, one for every element and one at least, and the lines
    are taken from the input in their order. *)
Theorem layer_matrix_rows (num_layers : Z) (elements : list string) (c c' : console)
    (layer_matrix : list (list Z)) :
  Cli._prompt_layer_matrix num_layers elements c = (Returned layer_matrix, c') ->
  length layer_matrix = Z.to_nat num_layers /\
  Forall (fun row => length row = length elements /\ row <> []) layer_matrix /\
  (exists lines consumed,
      Forall2 (accepts (Some (length elements))) lines layer_matrix /\
      pending c = (consumed ++ pending c')%list /\ sublist lines consumed) /\
  (num_layers <= 0 -> layer_matrix = [] /\ c' = c).
Proof.
  unfold Cli._prompt_layer_matrix. intros Hrun.
  pose proof Hrun as (rows & lines & consumed & -> & Hlen & Hall & Hp & Hsub)%layer_rows.
  cbn [app] in *. split; [rewrite Hlen, range_length; f_equal; lia|]. split.
  - clear -Hall. induction Hall as [|line row lines rows Hacc _ IH]; constructor; [|exact IH].
    now apply (accepts_row _ line).
  - split; [now exists lines, consumed|].
    intros Hle. unfold Cli.range in Hrun.
    replace (Z.to_nat (num_layers + 1 - 1)) with O in Hrun by lia.
    cbn [seq map Cli.for_each] in Hrun. injection Hrun as <- <-. auto.
Qed.

Lemma layer_matrix_rows_witness :
  exists layer_matrix c',
    Cli._prompt_layer_matrix 2 ["Fe"; "O"] layers_console = (Returned layer_matrix, c') /\
    length layer_matrix = 2%nat /\
    Forall (fun row => length row = 2%nat /\ row <> []) layer_matrix.
Proof.
  assert (exists m c', Cli._prompt_layer_matrix 2 ["Fe"; "O"] layers_console
                       = (Returned m, c')) as (m & c' & Hrun).
  { vm_compute. do 2 eexists. reflexivity. }
  exists m, c'. split; [exact Hrun|].
  destruct (layer_matrix_rows 2 ["Fe"; "O"] layers_console c' m Hrun) as (Hlen & Hrows & _).
  split; [exact Hlen | exact Hrows].
Defined.

(** X12: a configuration that the prompts return has the elements of
    the command line, one atom count for each of them, one element and
    one multiplier at least, and the pressure zero, which nothing
    asks for.  Without a matrix of layers it is a configuration in
    three dimensions, of one layer and no relaxation; with one it is
    a configuration in 2D mode, the matrix with a row for every layer,
    as many as the number of layers that was answered or none when
    that number is zero or less, and a count for every element in each
    row. *)
Theorem prompted_config `{Cli.System} (args : Cli.Namespace) (root : path)
    (calypso vasp : string) (c c' : console) (config : SetupConfig) :
  Cli.prompt_config args root calypso vasp c = (Returned config, c') ->
  elements config = Cli.arg_elements args /\
  destination config = Cli.resolve (Cli.arg_destination args) /\
  potcar_root config = root /\
  calypso_executable config = calypso /\ vasp_executable config = vasp /\
  pressure_gpa config = F64.zero /\
  length (atom_counts config) = length (elements config) /\
  elements config <> [] /\
  formula_multipliers config <> [] /\
  match layer_type_matrix config with
  | None => is_2d config = false /\ num_layers config = 1 /\ relax_z config = false
  | Some layer_matrix =>
      is_2d config = true /\
      length layer_matrix = Z.to_nat (num_layers config) /\
      Forall (fun row => length row = length (elements config)) layer_matrix
  end.
Proof.
  intros (counts & multipliers & two_d & layers & relax & matrix & -> &
          (line1 & Hacc1) & (line3 & Hacc3) & Hmode)%prompt_config_returned.
  cbn [elements destination potcar_root calypso_executable vasp_executable pressure_gpa
       atom_counts formula_multipliers layer_type_matrix is_2d num_layers relax_z].
  destruct (accepts_row _ _ _ Hacc1) as [Hlen Hne].
  do 6 (split; [reflexivity|]). split; [exact Hlen|]. split.
  - intros Hnil. rewrite Hnil in Hlen. now destruct counts.
  - split; [now destruct Hacc3 as (_ & Hne3 & _)|].
    destruct matrix as [m|]; [|exact Hmode].
    destruct Hmode as (-> & Hm & lines & Hall). split; [reflexivity|]. split; [exact Hm|].
    clear -Hall. induction Hall as [|line row lines rows Hacc _ IH]; constructor; [|exact IH].
    now destruct (accepts_row _ _ _ Hacc).
Qed.

Lemma prompted_config_witness :
  exists config c',
    @Cli.prompt_config root_system fe_o_args ["pot"] "calypso.x" "vasp_std" two_d_console
    = (Returned config, c') /\
    length (atom_counts config) = length (elements config) /\
    pressure_gpa config = F64.zero.
Proof.
  assert (exists config c',
             @Cli.prompt_config root_system fe_o_args ["pot"] "calypso.x" "vasp_std"
               two_d_console = (Returned config, c')) as (config & c' & Hrun).
  { vm_compute. do 2 eexists. reflexivity. }
  exists config, c'. split; [exact Hrun|].
  destruct (@prompted_config root_system _ _ _ _ _ _ _ Hrun)
    as (_ & _ & _ & _ & _ & Hp & Hlen & _).
  split; [exact Hlen | exact Hp].
Defined.

(** X13: a run with a configuration that the prompts return passes
    the check of the pressure, with the pressure field [0]; and in 2D
    mode, whatever the resolver returns for its elements, the element
    of the largest radius and its atom count are found, so that the
    base area can fail only where the count is made a float and the
    radius is squared. *)
Theorem prompted_config_runs `{Runtime} `{Cli.System} (args : Cli.Namespace) (root : path)
    (calypso vasp : string) (c c' : console) (config : SetupConfig) :
  Cli.prompt_config args root calypso vasp c = (Returned config, c') ->
  _format_pstress_kbar (pressure_gpa config) = Ok "0" /\
  forall w0 w1 rwigs_values min_latom_dis,
    find_potcar (elements config) (destination config) (potcar_root config) w0
    = (Ok (rwigs_values, min_latom_dis), w1) ->
    if is_2d config then
      exists radius count,
        base_area_of config rwigs_values =
        rbind (F64.of_int count) (fun c =>
        rbind (float_pow radius 2) (fun sq =>
        Ok (Some (F64.mul (F64.mul c F64.pi) sq))))
    else base_area_of config rwigs_values = Ok None.
Proof.
  intros (counts & multipliers & two_d & layers & relax & matrix & -> &
          (line1 & Hacc1) & _ & _)%prompt_config_returned.
  cbn [elements destination potcar_root pressure_gpa is_2d]. split; [reflexivity|].
  intros w0 w1 rw ml (_ & _ & _ & _ & Hkeys)%find_potcar_ok.
  destruct two_d eqn:H2d; [|unfold base_area_of; cbn [is_2d]; reflexivity].
  destruct (accepts_row _ _ _ Hacc1) as [Hlen Hne].
  match goal with |- context [base_area_of ?cfg rw] => set (config := cfg) end.
  destruct (base_area_lookup config rw eq_refl Hkeys)
    as (element & radius & i & _ & _ & _ & _ & Harea & Hcount).
  { cbn [config elements]. intros Hnil. rewrite Hnil in Hlen. now destruct counts. }
  destruct Hcount as [count Hcount]; [cbn [config elements atom_counts]; lia|].
  rewrite Hcount in Harea. now exists radius, count.
Qed.

Lemma prompted_config_runs_witness :
  exists config c',
    @Cli.prompt_config root_system fe_o_args ["pot"] "calypso.x" "vasp_std" three_d_console
    = (Returned config, c') /\
    _format_pstress_kbar (pressure_gpa config) = Ok "0".
Proof.
  assert (exists config c',
             @Cli.prompt_config root_system fe_o_args ["pot"] "calypso.x" "vasp_std"
               three_d_console = (Returned config, c')) as (config & c' & Hrun).
  { vm_compute. do 2 eexists. reflexivity. }
  exists config, c'. split; [exact Hrun|].
  exact (proj1 (@prompted_config_runs reference_runtime root_system _ _ _ _ _ _ _ Hrun)).
Defined.

(** X14: the answer to the question of the 2D search, once the atom
    counts are read.  Without the blanks around it and in small
    letters, [y] or [yes] makes a configuration in 2D mode, [n] or
    [no] one that is not; any other answer stops the program with
    [SystemExit] and its message, at once: the question is not asked
    again and the multipliers are not asked for. *)
Theorem two_d_answer `{Cli.System} (args : Cli.Namespace) (root : path)
    (calypso vasp : string) (c : console) (line answer : string) (rest : list string)
    (counts : list Z) :
  pending c = line :: answer :: rest ->
  accepts (Some (length (Cli.arg_elements args))) line counts ->
  (Cli.lower (Str.strip answer) ∉ ["y"; "yes"; "n"; "no"] ->
   Cli.prompt_config args root calypso vasp c
   = (Stopped (SystemExit "Invalid response. Please answer Y or N."),
      Console rest (shown c ++ [counts_prompt (Cli.arg_elements args);
                                "Is this a 2D structure search? (Y/N): "]))) /\
  (forall config c',
      Cli.prompt_config args root calypso vasp c = (Returned config, c') ->
      atom_counts config = counts /\
      (is_2d config = true <-> Cli.lower (Str.strip answer) ∈ ["y"; "yes"]) /\
      (is_2d config = false <-> Cli.lower (Str.strip answer) ∈ ["n"; "no"])).
Proof.
  destruct c as [lines written]. cbn [pending shown]. intros -> Hacc.
  rewrite (prompt_config_answer _ _ _ _ _ _ _ _ _ Hacc). cbv zeta.
  set (reply := Cli.lower (Str.strip answer)).
  destruct (Cli.member reply ["y"; "yes"]) eqn:Hyes.
  - pose proof Hyes as Hy%member_elem. split.
    + intros Hnot. exfalso. apply Hnot.
      apply elem_of_cons in Hy as [->|Hy]; [apply list_elem_of_here|].
      apply list_elem_of_singleton in Hy as ->. apply list_elem_of_further, list_elem_of_here.
    + intros config c' (mode & c1 & _ & Hrest)%cli_bind_returned.
      destruct mode as [[layers relax] matrix].
      apply cli_bind_returned in Hrest as (multipliers & c2 & _ & Hret).
      injection Hret as <- _. cbn [atom_counts is_2d]. split; [reflexivity|].
      split; [tauto|]. split; [discriminate|].
      intros Hn. exfalso.
      apply elem_of_cons in Hy as [Hy|Hy%list_elem_of_singleton]; rewrite Hy in Hn;
        apply elem_of_cons in Hn as [Hn|Hn%list_elem_of_singleton]; discriminate Hn.
  - pose proof Hyes as Hy%member_not_elem.
    destruct (Cli.member reply ["n"; "no"]) eqn:Hno; cbn [negb].
    + pose proof Hno as Hn%member_elem. split.
      * intros Hnot. exfalso. apply Hnot. do 2 apply list_elem_of_further. exact Hn.
      * intros config c' (mode & c1 & Hmode & Hrest)%cli_bind_returned.
        injection Hmode as <- <-.
        apply cli_bind_returned in Hrest as (multipliers & c2 & _ & Hret).
        injection Hret as <- _. cbn [atom_counts is_2d]. split; [reflexivity|].
        split; [split; [discriminate | contradiction] | tauto].
    + split; [reflexivity|]. intros config c' (mode & c1 & Hmode & _)%cli_bind_returned.
      discriminate Hmode.
Qed.

Lemma two_d_answer_witness :
  @Cli.prompt_config root_system fe_o_args ["pot"] "calypso.x" "vasp_std" undecided_console
  = (Stopped (SystemExit "Invalid response. Please answer Y or N."),
     Console ["1 2"] [counts_prompt ["Fe"; "O"]; "Is this a 2D structure search? (Y/N): "]).
Proof.
  refine (proj1 (@two_d_answer root_system fe_o_args ["pot"] "calypso.x" "vasp_std"
                   undecided_console "1 1" "maybe" ["1 2"] [1; 1] eq_refl _) _).
  - vm_compute. repeat split; [discriminate|]. now intros n [= <-].
  - vm_compute. intros Hin.
    repeat (apply elem_of_cons in Hin as [Hin|Hin]; [discriminate Hin|]). inversion Hin.
Defined.

(** X15: the answers of a search in 2D mode.  The number of layers is
    read with [int] and nothing catches its [ValueError]: an answer
    that is no integer stops the program there, before the question of
    the relaxation.  The answer to that question never stops it: [y]
    or [yes], in any case of the letters, is a yes and everything else
    a no.  After these answers the prompts return or stop at the end
    of the input, and in no other way. *)
Theorem layers_and_relax_answers `{Cli.System} (args : Cli.Namespace) (root : path)
    (calypso vasp : string) (c : console) (line answer layers relax : string)
    (rest : list string) (counts : list Z) :
  pending c = line :: answer :: layers :: relax :: rest ->
  accepts (Some (length (Cli.arg_elements args))) line counts ->
  Cli.lower (Str.strip answer) ∈ ["y"; "yes"] ->
  (PyInt.parse (Str.strip layers) = None ->
   exists msg,
     Cli.prompt_config args root calypso vasp c
     = (Stopped (Uncaught (ValueError msg)),
        Console (relax :: rest)
          (shown c ++ [counts_prompt (Cli.arg_elements args);
                       "Is this a 2D structure search? (Y/N): "; "How many layers? "]))) /\
  (forall config c',
      Cli.prompt_config args root calypso vasp c = (Returned config, c') ->
      PyInt.parse (Str.strip layers) = Some (num_layers config) /\
      (relax_z config = true <-> Cli.lower (Str.strip relax) ∈ ["y"; "yes"])) /\
  (forall s c',
      Cli.prompt_config args root calypso vasp c = (Stopped s, c') ->
      s = EOFError \/
      (PyInt.parse (Str.strip layers) = None /\ exists msg, s = Uncaught (ValueError msg))).
Proof.
  destruct c as [lines written]. cbn [pending shown]. intros -> Hacc Hyes%member_elem.
  rewrite (prompt_config_answer _ _ _ _ _ _ _ _ _ Hacc). cbv zeta. rewrite Hyes.
  rewrite cli_bind_assoc, cli_bind_input. cbv beta.
  rewrite cli_bind_assoc, cli_bind_uncaught. unfold PyInt.int.
  rewrite <- app_assoc. cbn [app].
  destruct (PyInt.parse (Str.strip layers)) as [n|] eqn:Hn.
  - split; [discriminate|].
    rewrite cli_bind_assoc, cli_bind_input. cbv beta. rewrite cli_bind_assoc. split.
    + intros config c' (m & c1 & _ & Hrest)%cli_bind_returned.
      rewrite cli_bind_ret in Hrest.
      apply cli_bind_returned in Hrest as (multipliers & c2 & _ & Hret).
      injection Hret as <- _. cbn [num_layers relax_z]. split; [reflexivity|].
      exact (member_elem (Cli.lower (Str.strip relax)) ["y"; "yes"]).
    + intros s c' [Hm|(m & c1 & _ & Hrest)]%cli_bind_stopped.
      * left. exact (layer_matrix_stopped _ _ _ _ _ Hm).
      * rewrite cli_bind_ret in Hrest.
        apply cli_bind_stopped in Hrest as [Hms|(ms & c2 & _ & Hret)]; [|discriminate Hret].
        left. exact (prompt_int_list_stopped _ _ _ _ _ Hms).
  - split; [intros _; eexists; reflexivity|]. split; [discriminate|].
    intros s c' [= <- _]. right. split; [reflexivity|]. eexists. reflexivity.
Qed.

Lemma layers_and_relax_answers_witness :
  exists config c',
    @Cli.prompt_config root_system fe_o_args ["pot"] "calypso.x" "vasp_std" two_d_console
    = (Returned config, c') /\
    num_layers config = 2 /\ relax_z config = false.
Proof.
  assert (exists config c',
             @Cli.prompt_config root_system fe_o_args ["pot"] "calypso.x" "vasp_std"
               two_d_console = (Returned config, c')) as (config & c' & Hrun).
  { vm_compute. do 2 eexists. reflexivity. }
  exists config, c'. split; [exact Hrun|].
  destruct (@layers_and_relax_answers root_system fe_o_args ["pot"] "calypso.x" "vasp_std"
              two_d_console "1 1" "YES" " 2" "maybe" ["1 0"; "0 1"; "1 2 4"] [1; 1] eq_refl)
    as (_ & Hret & _).
  - vm_compute. repeat split; [discriminate|]. now intros n [= <-].
  - vm_compute. apply list_elem_of_further, list_elem_of_here.
  - destruct (Hret config c' Hrun) as [Hn Hrelax]. split.
    + vm_compute in Hn. injection Hn as Hn. exact (eq_sym Hn).
    + destruct (relax_z config); [|reflexivity]. exfalso.
      destruct Hrelax as [Hyes _]. specialize (Hyes eq_refl). vm_compute in Hyes.
      repeat (apply elem_of_cons in Hyes as [Hyes|Hyes]; [discriminate Hyes|]).
      inversion Hyes.
Defined.
(** X16: a run, whatever its outcome, changes no file but the six
    shared files of its destination and, in the directory of each of
    its multipliers, the descriptor and the copies of the shared
    files; a copy goes below a directory of its name where there is
    one.  What else was at the destination before the run is there
    after it. *)
Theorem run_touches `{Runtime} (config : SetupConfig) (w : world) (p : path) :
  ~ touched config p ->
  files (snd (setup_calypso config w)) !! p = files w !! p.
Proof. intros Hp. now apply spares_untouched. Qed.

Lemma run_touches_witness :
  files (snd (@setup_calypso reference_runtime fe_o_config potcar_world)) !! ["run"; "3"; "POTCAR"]
  = files potcar_world !! ["run"; "3"; "POTCAR"].
Proof.
  apply (@run_touches reference_runtime fe_o_config potcar_world).
  intros [(f & _ & Hp)|(m & Hm & Hp)].
  - discriminate Hp.
  - assert (PyInt.str m <> "3") as Hne.
    { apply elem_of_cons in Hm as [->|Hm]; [discriminate|].
      apply list_elem_of_singleton in Hm as ->. discriminate. }
    destruct Hp as [Hp|(f & _ & [Hp|Hp])]; injection Hp as Hp; congruence.
Defined.

(** X17: a run, whatever its outcome, removes no directory and makes
    none but its destination, the directories above it and the
    directories named after its multipliers; a run that ends well has
    made all of these. *)
Theorem run_directories `{Runtime} (config : SetupConfig) (w : world) :
  (forall d, d ∈ dirs w -> d ∈ dirs (snd (setup_calypso config w))) /\
  (forall d, d ∈ dirs (snd (setup_calypso config w)) ->
             d ∈ dirs w \/ d ∈ Path.parents (destination config) \/
             exists m, m ∈ formula_multipliers config /\ d = subdir (destination config) m) /\
  (forall created w',
      setup_calypso config w = (Ok created, w') ->
      (forall d, d ∈ Path.parents (destination config) -> d ∈ dirs w') /\
      (forall m, m ∈ formula_multipliers config -> subdir (destination config) m ∈ dirs w')).
Proof.
  split; [intros d; apply makes_setup_calypso|]. split.
  - intros d Hd. destruct (makes_setup_calypso config w d) as [_ Hout].
    destruct (Hout Hd) as [?|[?|?]]; auto.
  - intros created w' Hrun. split.
    + intros d Hd. apply (setup_calypso_made config w created w' d Hrun). now left.
    + intros m Hm. apply (setup_calypso_made config w created w' _ Hrun). right. now exists m.
Qed.
